(** * Ethiopian checkers (checkers.cpp)

    A shallow embedding of [checkers.cpp]: the rules engine (move generation,
    move application, promotion, game-over detection), the main loop with
    the save file, and what [DrawBoard] draws.  The window itself is left
    out: the mouse and the keys enter the model as the values raylib reports
    in a frame, and drawing is the list of the calls that draw.

    Conventions.
    - C++ [int] values are modelled in [Z].  The only arithmetic that can leave
      the range of [int] is the increment of a score, which is checked.
    - The board is [Piece board[8][8]], a list of rows; [board[y][x]] is
      [cell b x y].  Indexing outside the array is undefined behaviour in C++
      and is [None] here, as is a write past the end of [validMoves] and a
      loop that needs more iterations than the board has cells in a line. *)

From stdpp Require Import base option list strings pretty.
From Stdlib Require Import ZArith Lia Btauto.

Local Open Scope Z_scope.
Set Warnings "-clear-no-such-hyp".

(** ** The error monad

    [None] stands for undefined behaviour of the C++ program. *)

Definition bind {A B : Type} (m : option A) (f : A → option B) : option B :=
  match m with
  | Some a => f a
  | None => None
  end.

Notation "x <- m ;; k" := (bind m (fun x => k))
  (at level 100, m at next level, k at level 200, right associativity,
   format "'[v' x  <-  m  ;;  '/' k ']'").

(** ** Constants *)

Definition BOARD_WIDTH : Z := 600.
Definition BOARD_HEIGHT : Z := 600.
Definition CELL_SIZE : Z := 75.
Definition MAX_VALID_MOVES : Z := 12.

(** [BOARD_WIDTH / CELL_SIZE] and [BOARD_HEIGHT / CELL_SIZE], the array
    dimensions. *)
Definition COLS : Z := Eval cbv in BOARD_WIDTH / CELL_SIZE.
Definition ROWS : Z := Eval cbv in BOARD_HEIGHT / CELL_SIZE.

Definition INT_MAX : Z := 2147483647.

(** ** Data *)

Inductive PieceType := NONE | REGULAR | KING.
Inductive Player := PLAYER1 | PLAYER2.

#[global] Instance PieceType_eq_dec : EqDecision PieceType.
Proof. solve_decision. Defined.
#[global] Instance Player_eq_dec : EqDecision Player.
Proof. solve_decision. Defined.

Record Piece := mkPiece {
  type : PieceType;
  player : Player;
  isKing : bool
}.

Record Position := mkPosition { pos_x : Z; pos_y : Z }.

#[global] Instance Piece_eq_dec : EqDecision Piece.
Proof. solve_decision. Defined.
#[global] Instance Position_eq_dec : EqDecision Position.
Proof. solve_decision. Defined.

Abbreviation Board := (list (list Piece)).

Record GameState := mkGameState {
  board : Board;
  currentPlayer : Player;
  player1Score : Z;
  player2Score : Z;
  pieceSelected : bool;
  selectedX : Z;
  selectedY : Z;
  validMoves : list Position;
  validMoveCount : Z;
  isCapturing : bool
}.

(** Field assignments. *)

Definition set_board (gs : GameState) (b : Board) : GameState :=
  mkGameState b (currentPlayer gs) (player1Score gs) (player2Score gs)
    (pieceSelected gs) (selectedX gs) (selectedY gs) (validMoves gs)
    (validMoveCount gs) (isCapturing gs).

Definition set_currentPlayer (gs : GameState) (p : Player) : GameState :=
  mkGameState (board gs) p (player1Score gs) (player2Score gs)
    (pieceSelected gs) (selectedX gs) (selectedY gs) (validMoves gs)
    (validMoveCount gs) (isCapturing gs).

Definition set_player1Score (gs : GameState) (n : Z) : GameState :=
  mkGameState (board gs) (currentPlayer gs) n (player2Score gs)
    (pieceSelected gs) (selectedX gs) (selectedY gs) (validMoves gs)
    (validMoveCount gs) (isCapturing gs).

Definition set_player2Score (gs : GameState) (n : Z) : GameState :=
  mkGameState (board gs) (currentPlayer gs) (player1Score gs) n
    (pieceSelected gs) (selectedX gs) (selectedY gs) (validMoves gs)
    (validMoveCount gs) (isCapturing gs).

Definition set_pieceSelected (gs : GameState) (s : bool) : GameState :=
  mkGameState (board gs) (currentPlayer gs) (player1Score gs) (player2Score gs)
    s (selectedX gs) (selectedY gs) (validMoves gs)
    (validMoveCount gs) (isCapturing gs).

Definition set_selected (gs : GameState) (x y : Z) : GameState :=
  mkGameState (board gs) (currentPlayer gs) (player1Score gs) (player2Score gs)
    (pieceSelected gs) x y (validMoves gs)
    (validMoveCount gs) (isCapturing gs).

Definition set_validMoves (gs : GameState) (vm : list Position) : GameState :=
  mkGameState (board gs) (currentPlayer gs) (player1Score gs) (player2Score gs)
    (pieceSelected gs) (selectedX gs) (selectedY gs) vm
    (validMoveCount gs) (isCapturing gs).

Definition set_validMoveCount (gs : GameState) (n : Z) : GameState :=
  mkGameState (board gs) (currentPlayer gs) (player1Score gs) (player2Score gs)
    (pieceSelected gs) (selectedX gs) (selectedY gs) (validMoves gs)
    n (isCapturing gs).

Definition set_isCapturing (gs : GameState) (c : bool) : GameState :=
  mkGameState (board gs) (currentPlayer gs) (player1Score gs) (player2Score gs)
    (pieceSelected gs) (selectedX gs) (selectedY gs) (validMoves gs)
    (validMoveCount gs) c.

(** ** The board array *)

Definition in_bounds (x y : Z) : bool :=
  (0 <=? x) && (x <? COLS) && (0 <=? y) && (y <? ROWS).

(** [board[y][x]] *)
Definition cell (b : Board) (x y : Z) : option Piece :=
  if in_bounds x y then row <- b !! Z.to_nat y ;; row !! Z.to_nat x else None.

(** [board[y][x].field = ...], as a change [f] of the stored piece. *)
Definition update_cell (b : Board) (x y : Z) (f : Piece → Piece) : option Board :=
  if in_bounds x y then Some (alter (alter f (Z.to_nat x)) (Z.to_nat y) b)
  else None.

Definition set_type (t : PieceType) (p : Piece) : Piece :=
  mkPiece t (player p) (isKing p).

Definition set_isKing (k : bool) (p : Piece) : Piece :=
  mkPiece (type p) (player p) k.

Definition is_NONE (t : PieceType) : bool :=
  match t with NONE => true | _ => false end.

Definition is_KING (t : PieceType) : bool :=
  match t with KING => true | _ => false end.

Definition same_player (p q : Player) : bool :=
  match p, q with
  | PLAYER1, PLAYER1 | PLAYER2, PLAYER2 => true
  | _, _ => false
  end.

(** ** The candidate array *)

(** [validMoves[i].x = x; validMoves[i].y = y] *)
Definition write_move (vm : list Position) (i : Z) (x y : Z)
  : option (list Position) :=
  if (0 <=? i) && (i <? MAX_VALID_MOVES) && (i <? Z.of_nat (length vm))
  then Some (<[Z.to_nat i := mkPosition x y]> vm)
  else None.

(** The guarded append that [FindValidMoves] repeats three times:
    [if (validMoveCount < MAX_VALID_MOVES) { validMoves[validMoveCount] = ...;
    validMoveCount++; }]. *)
Definition add_move (gs : GameState) (x y : Z) : option GameState :=
  if validMoveCount gs <? MAX_VALID_MOVES then
    vm <- write_move (validMoves gs) (validMoveCount gs) x y ;;
    Some (set_validMoveCount (set_validMoves gs vm) (validMoveCount gs + 1))
  else Some gs.

(** The candidates a state holds: the first [validMoveCount] entries. *)
Definition candidates (gs : GameState) : list Position :=
  take (Z.to_nat (validMoveCount gs)) (validMoves gs).

(** A [for] loop over a fixed list of values, in the error monad. *)
Fixpoint for_each {S A : Type} (body : A → S → option S) (l : list A) (s : S)
  : option S :=
  match l with
  | [] => Some s
  | a :: l' => s' <- body a s ;; for_each body l' s'
  end.

(** ** InitializeGame *)

Definition set_player (q : Player) (p : Piece) : Piece :=
  mkPiece (type p) q (isKing p).

(** What the body of the two loops writes into the cell [(x, y)]: the owner
    field of a cell that gets no piece is not assigned. *)
Definition initial_piece (x y : Z) (old : Piece) : Piece :=
  let player1Rows := 3 in
  let player2Rows := 3 in
  let c := set_isKing false (set_type NONE old) in
  if negb ((x + y) `rem` 2 =? 0) && (y <? player1Rows) then
    set_player PLAYER1 (set_type REGULAR c)
  else if negb ((x + y) `rem` 2 =? 0) && (y >=? ROWS - player2Rows) then
    set_player PLAYER2 (set_type REGULAR c)
  else c.

(** [validMoves], [validMoveCount] and [isCapturing] are not assigned. *)
Definition InitializeGame (gs : GameState) : option GameState :=
  b <- for_each (λ y b, for_each (λ x b, update_cell b x y (initial_piece x y))
                          (seqZ 0 COLS) b)
         (seqZ 0 ROWS) (board gs) ;;
  Some (mkGameState b PLAYER1 0 0 false (-1) (-1) (validMoves gs)
          (validMoveCount gs) (isCapturing gs)).

(** ** FindValidMoves *)

(** The [while (true)] loop of the king branch for one direction.  [st] is
    the game state with the local flag [captureAvailable]. *)
Fixpoint king_scan (fuel : nat) (piece : Piece) (isAfterCapture : bool)
    (dx dy newX newY : Z) (opponentPieceFound : bool)
    (st : GameState * bool) : option (GameState * bool) :=
  match fuel with
  | O => None
  | S fuel' =>
    let newX := newX + dx in
    let newY := newY + dy in
    if (newX <? 0) || (newX >=? COLS) || (newY <? 0) || (newY >=? ROWS)
    then Some st
    else
      c <- cell (board (fst st)) newX newY ;;
      if is_NONE (type c) then
        if opponentPieceFound then
          (* [captureAvailable = true] sits inside the guard of the append *)
          let guard := validMoveCount (fst st) <? MAX_VALID_MOVES in
          gs <- add_move (fst st) newX newY ;;
          Some (gs, if guard then true else snd st)
        else if negb isAfterCapture then
          gs <- add_move (fst st) newX newY ;;
          king_scan fuel' piece isAfterCapture dx dy newX newY
            opponentPieceFound (gs, snd st)
        else
          king_scan fuel' piece isAfterCapture dx dy newX newY
            opponentPieceFound st
      else
        if negb (same_player (player c) (player piece)) then
          if negb opponentPieceFound then
            king_scan fuel' piece isAfterCapture dx dy newX newY true st
          else Some st
        else Some st
  end.

(** No line of the board has more than 8 cells: the 8th step from a cell of
    the board is outside it. *)
Definition SCAN_FUEL : nat := 8.

Definition king_directions : list (Z * Z) :=
  [(1, 1); (-1, 1); (1, -1); (-1, -1)].

Definition regular_directions (p : Player) : list (Z * Z) :=
  match p with
  | PLAYER1 => [(1, 1); (-1, 1)]
  | PLAYER2 => [(1, -1); (-1, -1)]
  end.

(** The body of the [for] loop of the branch for regular pieces. *)
Definition regular_step (piece : Piece) (isAfterCapture : bool) (x y : Z)
    (d : Z * Z) (gs : GameState) : option GameState :=
  let dx := fst d in
  let dy := snd d in
  let newX := x + dx in
  let newY := y + dy in
  if in_bounds newX newY then
    n <- cell (board gs) newX newY ;;
    gs <- (if is_NONE (type n) && negb isAfterCapture
          then add_move gs newX newY else Some gs) ;;
    let captureX := x + 2 * dx in
    let captureY := y + 2 * dy in
    if in_bounds captureX captureY then
      c <- cell (board gs) captureX captureY ;;
      if is_NONE (type c) && negb (is_NONE (type n))
         && negb (same_player (player n) (player piece))
      then add_move gs captureX captureY
      else Some gs
    else Some gs
  else Some gs.

Definition FindValidMoves (gs : GameState) (x y : Z) (isAfterCapture : bool)
  : option GameState :=
  let gs := set_validMoveCount gs 0 in
  piece <- cell (board gs) x y ;;
  if isKing piece then
    st <- for_each (λ d st, king_scan SCAN_FUEL piece isAfterCapture
                             (fst d) (snd d) x y false st)
                  king_directions (gs, false) ;;
    let captureAvailable := snd st in
    if isAfterCapture && negb captureAvailable
    then Some (set_validMoveCount (fst st) 0)
    else Some (fst st)
  else
    for_each (regular_step piece isAfterCapture x y)
             (regular_directions (player piece)) gs.

(** ** SwitchTurn, IsValidMove, PromoteToKing *)

Definition other (p : Player) : Player :=
  match p with PLAYER1 => PLAYER2 | PLAYER2 => PLAYER1 end.

Definition SwitchTurn (gs : GameState) : GameState :=
  set_currentPlayer gs (other (currentPlayer gs)).

(** The loop [for (i = 0; i < validMoveCount; ++i)] from index [i], with [n]
    iterations left; reading past the array is undefined. *)
Fixpoint valid_move_from (vm : list Position) (i n : nat) (endX endY : Z)
  : option bool :=
  match n with
  | O => Some false
  | S n' =>
    move <- vm !! i ;;
    if (pos_x move =? endX) && (pos_y move =? endY) then Some true
    else valid_move_from vm (S i) n' endX endY
  end.

Definition IsValidMove (gs : GameState) (startX startY endX endY : Z)
  : option bool :=
  valid_move_from (validMoves gs) 0 (Z.to_nat (validMoveCount gs)) endX endY.

(** [board[y][x].isKing = true; board[y][x].type = KING;] *)
Definition crown (p : Piece) : Piece := set_type KING (set_isKing true p).

Definition PromoteToKing (gs : GameState) (x y : Z) : option GameState :=
  if same_player (currentPlayer gs) PLAYER1 && (y =? ROWS - 1) then
    b <- update_cell (board gs) x y crown ;; Some (set_board gs b)
  else if same_player (currentPlayer gs) PLAYER2 && (y =? 0) then
    b <- update_cell (board gs) x y crown ;; Some (set_board gs b)
  else Some gs.

(** ** HandleInput *)

(** [score++] on a C++ [int]: overflow is undefined. *)
Definition incr (n : Z) : option Z :=
  if n <? INT_MAX then Some (n + 1) else None.

(** [if (currentPlayer == PLAYER1) player1Score++; else player2Score++;] *)
Definition add_score (gs : GameState) : option GameState :=
  match currentPlayer gs with
  | PLAYER1 => n <- incr (player1Score gs) ;; Some (set_player1Score gs n)
  | PLAYER2 => n <- incr (player2Score gs) ;; Some (set_player2Score gs n)
  end.

(** The loop [while (captureX != x && captureY != y)] of the king capture:
    the first piece of the opponent on the way is taken off the board.  The
    flag is [captureAllowed]. *)
Fixpoint king_capture (fuel : nat) (x y dx dy captureX captureY : Z)
    (gs : GameState) : option (GameState * bool) :=
  match fuel with
  | O => None
  | S fuel' =>
    if negb (captureX =? x) && negb (captureY =? y) then
      c <- cell (board gs) captureX captureY ;;
      if negb (is_NONE (type c))
         && negb (same_player (player c) (currentPlayer gs))
      then
        b <- update_cell (board gs) captureX captureY (set_type NONE) ;;
        gs <- add_score (set_board gs b) ;;
        Some (gs, true)
      else king_capture fuel' x y dx dy (captureX + dx) (captureY + dy) gs
    else Some (gs, false)
  end.

(** The test inside the two nested loops that look for one more capture
    from the landing cell [(x, y)]. *)
Definition additional_capture_at (gs : GameState) (x y : Z) (d : Z * Z)
  : option bool :=
  let directionX := fst d in
  let directionY := snd d in
  let nextX := x + directionX * 2 in
  let nextY := y + directionY * 2 in
  if (nextX >=? 0) && (nextX <? COLS) && (nextY >=? 0) && (nextY <? ROWS) then
    n <- cell (board gs) nextX nextY ;;
    if is_NONE (type n) then
      a <- cell (board gs) (x + directionX) (y + directionY) ;;
      Some (negb (same_player (player a) (currentPlayer gs))
            && negb (is_NONE (type a)))
    else Some false
  else Some false.

(** A loop that stops at the first value for which the test holds. *)
Fixpoint first_true {A : Type} (test : A → option bool) (l : list A)
  : option bool :=
  match l with
  | [] => Some false
  | a :: l' => r <- test a ;; if r then Some true else first_true test l'
  end.

(** The order in which the nested loops ([directionX] from -1 to 1 outside,
    [directionY] from 1 to -1 inside) visit the directions. *)
Definition lookahead_directions : list (Z * Z) :=
  [(-1, 1); (-1, -1); (1, 1); (1, -1)].

(** The block [if (isCapture) { ... }]; the result carries the final value
    of the local [isCapture]. *)
Definition capture_block (gs : GameState) (x y : Z)
  : option (GameState * bool) :=
  movingPiece <- cell (board gs) (selectedX gs) (selectedY gs) ;;
  st <- (if isKing movingPiece then
          let dx := if x >? selectedX gs then 1 else -1 in
          let dy := if y >? selectedY gs then 1 else -1 in
          let captureX := selectedX gs + dx in
          let captureY := selectedY gs + dy in
          r <- king_capture SCAN_FUEL x y dx dy captureX captureY gs ;;
          if negb (snd r) then Some (fst r, false)
          else
            additionalCapturePossible <-
              first_true (additional_capture_at (fst r) x y)
                         lookahead_directions ;;
            Some (fst r, additionalCapturePossible)
        else
          let capturedX := (selectedX gs + x) `quot` 2 in
          let capturedY := (selectedY gs + y) `quot` 2 in
          b <- update_cell (board gs) capturedX capturedY (set_type NONE) ;;
          gs <- add_score (set_board gs b) ;;
          Some (gs, true)) ;;
  Some (set_isCapturing (fst st) true, snd st).

(** The end of a turn, as [HandleInput] writes it out in both places:
    [pieceSelected = false; validMoveCount = 0; isCapturing = false;
    SwitchTurn(gameState);] *)
Definition end_turn (gs : GameState) : GameState :=
  SwitchTurn
    (set_isCapturing (set_validMoveCount (set_pieceSelected gs false) 0) false).

(** The rest of the branch, from [// Move the piece] on: the piece is
    copied to [(x, y)], its old cell is emptied, the promotion is tried and
    the turn ends or the chain goes on.  [(sx, sy)] is the cell the reference
    [movingPiece] was bound to, [isCapture] the local flag. *)
Definition finish_move (gs : GameState) (sx sy x y : Z) (isCapture : bool)
  : option GameState :=
  (* destinationPiece = movingPiece; movingPiece.type = NONE; *)
  movingPiece <- cell (board gs) sx sy ;;
  b <- update_cell (board gs) x y (λ _, movingPiece) ;;
  b <- update_cell b sx sy (set_type NONE) ;;
  let gs := set_board gs b in
  movingPiece <- cell (board gs) sx sy ;;
  let wasKing := isKing movingPiece in
  gs <- PromoteToKing gs x y ;;
  destinationPiece <- cell (board gs) x y ;;
  if negb wasKing && isKing destinationPiece then Some (end_turn gs)
  else
    gs <- FindValidMoves gs x y true ;;
    if isCapture && (validMoveCount gs >? 0) then
      Some (set_selected (set_pieceSelected gs true) x y)
    else Some (end_turn gs).

(** The branch of [HandleInput] that moves the selected piece to [(x, y)]. *)
Definition move_selected (gs : GameState) (x y : Z) : option GameState :=
  let sx := selectedX gs in
  let sy := selectedY gs in
  let isCapture := (Z.abs (sx - x) >? 1) && (Z.abs (sy - y) >? 1) in
  st <- (if isCapture then capture_block gs x y else Some (gs, false)) ;;
  finish_move (fst st) sx sy x y (snd st).

(** [pieceSelected = true; selectedX = x; selectedY = y;
    FindValidMoves(gameState, x, y, false);] *)
Definition select_piece (gs : GameState) (x y : Z) : option GameState :=
  FindValidMoves (set_selected (set_pieceSelected gs true) x y) x y false.

(** [board[y][x].type != NONE && board[y][x].player == currentPlayer] *)
Definition own_piece_at (gs : GameState) (x y : Z) : option bool :=
  c <- cell (board gs) x y ;;
  Some (negb (is_NONE (type c)) && same_player (player c) (currentPlayer gs)).

(** [HandleInput] when the left mouse button has been pressed over the cell
    [(x, y) = (mouseX / CELL_SIZE, mouseY / CELL_SIZE)]. *)
Definition HandleInput (gs : GameState) (x y : Z) : option GameState :=
  if negb (pieceSelected gs) then
    if negb (isCapturing gs) then
      if (x >=? 0) && (x <? COLS) && (y >=? 0) && (y <? ROWS) then
        own <- own_piece_at gs x y ;;
        if own then select_piece gs x y else Some gs
      else Some gs
    else Some gs
  else
    reselect <- (if negb (isCapturing gs) then own_piece_at gs x y
                else Some false) ;;
    if reselect then select_piece gs x y
    else
      valid <- IsValidMove gs (selectedX gs) (selectedY gs) x y ;;
      if valid then move_selected gs x y
      else if isCapturing gs then Some gs
      else Some (set_validMoveCount (set_pieceSelected gs false) 0).

(** ** CheckGameOver *)

(** Conjunction and disjunction as C++ evaluates them: the right operand is
    evaluated only when the left one does not decide the result. *)
Definition and_then (a b : option bool) : option bool :=
  r <- a ;; if r then b else Some false.

Definition or_else (a b : option bool) : option bool :=
  r <- a ;; if r then Some true else b.

Infix "&&&" := and_then (at level 40, left associativity).
Infix "|||" := or_else (at level 50, left associativity).

(** The one-sided range tests of [CheckGameOver]: [c + 1 < 8], [c + 2 < 8],
    [c - 1 >= 0], [c - 2 >= 0]. *)
Definition within (limit c d : Z) : option bool :=
  Some (if d >? 0 then c + d <? limit else c + d >=? 0).

(** [board[y + dy][x + dx].type == NONE] behind its range tests *)
Definition step_free (b : Board) (x y dx dy : Z) : option bool :=
  within ROWS y dy &&& within COLS x dx
  &&& (c <- cell b (x + dx) (y + dy) ;; Some (is_NONE (type c))).

(** [board[y + dy][x + dx].player == opponent &&
     board[y + 2 dy][x + 2 dx].type == NONE] behind its range tests *)
Definition jump_free (b : Board) (opponent : Player) (x y dx dy : Z)
  : option bool :=
  within ROWS y (2 * dy) &&& within COLS x (2 * dx)
  &&& (c <- cell b (x + dx) (y + dy) ;;
       Some (same_player (player c) opponent))
  &&& (c <- cell b (x + 2 * dx) (y + 2 * dy) ;; Some (is_NONE (type c))).

(** The tests made for one piece of [me] at [(x, y)]: the two forward moves,
    the two forward captures and, for a piece of type [KING], the four moves
    and the four captures.  [forward] is 1 for PLAYER1 and -1 for PLAYER2;
    the result is the value the [HasMoves] flag of [me] takes. *)
Definition forward (me : Player) : Z :=
  match me with PLAYER1 => 1 | PLAYER2 => -1 end.

Definition piece_has_moves (b : Board) (me : Player) (t : PieceType)
    (x y : Z) : option bool :=
  let f := forward me in
  let opponent := other me in
  m <- (step_free b x y 1 f ||| step_free b x y (-1) f) ;;
  c <- (jump_free b opponent x y 1 f ||| jump_free b opponent x y (-1) f) ;;
  if is_KING t then
    km <- (step_free b x y 1 1 ||| step_free b x y (-1) 1
           ||| step_free b x y 1 (-1) ||| step_free b x y (-1) (-1)) ;;
    kc <- (jump_free b opponent x y 1 1 ||| jump_free b opponent x y (-1) 1
           ||| jump_free b opponent x y 1 (-1)
           ||| jump_free b opponent x y (-1) (-1)) ;;
    Some (m || c || km || kc)
  else Some (m || c).

Record Tally := mkTally {
  player1Pieces : Z;
  player2Pieces : Z;
  player1HasMoves : bool;
  player2HasMoves : bool
}.

(** The body of the two nested loops over the board. *)
Definition tally_cell (b : Board) (y x : Z) (t : Tally) : option Tally :=
  c <- cell b x y ;;
  if negb (is_NONE (type c)) then
    match player c with
    | PLAYER1 =>
      let n := player1Pieces t + 1 in
      if negb (player1HasMoves t) then
        h <- piece_has_moves b PLAYER1 (type c) x y ;;
        Some (mkTally n (player2Pieces t) h (player2HasMoves t))
      else Some (mkTally n (player2Pieces t) (player1HasMoves t)
                   (player2HasMoves t))
    | PLAYER2 =>
      let n := player2Pieces t + 1 in
      if negb (player2HasMoves t) then
        h <- piece_has_moves b PLAYER2 (type c) x y ;;
        Some (mkTally (player1Pieces t) n (player1HasMoves t) h)
      else Some (mkTally (player1Pieces t) n (player1HasMoves t)
                   (player2HasMoves t))
    end
  else Some t.

Definition tally_board (b : Board) : option Tally :=
  for_each (λ y t, for_each (tally_cell b y) (seqZ 0 COLS) t)
           (seqZ 0 ROWS) (mkTally 0 0 false false).

(** The result of [CheckGameOver]: [return false], or [return true] with the
    value stored in [winner]. *)
Inductive Outcome := Ongoing | Win (winner : Player).

#[global] Instance Outcome_eq_dec : EqDecision Outcome.
Proof. solve_decision. Defined.

Definition CheckGameOver (gs : GameState) (playerToMove : Player)
  : option Outcome :=
  t <- tally_board (board gs) ;;
  if player1Pieces t =? 0 then Some (Win PLAYER2)
  else if player2Pieces t =? 0 then Some (Win PLAYER1)
  else if same_player playerToMove PLAYER1 && negb (player1HasMoves t)
  then Some (Win PLAYER2)
  else if same_player playerToMove PLAYER2 && negb (player2HasMoves t)
  then Some (Win PLAYER1)
  else Some Ongoing.

(** ** A game as a list of clicks *)

(** [HandleInput] for one click after the other, as the main loop calls it
    with the left mouse button pressed. *)
Fixpoint play (gs : GameState) (clicks : list (Z * Z)) : option GameState :=
  match clicks with
  | [] => Some gs
  | c :: clicks' => gs' <- HandleInput gs (fst c) (snd c) ;; play gs' clicks'
  end.

(** ** Well-formed states and derived notions *)

(** What the C++ types guarantee: the board is 8 by 8 and [validMoves] has
    [MAX_VALID_MOVES] entries. *)
Definition wf_board (b : Board) : Prop :=
  length b = 8%nat ∧ Forall (λ row, length row = 8%nat) b.

Definition wf_state (gs : GameState) : Prop :=
  wf_board (board gs) ∧ length (validMoves gs) = 12%nat.

(** The fields a call of [FindValidMoves] leaves alone. *)
Definition same_frame (gs gs' : GameState) : Prop :=
  board gs' = board gs ∧ currentPlayer gs' = currentPlayer gs
  ∧ player1Score gs' = player1Score gs ∧ player2Score gs' = player2Score gs
  ∧ pieceSelected gs' = pieceSelected gs ∧ selectedX gs' = selectedX gs
  ∧ selectedY gs' = selectedY gs ∧ isCapturing gs' = isCapturing gs.

(** The candidate array is in a usable state: the count is an index into it
    or its length. *)
Definition moves_ok (gs : GameState) : Prop :=
  length (validMoves gs) = 12%nat ∧ 0 ≤ validMoveCount gs ≤ 12.

(** The entries of the candidate array from the new count on are the old
    ones, and the count has not gone down. *)
Definition keeps_suffix (gs gs' : GameState) : Prop :=
  validMoveCount gs ≤ validMoveCount gs'
  ∧ drop (Z.to_nat (validMoveCount gs')) (validMoves gs')
    = drop (Z.to_nat (validMoveCount gs')) (validMoves gs).

(** ** The generator as a function to lists

    The cells [FindValidMoves] tries to append, in the order of the appends
    and without the capacity of the array.  [king_ray] follows [king_scan],
    [regular_ray] follows [regular_step]. *)

Fixpoint king_ray (fuel : nat) (b : Board) (piece : Piece)
    (isAfterCapture : bool) (dx dy newX newY : Z) (opponentPieceFound : bool)
  : list Position :=
  match fuel with
  | O => []
  | S fuel' =>
    let newX := newX + dx in
    let newY := newY + dy in
    match cell b newX newY with
    | None => []
    | Some c =>
      if is_NONE (type c) then
        if opponentPieceFound then [mkPosition newX newY]
        else if negb isAfterCapture then
          mkPosition newX newY
            :: king_ray fuel' b piece isAfterCapture dx dy newX newY false
        else king_ray fuel' b piece isAfterCapture dx dy newX newY false
      else if negb (same_player (player c) (player piece)) then
        if negb opponentPieceFound
        then king_ray fuel' b piece isAfterCapture dx dy newX newY true
        else []
      else []
    end
  end.

Definition regular_ray (b : Board) (piece : Piece) (isAfterCapture : bool)
    (x y : Z) (d : Z * Z) : list Position :=
  let newX := x + fst d in
  let newY := y + snd d in
  let captureX := x + 2 * fst d in
  let captureY := y + 2 * snd d in
  match cell b newX newY with
  | None => []
  | Some n =>
    (if is_NONE (type n) && negb isAfterCapture
     then [mkPosition newX newY] else [])
    ++ match cell b captureX captureY with
       | None => []
       | Some c =>
         if is_NONE (type c) && negb (is_NONE (type n))
            && negb (same_player (player n) (player piece))
         then [mkPosition captureX captureY] else []
       end
  end.

Definition moves_of (b : Board) (x y : Z) (isAfterCapture : bool)
  : list Position :=
  match cell b x y with
  | None => []
  | Some piece =>
    if isKing piece then
      concat (map (λ d, king_ray SCAN_FUEL b piece isAfterCapture
                          (fst d) (snd d) x y false) king_directions)
    else
      concat (map (regular_ray b piece isAfterCapture x y)
                  (regular_directions (player piece)))
  end.

(** The directions of the board are the four diagonals. *)
Definition dir_ok (d : Z) : Prop := d = 1 ∨ d = -1.

(** How many steps in direction [d] a coordinate [c] is away from leaving
    the board. *)
Definition steps_left (d c : Z) : Z := if d =? 1 then 8 - c else c + 1.

(** The cell [(x, y)] of [b] is on the board and empty; it holds a piece of
    the opponent of [me]. *)
Definition empty_at (b : Board) (x y : Z) : Prop :=
  ∃ c, cell b x y = Some c ∧ type c = NONE.

Definition opponent_at (b : Board) (me : Player) (x y : Z) : Prop :=
  ∃ c, cell b x y = Some c ∧ type c ≠ NONE ∧ player c ≠ me.

(** The row furthest from the side a player starts on. *)
Definition far_row (p : Player) : Z :=
  match p with PLAYER1 => ROWS - 1 | PLAYER2 => 0 end.

(** ** States used as examples *)

Definition empty_cell : Piece := mkPiece NONE PLAYER1 false.
Definition man1 : Piece := mkPiece REGULAR PLAYER1 false.
Definition man2 : Piece := mkPiece REGULAR PLAYER2 false.
Definition king1 : Piece := mkPiece KING PLAYER1 true.

Definition empty_row : list Piece := replicate 8 empty_cell.
Definition empty_board : Board := replicate 8 empty_row.
Definition no_moves : list Position := replicate 12 (mkPosition 0 0).

Definition place (b : Board) (x y : Z) (p : Piece) : Board :=
  default b (update_cell b x y (λ _, p)).

Definition state_of (b : Board) (p : Player) : GameState :=
  mkGameState b p 0 0 false (-1) (-1) no_moves 0 false.

(** A king of PLAYER1 in the corner with two men of PLAYER2 on its diagonal. *)
Definition diagonal_board : Board :=
  place (place (place empty_board 0 0 king1) 2 2 man2) 4 4 man2.

Definition diagonal_state : GameState := state_of diagonal_board PLAYER1.

(** A man of PLAYER1 at (2,2) that can jump the man of PLAYER2 at (3,3). *)
Definition jump_board : Board :=
  place (place empty_board 2 2 man1) 3 3 man2.

Definition jump_state : GameState := state_of jump_board PLAYER1.

(** Nothing on the board, PLAYER1 to move. *)
Definition empty_state : GameState := state_of empty_board PLAYER1.

(** ** Clicks that move the selected piece *)

(** The click on [(x, y)] takes the branch of [HandleInput] that moves the
    selected piece: a piece is selected, the click does not select another
    piece, and [(x, y)] is among the candidates. *)
Definition applies_move (gs : GameState) (x y : Z) : Prop :=
  pieceSelected gs = true
  ∧ (isCapturing gs = true ∨ own_piece_at gs x y = Some false)
  ∧ IsValidMove gs (selectedX gs) (selectedY gs) x y = Some true.

(** The fields that only the end of a turn or a new generation change. *)
Definition same_turn (gs gs' : GameState) : Prop :=
  currentPlayer gs' = currentPlayer gs
  ∧ pieceSelected gs' = pieceSelected gs
  ∧ selectedX gs' = selectedX gs ∧ selectedY gs' = selectedY gs
  ∧ validMoves gs' = validMoves gs
  ∧ validMoveCount gs' = validMoveCount gs.

(** [b'] is [b] with some cells emptied by [type = NONE], apart from the
    cell [(x, y)]. *)
Definition cleared_outside (x y : Z) (b b' : Board) : Prop :=
  ∀ cx cy, (cx, cy) ≠ (x, y) →
    cell b' cx cy = cell b cx cy
    ∨ cell b' cx cy = set_type NONE <$> cell b cx cy.

(** A man of PLAYER1 at (1,5) that jumps the man at (2,6) and lands on the
    far row, from where a king could jump the man at (4,6). *)
Definition promotion_board : Board :=
  place (place (place empty_board 1 5 man1) 2 6 man2) 4 6 man2.

Definition promotion_state : GameState :=
  default (state_of promotion_board PLAYER1)
          (HandleInput (state_of promotion_board PLAYER1) 1 5).

Definition promoted_state : GameState :=
  default promotion_state (HandleInput promotion_state 3 7).

(** ** Counting pieces and mobility *)

(** The cell holds a piece of [p]: [type != NONE && player == p], the test
    of the counting loops of [DrawBoard] and [CheckGameOver]. *)
Definition owned_by (b : Board) (p : Player) (x y : Z) : bool :=
  match cell b x y with
  | Some c => negb (is_NONE (type c)) && same_player (player c) p
  | None => false
  end.

Fixpoint sum_Z (f : Z → Z) (l : list Z) : Z :=
  match l with
  | [] => 0
  | a :: l' => f a + sum_Z f l'
  end.

(** The number of pieces of [p] on the board, counted like [player1Pieces]
    and [player2Pieces]: row by row, cell by cell. *)
Definition count_pieces (p : Player) (b : Board) : Z :=
  sum_Z (λ y, sum_Z (λ x, if owned_by b p x y then 1 else 0) (seqZ 0 COLS))
        (seqZ 0 ROWS).

Definition total_pieces (b : Board) : Z :=
  count_pieces PLAYER1 b + count_pieces PLAYER2 b.

(** The generator offers at least one candidate for the cell, on a fresh
    selection. *)
Definition has_candidates (gs : GameState) (x y : Z) : bool :=
  match FindValidMoves gs x y false with
  | Some gs' => validMoveCount gs' >? 0
  | None => false
  end.

(** Some piece of [p] has a candidate. *)
Definition can_move (gs : GameState) (p : Player) : bool :=
  existsb (λ y, existsb (λ x, owned_by (board gs) p x y
                              && has_candidates gs x y) (seqZ 0 COLS))
          (seqZ 0 ROWS).

(** The two records of the rank of a piece agree: a piece has its king flag
    set exactly when its type is KING. *)
Definition ranks_consistent (b : Board) : Prop :=
  Forall (Forall (λ c, type c ≠ NONE → isKing c = is_KING (type c))) b.

(** The cell is on the board and empty; the cell records [p] as owner. *)
Definition emptyb (b : Board) (x y : Z) : bool :=
  match cell b x y with
  | Some c => is_NONE (type c)
  | None => false
  end.

Definition recorded_owner (b : Board) (p : Player) (x y : Z) : bool :=
  match cell b x y with
  | Some c => same_player (player c) p
  | None => false
  end.

(** The direction [(dx, dy)] is open for a piece of [me] at [(x, y)]: the
    next cell is empty, or it is the opponent's and the cell behind it is
    empty. *)
Definition open_dir (b : Board) (me : Player) (x y dx dy : Z) : bool :=
  emptyb b (x + dx) (y + dy)
  || (recorded_owner b (other me) (x + dx) (y + dy)
      && emptyb b (x + 2 * dx) (y + 2 * dy)).

Definition nonempty {A : Type} (l : list A) : bool :=
  match l with [] => false | _ :: _ => true end.

(** The piece at the cell, if any, has somewhere to go. *)
Definition movable (b : Board) (x y : Z) : bool :=
  nonempty (moves_of b x y false).

(** A man of PLAYER1 at (0,5) that cannot move: one forward cell is off the
    board, the other holds a man of PLAYER2 with a second one behind it. *)
Definition blocked_board : Board :=
  place (place (place empty_board 0 5 man1) 1 6 man2) 2 7 man2.

Definition blocked_state : GameState := state_of blocked_board PLAYER1.

(** ** The geometry of a candidate *)

(** The cells at distance 1 to [n - 1] from [(sx, sy)] in direction
    [(dx, dy)] are empty. *)
Definition clear_run (b : Board) (sx sy dx dy n : Z) : Prop :=
  ∀ j, 1 ≤ j < n → empty_at b (sx + j * dx) (sy + j * dy).

(** The cell at distance [k] is reached by jumping one piece of the opponent
    of [me]: that piece is the cell before it, and the cells before the
    piece are empty. *)
Definition capture_reach (b : Board) (me : Player) (sx sy dx dy k : Z)
  : Prop :=
  2 ≤ k ∧ clear_run b sx sy dx dy (k - 1)
  ∧ opponent_at b me (sx + (k - 1) * dx) (sy + (k - 1) * dy).

(** The state holds a selection as [HandleInput] leaves it: a piece of the
    player to move is selected and the candidates are the ones the generator
    computes for it on the present board (in the mode of the chain flag), so
    that running the generator again changes nothing. *)
Definition consistent (gs : GameState) : Prop :=
  pieceSelected gs = true
  ∧ (∃ p, cell (board gs) (selectedX gs) (selectedY gs) = Some p
          ∧ type p ≠ NONE ∧ player p = currentPlayer gs)
  ∧ FindValidMoves gs (selectedX gs) (selectedY gs) (isCapturing gs)
    = Some gs.

(** The score of the player to move. *)
Definition mover_score (gs : GameState) : Z :=
  match currentPlayer gs with
  | PLAYER1 => player1Score gs
  | PLAYER2 => player2Score gs
  end.

(** [type != NONE && player == p] on a piece. *)
Definition is_owned (p : Player) (c : Piece) : bool :=
  negb (is_NONE (type c)) && same_player (player c) p.

Definition score_of (p : Player) (gs : GameState) : Z :=
  match p with
  | PLAYER1 => player1Score gs
  | PLAYER2 => player2Score gs
  end.

(** The turn is over: nothing selected, no candidates, no chain, and [p] is
    to move. *)
Definition turn_passed_to (p : Player) (gs : GameState) : Prop :=
  pieceSelected gs = false ∧ validMoveCount gs = 0
  ∧ isCapturing gs = false ∧ currentPlayer gs = p.

(** The chain goes on with the piece now at [(x, y)], for the player [p]. *)
Definition chain_continues_at (x y : Z) (p : Player) (gs : GameState) : Prop :=
  pieceSelected gs = true ∧ selectedX gs = x ∧ selectedY gs = y
  ∧ 0 < validMoveCount gs ∧ currentPlayer gs = p.

(** [jump_state] after the man at (2,2) has been selected. *)
Definition jump_selected : GameState :=
  default jump_state (HandleInput jump_state 2 2).

(** A man of PLAYER1 at (2,2) with two men of PLAYER2 to jump in a row, at
    (3,3) and (5,5); the state after the first jump, with the chain on. *)
Definition chain_board : Board :=
  place (place (place empty_board 2 2 man1) 3 3 man2) 5 5 man2.

Definition chain_state : GameState :=
  default (state_of chain_board PLAYER1)
    (gs <- HandleInput (state_of chain_board PLAYER1) 2 2 ;;
     HandleInput gs 4 4).

(** The two records of rank of one piece agree. *)
Definition rank_ok (c : Piece) : Prop :=
  type c ≠ NONE → isKing c = is_KING (type c).

(** What [HandleInput] keeps true from click to click: the sizes of the
    arrays, the agreement of the two records of rank, the selection, and
    that a score and the pieces left to the other side never add up to more
    than the 12 pieces a side starts with. *)
Definition invariant (gs : GameState) : Prop :=
  wf_state gs ∧ ranks_consistent (board gs)
  ∧ (pieceSelected gs = true → consistent gs)
  ∧ (∀ p, score_of p gs + count_pieces (other p) (board gs) ≤ 12).
(** ** The mouse *)

(** What raylib reports during one pass of the main loop: the position of
    the mouse in pixels, whether the left button and the keys the program
    asks for have been pressed, and whether the streams that [SaveGame] and
    [LoadGame] construct are open. *)
Record Frame := mkFrame {
  mouseX : Z;
  mouseY : Z;
  leftPressed : bool;
  keyS : bool;
  keyL : bool;
  keyQ : bool;
  keyR : bool;
  saveOpens : bool;
  loadOpens : bool
}.

(** [HandleInput] as a whole: [x = mouseX / CELL_SIZE; y = mouseY / CELL_SIZE]
    in the arithmetic of [int], where the division truncates, and the body
    under [if (IsMouseButtonPressed(MOUSE_LEFT_BUTTON))]. *)
Definition handle_mouse (gs : GameState) (f : Frame) : option GameState :=
  let x := mouseX f `quot` CELL_SIZE in
  let y := mouseY f `quot` CELL_SIZE in
  if leftPressed f then HandleInput gs x y else Some gs.

(** ** SaveGame, LoadGame

    The save file holds the bytes of a [GameState] object; [SaveGame] writes
    all of them and [LoadGame] reads as many back into the object, which
    restores the value written.  The file is [None] when it does not exist;
    a file that [SaveGame] has not written is not modelled. *)

Definition SaveGame (gs : GameState) (opens : bool) (file : option GameState)
  : option GameState :=
  if opens then Some gs else file.

Definition FileExists (file : option GameState) : bool :=
  match file with Some _ => true | None => false end.

Definition LoadGame (gs : GameState) (opens : bool) (file : option GameState)
  : GameState :=
  if FileExists file then
    match file with
    | Some saved => if opens then saved else gs
    | None => gs
    end
  else gs.

(** ** main *)

(** The variables of [main], with the save file.  [mainCurrentPlayer] is the
    local [currentPlayer] of [main], not the field of the game state. *)
Record Session := mkSession {
  gameState : GameState;
  gameOver : bool;
  winner : Z;
  mainCurrentPlayer : Player;
  saveFile : option GameState
}.

(** The values of the enumerators as [int]. *)
Definition int_of_player (p : Player) : Z :=
  match p with PLAYER1 => 0 | PLAYER2 => 1 end.

(** The result of a pass of the loop: the loop goes on, or [break]. *)
Inductive Run := Running (s : Session) | Quit (s : Session).

Definition session_of (r : Run) : Session :=
  match r with Running s => s | Quit s => s end.

(** The block [if (!gameOver) { ... }]. *)
Definition play_frame (s : Session) (f : Frame) : option Session :=
  gs <- handle_mouse (gameState s) f ;;
  let file := if keyS f then SaveGame gs (saveOpens f) (saveFile s)
              else saveFile s in
  let gs := if keyL f then
              if FileExists file then LoadGame gs (loadOpens f) file else gs
            else gs in
  o <- CheckGameOver gs (mainCurrentPlayer s) ;;
  match o with
  | Win w => Some (mkSession gs true (int_of_player w) (mainCurrentPlayer s) file)
  | Ongoing =>
    Some (mkSession gs false (winner s) (other (mainCurrentPlayer s)) file)
  end.

(** One pass of the loop [while (!WindowShouldClose())].  What is drawn
    does not enter the state and is left out here. *)
Definition frame (s : Session) (f : Frame) : option Run :=
  s <- (if negb (gameOver s) then play_frame s f else Some s) ;;
  if gameOver s then
    if keyQ f then Some (Quit s)
    else if keyR f then
      gs <- InitializeGame (gameState s) ;;
      Some (Running (mkSession gs false (-1) PLAYER1 (saveFile s)))
    else Some (Running s)
  else Some (Running s).

(** The passes of the loop for the frames given, up to a [break]. *)
Fixpoint frames (s : Session) (fs : list Frame) : option Run :=
  match fs with
  | [] => Some (Running s)
  | f :: fs' =>
    r <- frame s f ;;
    match r with
    | Running s' => frames s' fs'
    | Quit s' => Some (Quit s')
    end
  end.

(** [main] up to the loop, on the memory its local [gameState] occupies. *)
Definition main_start (memory : GameState) (file : option GameState)
  : option Session :=
  gs <- InitializeGame memory ;;
  Some (mkSession gs false (-1) PLAYER1 file).

(** ** DrawBoard *)

Definition QORKI_SIZE : Z := 20.
Definition INFO_PANEL_WIDTH : Z := 250.

(** [(Color){r, g, b, a}] and the colour constants of raylib in use. *)
Inductive Color :=
| RGBA (r g b a : Z)
| GREEN
| YELLOW
| DARKGRAY.

(** The calls of raylib that draw, in the order they are made. *)
Inductive Draw :=
| DrawRectangle (posX posY width height : Z) (color : Color)
| DrawCircle (centerX centerY radius : Z) (color : Color)
| DrawText (text : string) (posX posY fontSize : Z) (color : Color).

Definition lightSquareColor : Color := RGBA 255 255 204 255.
Definition darkSquareColor : Color := RGBA 0 51 0 255.

(** A loop whose passes draw. *)
Fixpoint draw_each {A : Type} (body : A → option (list Draw)) (l : list A)
  : option (list Draw) :=
  match l with
  | [] => Some []
  | a :: l' => d <- body a ;; ds <- draw_each body l' ;; Some (d ++ ds)
  end.

(** The loop [for (i = 0; i < validMoveCount && i < MAX_VALID_MOVES; i++)]
    from index [i], with [n] passes left. *)
Fixpoint highlight_from (vm : list Position) (i n : nat) (x y : Z)
  : option (list Draw) :=
  match n with
  | O => Some []
  | S n' =>
    move <- vm !! i ;;
    ds <- highlight_from vm (S i) n' x y ;;
    Some ((if (pos_x move =? x) && (pos_y move =? y)
           then [DrawRectangle (x * CELL_SIZE) (y * CELL_SIZE)
                   CELL_SIZE CELL_SIZE YELLOW]
           else []) ++ ds)
  end.

(** The body of the two loops over the board. *)
Definition draw_cell (gs : GameState) (y x : Z) : option (list Draw) :=
  let cellColor := if (x + y) `rem` 2 =? 0 then lightSquareColor
                   else darkSquareColor in
  let square :=
    [DrawRectangle (x * CELL_SIZE) (y * CELL_SIZE) CELL_SIZE CELL_SIZE
       cellColor] in
  let selection :=
    if pieceSelected gs && (selectedX gs =? x) && (selectedY gs =? y)
    then [DrawRectangle (x * CELL_SIZE) (y * CELL_SIZE) CELL_SIZE CELL_SIZE
            GREEN]
    else [] in
  moves <- (if pieceSelected gs then
              highlight_from (validMoves gs) 0
                (Z.to_nat (Z.min (validMoveCount gs) MAX_VALID_MOVES)) x y
            else Some []) ;;
  piece <- cell (board gs) x y ;;
  let pieces :=
    if negb (is_NONE (type piece)) then
      let pieceColor := if same_player (player piece) PLAYER1
                        then RGBA 200 0 0 255 else RGBA 0 0 255 255 in
      DrawCircle (x * CELL_SIZE + CELL_SIZE `quot` 2)
        (y * CELL_SIZE + CELL_SIZE `quot` 2) (CELL_SIZE `quot` 2 - 10)
        pieceColor
      :: (if isKing piece
          then [DrawCircle (x * CELL_SIZE + CELL_SIZE `quot` 2)
                  (y * CELL_SIZE + CELL_SIZE `quot` 2) QORKI_SIZE
                  (RGBA 255 215 0 255)]
          else [])
    else [] in
  Some (square ++ selection ++ moves ++ pieces).

(** The panel beside the board.  The two counting loops are
    [count_pieces]. *)
Definition draw_panel (gs : GameState) : list Draw :=
  let infoPanelX := BOARD_WIDTH in
  let panelColor := lightSquareColor in
  let titleColor := darkSquareColor in
  let playerTextColor := RGBA 0 0 0 255 in
  let scoreTextColor := RGBA 0 100 0 255 in
  let turnIndicatorColor :=
    if same_player (currentPlayer gs) PLAYER1
    then RGBA 200 0 0 255 else RGBA 0 0 255 255 in
  let player1Pieces := count_pieces PLAYER1 (board gs) in
  let player2Pieces := count_pieces PLAYER2 (board gs) in
  [ DrawRectangle infoPanelX 0 INFO_PANEL_WIDTH BOARD_HEIGHT panelColor;
    DrawText "SCOREBOARD" (infoPanelX + 15) 10 30 titleColor;
    DrawText "Player1" (infoPanelX + 15) 50 22 playerTextColor;
    DrawText ("Score: " +:+ pretty (player1Score gs))
      (infoPanelX + 15) 80 22 scoreTextColor;
    DrawText ("Pieces: " +:+ pretty player1Pieces)
      (infoPanelX + 15) 110 22 scoreTextColor;
    DrawText "Player2" (infoPanelX + 15) 150 22 playerTextColor;
    DrawText ("Score: " +:+ pretty (player2Score gs))
      (infoPanelX + 15) 180 22 scoreTextColor;
    DrawText ("Pieces: " +:+ pretty player2Pieces)
      (infoPanelX + 15) 210 22 scoreTextColor;
    DrawText "Turn: " (infoPanelX + 15) 250 22 playerTextColor;
    DrawRectangle (infoPanelX + 90) 250 20 20 turnIndicatorColor;
    DrawText "To Save Press 'S'" (infoPanelX + 15) 280 22 DARKGRAY;
    DrawText "To Load Press 'L'" (infoPanelX + 15) 310 22 DARKGRAY ].

Definition DrawBoard (gs : GameState) : option (list Draw) :=
  cells <- draw_each (λ y, draw_each (draw_cell gs y) (seqZ 0 COLS))
             (seqZ 0 ROWS) ;;
  Some (cells ++ draw_panel gs).
(** ** The states of a game *)

(** [g] is the state of a game that [InitializeGame] has started on the
    memory contents [gs0] and that has taken the clicks [clicks]. *)
Definition reached (gs0 : GameState) (clicks : list (Z * Z)) (g : GameState)
  : Prop :=
  wf_state gs0 ∧ (g0 <- InitializeGame gs0 ;; play g0 clicks) = Some g.

(** The fields of the game proper, which a click that only selects or
    deselects leaves alone. *)
Definition same_game (gs gs' : GameState) : Prop :=
  board gs' = board gs ∧ currentPlayer gs' = currentPlayer gs
  ∧ player1Score gs' = player1Score gs ∧ player2Score gs' = player2Score gs
  ∧ isCapturing gs' = isCapturing gs.

(** [(x + y) % 2 != 0], the test of [InitializeGame] for a cell that takes a
    piece. *)
Definition dark (x y : Z) : bool := negb ((x + y) `rem` 2 =? 0).

(** The start of a game, on memory that holds nothing but empty cells. *)
Definition start_state : GameState :=
  default empty_state (InitializeGame empty_state).

(** A few clicks: the man at (1,2) steps to (2,3), the man at (4,5) steps to
    (3,4) and is taken by the man at (2,3). *)
Definition opening : list (Z * Z) :=
  [(1, 2); (2, 3); (4, 5); (3, 4); (2, 3); (4, 5)].

Definition opening_state : GameState :=
  default start_state (play start_state opening).

(** All pieces stand on dark cells. *)
Definition on_dark_squares (b : Board) : Prop :=
  ∀ x y c, cell b x y = Some c → type c ≠ NONE → dark x y = true.

(** A game in which a man of PLAYER2 reaches the row 0, on (3,0), with its
    last click. *)
Definition crowning : list (Z * Z) :=
  [(5, 2); (4, 3); (4, 5); (3, 4); (3, 2); (2, 3); (3, 4); (5, 2);
   (2, 1); (3, 2); (6, 5); (7, 4); (3, 0); (2, 1); (5, 2); (3, 0)].

Definition crowned_state : GameState :=
  default start_state (play start_state crowning).

(** The start of a game with the man at (1,2) selected. *)
Definition selected_state : GameState :=
  default start_state (play start_state [(1, 2)]).

(** ** The cells a king can go to *)

(** [pos] is an empty cell on a diagonal through [(sx, sy)], behind empty
    cells only (a simple move, on a fresh selection) or behind empty cells
    and one piece of the opponent of [me] right before it (a capture). *)
Definition king_reaches (b : Board) (me : Player) (after : bool)
    (sx sy : Z) (pos : Position) : Prop :=
  ∃ dx dy k, dir_ok dx ∧ dir_ok dy ∧ 1 ≤ k
    ∧ pos = mkPosition (sx + k * dx) (sy + k * dy)
    ∧ empty_at b (sx + k * dx) (sy + k * dy)
    ∧ ((after = false ∧ clear_run b sx sy dx dy k)
       ∨ capture_reach b me sx sy dx dy k).

(** The number of cells of the board from [(x, y)] on in the direction
    [(dx, dy)], at most [fuel]. *)
Fixpoint room (fuel : nat) (x y dx dy : Z) : nat :=
  match fuel with
  | O => O
  | S fuel' =>
    if in_bounds (x + dx) (y + dy)
    then S (room fuel' (x + dx) (y + dy) dx dy)
    else O
  end.

(** A king of PLAYER1 alone on the board, at (3,4). *)
Definition lone_king_state : GameState :=
  state_of (place empty_board 3 4 king1) PLAYER1.

(** ** The chain of a king *)

(** Next to [(x, y)], on a diagonal, stands a piece of the opponent of [me]
    with an empty cell right behind it. *)
Definition adjacent_jump (b : Board) (me : Player) (x y : Z) : Prop :=
  ∃ dx dy, dir_ok dx ∧ dir_ok dy
    ∧ opponent_at b me (x + dx) (y + dy)
    ∧ empty_at b (x + 2 * dx) (y + 2 * dy).

(** A king of PLAYER1 at (1,0), selected, that can take the man at (2,1) and
    land on (3,2); from there the man at (6,5) can be taken, but it is not
    next to (3,2). *)
Definition far_prey_state : GameState :=
  default empty_state
    (HandleInput
       (state_of (place (place (place empty_board 1 0 king1) 2 1 man2)
                    6 5 man2) PLAYER1) 1 0).

Definition far_prey_taken : GameState :=
  default far_prey_state (HandleInput far_prey_state 3 2).

(** ** The main loop *)

(** A frame in which nothing is pressed. *)
Definition idle : Frame :=
  mkFrame 0 0 false false false false false false false.

(** A click of the left button at a pixel, and nothing else. *)
Definition click_at (mx my : Z) : Frame :=
  mkFrame mx my true false false false false false false.


(** The position of [blocked_board] with PLAYER2 to move, in the main loop. *)
Definition blocked_session : Session :=
  mkSession (state_of blocked_board PLAYER2) false (-1) PLAYER2 None.

(** The session at the start of [main], without a save file. *)
Definition start_session : Session :=
  default (mkSession start_state false (-1) PLAYER1 None)
          (main_start empty_state None).

(** A click in the middle of a cell. *)
Definition click_frame (c : Z * Z) : Frame :=
  click_at (c.1 * CELL_SIZE + 37) (c.2 * CELL_SIZE + 37).

(** A game from the start position that ends in the middle of a chain: with
    the last click the man of PLAYER1 at (7,2) takes the man at (6,3) and
    lands on (5,4), from where it can take the man at (6,5); none of the nine
    pieces PLAYER2 has left can move. *)
Definition chain_end_clicks : list (Z * Z) :=
  [(1, 2); (0, 3); (4, 5); (3, 4); (2, 1); (1, 2); (3, 6); (4, 5);
   (7, 2); (6, 3); (2, 5); (1, 4); (3, 2); (2, 3); (4, 5); (5, 4);
   (5, 2); (4, 3); (6, 5); (7, 4); (6, 3); (4, 5); (7, 6); (6, 5);
   (1, 0); (2, 1); (7, 4); (6, 3); (4, 1); (5, 2); (4, 7); (3, 6);
   (3, 0); (4, 1); (1, 6); (2, 5); (2, 1); (3, 2); (0, 7); (1, 6);
   (5, 2); (7, 4); (6, 7); (7, 6); (4, 1); (5, 2); (6, 5); (5, 4);
   (6, 1); (7, 2); (7, 6); (6, 5); (7, 0); (6, 1); (5, 4); (6, 3);
   (7, 2); (5, 4)].

Definition chain_end_session : Session :=
  session_of (default (Running start_session)
                (frames start_session (map click_frame chain_end_clicks))).

(** The same game played one pass of the loop later: after its last click
    the game is not yet over. *)
Definition chain_end_pending : Session :=
  session_of (default (Running start_session)
                (frames start_session
                   (idle :: map click_frame chain_end_clicks))).

(** A click on the man at (1,2) with [S] pressed; a load. *)
Definition save_frame : Frame :=
  mkFrame 100 160 true true false false false true false.


Definition saved_session : Session :=
  session_of (default (Running start_session)
                (frame start_session save_frame)).

(** After the save the man steps to (2,3). *)
Definition moved_session : Session :=
  session_of (default (Running saved_session)
                (frames saved_session [click_at 175 250])).

(** ** What is drawn *)

(** The yellow square that [DrawBoard] puts on the cell of a candidate. *)
Definition highlight (x y : Z) : Draw :=
  DrawRectangle (x * CELL_SIZE) (y * CELL_SIZE) CELL_SIZE CELL_SIZE YELLOW.

Definition is_yellow (d : Draw) : bool :=
  match d with
  | DrawRectangle _ _ _ _ YELLOW => true
  | _ => false
  end.

(** The state after the man at (1,2) has stepped to (2,3). *)
Definition stepped_state : GameState :=
  default selected_state (HandleInput selected_state 2 3).

(** A state whose count of candidates is beyond the end of the array. *)
Definition overcounted_state : GameState :=
  set_validMoveCount (set_pieceSelected start_state true) 13.

(** ** The chain of a man *)

(** Next to [(x, y)], on a forward diagonal of [me], stands a piece of the
    opponent with an empty cell right behind it. *)
Definition forward_jump (b : Board) (me : Player) (x y : Z) : Prop :=
  ∃ dx, dir_ok dx
    ∧ opponent_at b me (x + dx) (y + forward me)
    ∧ empty_at b (x + 2 * dx) (y + 2 * forward me).

(** The man at (2,2) of [chain_board] selected, before its first jump. *)
Definition chain_selected : GameState :=
  default empty_state (HandleInput (state_of chain_board PLAYER1) 2 2).
(** * Properties *)

(** ** The board array *)

#[local] Arguments cell : simpl never.
#[local] Arguments update_cell : simpl never.

Lemma in_bounds_spec x y :
  in_bounds x y = true ↔ 0 ≤ x < 8 ∧ 0 ≤ y < 8.
Proof. unfold in_bounds, COLS, ROWS. lia. Qed.

Lemma in_bounds_false x y :
  in_bounds x y = false ↔ ¬ (0 ≤ x < 8 ∧ 0 ≤ y < 8).
Proof. rewrite <- in_bounds_spec. destruct (in_bounds x y); naive_solver. Qed.

Lemma cell_in_bounds b x y c : cell b x y = Some c → in_bounds x y = true.
Proof. unfold cell. by destruct (in_bounds x y). Qed.

Lemma cell_out b x y : in_bounds x y = false → cell b x y = None.
Proof. unfold cell. by intros ->. Qed.

Lemma cell_is_Some b x y :
  wf_board b → in_bounds x y = true → ∃ c, cell b x y = Some c.
Proof.
  intros [Hlen Hrows] Hin. unfold cell. rewrite Hin.
  apply in_bounds_spec in Hin.
  destruct (lookup_lt_is_Some_2 b (Z.to_nat y)) as [row Hrow]; [lia|].
  rewrite Hrow. simpl.
  assert (length row = 8%nat) as Hr.
  { eapply (proj1 (Forall_lookup _ _) Hrows); eauto. }
  destruct (lookup_lt_is_Some_2 row (Z.to_nat x)) as [c Hc]; [lia|].
  eauto.
Qed.

Lemma update_cell_in_bounds b x y f b' :
  update_cell b x y f = Some b' → in_bounds x y = true.
Proof. unfold update_cell. by destruct (in_bounds x y). Qed.

Lemma update_cell_is_Some b x y f :
  in_bounds x y = true → ∃ b', update_cell b x y f = Some b'.
Proof. unfold update_cell. intros ->. eauto. Qed.

Lemma cell_update_eq b x y f b' :
  update_cell b x y f = Some b' → cell b' x y = f <$> cell b x y.
Proof.
  unfold update_cell, cell. destruct (in_bounds x y); [|done].
  intros [= <-]. rewrite list_lookup_alter_eq.
  destruct (b !! Z.to_nat y) as [row|]; simpl; [|done].
  by rewrite list_lookup_alter_eq.
Qed.

Lemma cell_update_ne b x y f b' x' y' :
  update_cell b x y f = Some b' → (x', y') ≠ (x, y) →
  cell b' x' y' = cell b x' y'.
Proof.
  unfold update_cell, cell.
  destruct (in_bounds x y) eqn:Hin; [|done].
  intros [= <-] Hne.
  destruct (in_bounds x' y') eqn:Hin'; [|done].
  apply in_bounds_spec in Hin, Hin'.
  destruct (decide (y' = y)) as [->|Hy].
  - rewrite list_lookup_alter_eq.
    destruct (b !! Z.to_nat y) as [row|]; simpl; [|done].
    rewrite list_lookup_alter_ne; [done|].
    intros Heq. apply Hne. f_equal. lia.
  - rewrite list_lookup_alter_ne; [done|]. lia.
Qed.

Lemma wf_board_update b x y f b' :
  wf_board b → update_cell b x y f = Some b' → wf_board b'.
Proof.
  intros [Hlen Hrows]. unfold update_cell.
  destruct (in_bounds x y); [|done]. intros [= <-]. split.
  - by rewrite length_alter.
  - apply Forall_alter; [done|]. intros row _ Hrow.
    rewrite <- Hrow. apply length_alter.
Qed.

(** ** The candidate array *)

Lemma take_take_app {A} (n : nat) (l k : list A) :
  take n (take n l ++ k) = take n (l ++ k).
Proof.
  destruct (decide (length l ≤ n)%nat) as [Hle|Hgt].
  - by rewrite (take_ge l n).
  - rewrite (take_app_le l k n) by lia.
    rewrite take_app_le; [|rewrite length_take; lia].
    rewrite take_take. f_equal. lia.
Qed.

Lemma add_move_spec gs x y :
  moves_ok gs →
  ∃ gs', add_move gs x y = Some gs' ∧ same_frame gs gs' ∧ moves_ok gs'
    ∧ validMoveCount gs ≤ validMoveCount gs'
    ∧ (validMoveCount gs < 12 → validMoveCount gs' = validMoveCount gs + 1)
    ∧ candidates gs' = take 12 (candidates gs ++ [mkPosition x y]).
Proof.
  intros [Hlen Hcnt]. unfold add_move, MAX_VALID_MOVES.
  destruct (validMoveCount gs <? 12) eqn:Hlt.
  - unfold write_move, MAX_VALID_MOVES.
    rewrite Hlen, (proj2 (Z.leb_le 0 _)), Hlt by lia.
    apply Z.ltb_lt in Hlt.
    rewrite (proj2 (Z.ltb_lt _ (Z.of_nat 12))) by lia.
    simpl. eexists. split; [done|].
    split; [by repeat split|].
    split; [split; simpl; [by rewrite length_insert | lia]|].
    split; [simpl; lia|]. split; [simpl; lia|].
    unfold candidates. simpl.
    replace (Z.to_nat (validMoveCount gs + 1))
      with (S (Z.to_nat (validMoveCount gs))) by lia.
    rewrite (take_S_r _ _ (mkPosition x y))
      by (apply list_lookup_insert_eq; lia).
    rewrite take_insert_ge by lia.
    rewrite (take_ge _ 12); [done|].
    rewrite length_app, length_take. simpl. lia.
  - apply Z.ltb_ge in Hlt. eexists. split; [done|].
    split; [by repeat split|]. split; [done|]. split; [lia|]. split; [lia|].
    unfold candidates.
    replace (Z.to_nat (validMoveCount gs)) with 12%nat by lia.
    rewrite <- Hlen, firstn_all. by rewrite take_app_length.
Qed.

Lemma same_frame_refl gs : same_frame gs gs.
Proof. by repeat split. Qed.

Lemma same_frame_trans gs1 gs2 gs3 :
  same_frame gs1 gs2 → same_frame gs2 gs3 → same_frame gs1 gs3.
Proof. unfold same_frame. intros ? ?. destruct_and!. repeat split; congruence. Qed.

Lemma candidates_take gs : moves_ok gs → take 12 (candidates gs) = candidates gs.
Proof.
  intros [Hlen Hcnt]. apply take_ge. unfold candidates.
  rewrite length_take. lia.
Qed.

Lemma out_of_bounds_test x y :
  (x <? 0) || (x >=? COLS) || (y <? 0) || (y >=? ROWS) = negb (in_bounds x y).
Proof. unfold in_bounds, COLS, ROWS. lia. Qed.

(** ** The scan of a king in one direction *)

Lemma king_scan_spec piece after dx dy :
  dir_ok dx → dir_ok dy →
  ∀ fuel nx ny found st,
  wf_board (board (fst st)) → moves_ok (fst st) →
  in_bounds nx ny = true → steps_left dx nx ≤ Z.of_nat fuel →
  ∃ st', king_scan fuel piece after dx dy nx ny found st = Some st'
    ∧ same_frame (fst st) (fst st') ∧ moves_ok (fst st')
    ∧ validMoveCount (fst st) ≤ validMoveCount (fst st')
    ∧ candidates (fst st')
      = take 12 (candidates (fst st)
                 ++ king_ray fuel (board (fst st)) piece after dx dy nx ny found)
    ∧ ((after = true → snd st = false → validMoveCount (fst st) = 0) →
       (after = true → snd st' = false → validMoveCount (fst st') = 0)).
Proof.
  intros Hdx Hdy fuel.
  induction fuel as [|fuel IH]; intros nx ny found [gs flag] Hwf Hok Hin Hfuel;
    simpl in *.
  { apply in_bounds_spec in Hin. unfold steps_left in Hfuel.
    destruct Hdx as [-> | ->]; simpl in Hfuel; lia. }
  rewrite out_of_bounds_test.
  destruct (in_bounds (nx + dx) (ny + dy)) eqn:Hin'; simpl.
  2:{ rewrite (cell_out _ _ _ Hin'). eexists. split; [done|].
      rewrite app_nil_r, candidates_take by done.
      split; [apply same_frame_refl|]. split; [done|]. simpl.
      split; [lia|]. done. }
  destruct (cell_is_Some _ _ _ Hwf Hin') as [c Hc]. rewrite Hc. simpl.
  assert (steps_left dx (nx + dx) ≤ Z.of_nat fuel) as Hfuel'.
  { apply in_bounds_spec in Hin, Hin'. unfold steps_left in *.
    destruct Hdx as [-> | ->]; simpl in *; lia. }
  destruct (is_NONE (type c)).
  - destruct found.
    + destruct (add_move_spec gs (nx + dx) (ny + dy) Hok)
        as (gs' & -> & Hfr & Hok' & Hmono & Hgrow & Hcands).
      simpl. eexists. split; [done|]. simpl.
      split; [done|]. split; [done|]. split; [done|]. split; [done|].
      intros Hinv Hafter. unfold MAX_VALID_MOVES.
      destruct (validMoveCount gs <? 12) eqn:Hlt; [done|].
      intros ->. specialize (Hinv Hafter eq_refl). apply Z.ltb_ge in Hlt. lia.
    + destruct after; simpl.
      * destruct (IH (nx + dx) (ny + dy) false (gs, flag))
          as (st' & -> & ?); eauto.
      * destruct (add_move_spec gs (nx + dx) (ny + dy) Hok)
          as (gs' & -> & Hfr & Hok' & Hmono & Hgrow & Hcands).
        simpl. destruct Hfr as [Hb Hfr'].
        destruct (IH (nx + dx) (ny + dy) false (gs', flag))
          as (st' & -> & Hfr2 & Hok2 & Hmono2 & Hcands2 & Hinv2);
          simpl; [by rewrite Hb|done|done|done|].
        simpl in *. eexists. split; [done|].
        split; [eapply same_frame_trans; [split; eauto|done]|].
        split; [done|]. split; [lia|]. split; [|done].
        rewrite Hcands2, Hcands, Hb, take_take_app.
        by rewrite <- app_assoc.
  - destruct (same_player (player c) (player piece)); simpl.
    + eexists. split; [done|]. rewrite app_nil_r, candidates_take by done.
      split; [apply same_frame_refl|]. split; [done|]. simpl.
      split; [lia|]. done.
    + destruct found; simpl.
      * eexists. split; [done|]. rewrite app_nil_r, candidates_take by done.
        split; [apply same_frame_refl|]. split; [done|]. simpl.
      split; [lia|]. done.
      * destruct (IH (nx + dx) (ny + dy) true (gs, flag))
          as (st' & -> & ?); eauto.
Qed.

Lemma king_scans_spec piece after x y :
  in_bounds x y = true →
  ∀ dirs st,
  Forall (λ d, dir_ok (fst d) ∧ dir_ok (snd d)) dirs →
  wf_board (board (fst st)) → moves_ok (fst st) →
  ∃ st', for_each (λ d st, king_scan SCAN_FUEL piece after (fst d) (snd d)
                             x y false st) dirs st = Some st'
    ∧ same_frame (fst st) (fst st') ∧ moves_ok (fst st')
    ∧ candidates (fst st')
      = take 12 (candidates (fst st)
                 ++ concat (map (λ d, king_ray SCAN_FUEL (board (fst st)) piece
                                        after (fst d) (snd d) x y false) dirs))
    ∧ ((after = true → snd st = false → validMoveCount (fst st) = 0) →
       (after = true → snd st' = false → validMoveCount (fst st') = 0)).
Proof.
  intros Hin dirs.
  induction dirs as [|d dirs IH]; intros st Hdirs Hwf Hok;
    cbn [for_each map concat].
  - eexists. split; [done|]. rewrite app_nil_r, candidates_take by done.
    split; [apply same_frame_refl|]. done.
  - apply Forall_cons in Hdirs as [[Hdx Hdy] Hdirs].
    destruct (king_scan_spec piece after (fst d) (snd d) Hdx Hdy
                SCAN_FUEL x y false st Hwf Hok Hin)
      as (st1 & -> & Hfr1 & Hok1 & _ & Hc1 & Hinv1).
    { apply in_bounds_spec in Hin. unfold steps_left, SCAN_FUEL.
      destruct (fst d =? 1); lia. }
    cbn [bind]. pose proof Hfr1 as [Hb1 _].
    destruct (IH st1 Hdirs) as (st2 & -> & Hfr2 & Hok2 & Hc2 & Hinv2);
      [by rewrite Hb1|done|].
    eexists. split; [done|].
    split; [by eapply same_frame_trans|]. split; [done|].
    split; [|by auto].
    rewrite Hc2, Hc1, Hb1, take_take_app. by rewrite <- app_assoc.
Qed.

(** ** The two directions of a regular piece *)

Lemma regular_step_spec piece after x y d gs :
  wf_board (board gs) → moves_ok gs →
  ∃ gs', regular_step piece after x y d gs = Some gs'
    ∧ same_frame gs gs' ∧ moves_ok gs'
    ∧ candidates gs'
      = take 12 (candidates gs ++ regular_ray (board gs) piece after x y d).
Proof.
  intros Hwf Hok. unfold regular_step, regular_ray.
  destruct (in_bounds (x + fst d) (y + snd d)) eqn:Hin.
  2:{ rewrite (cell_out _ _ _ Hin). eexists. split; [done|].
      rewrite app_nil_r, candidates_take by done.
      split; [apply same_frame_refl|]. done. }
  destruct (cell_is_Some _ _ _ Hwf Hin) as [n Hn]. rewrite Hn. simpl.
  assert (∃ gs1, (if is_NONE (type n) && negb after
                  then add_move gs (x + fst d) (y + snd d) else Some gs)
                 = Some gs1
            ∧ same_frame gs gs1 ∧ moves_ok gs1
            ∧ candidates gs1
              = take 12 (candidates gs
                         ++ (if is_NONE (type n) && negb after
                             then [mkPosition (x + fst d) (y + snd d)]
                             else []))) as (gs1 & -> & Hfr1 & Hok1 & Hc1).
  { destruct (is_NONE (type n) && negb after).
    - destruct (add_move_spec gs (x + fst d) (y + snd d) Hok)
        as (gs1 & ? & ? & ? & _ & _ & ?). eauto.
    - eexists. split; [done|]. rewrite app_nil_r, candidates_take by done.
      split; [apply same_frame_refl|]. done. }
  simpl. pose proof Hfr1 as [Hb1 _]. rewrite Hb1.
  destruct (in_bounds (x + 2 * fst d) (y + 2 * snd d)) eqn:Hin2.
  2:{ rewrite (cell_out _ _ _ Hin2). eexists. split; [done|].
      split; [done|]. split; [done|]. by rewrite app_nil_r. }
  destruct (cell_is_Some _ _ _ Hwf Hin2) as [c Hc]. rewrite Hc. simpl.
  destruct (is_NONE (type c) && negb (is_NONE (type n))
            && negb (same_player (player n) (player piece))).
  - destruct (add_move_spec gs1 (x + 2 * fst d) (y + 2 * snd d) Hok1)
      as (gs2 & -> & Hfr2 & Hok2 & _ & _ & Hc2).
    eexists. split; [done|]. split; [by eapply same_frame_trans|].
    split; [done|]. rewrite Hc2, Hc1, take_take_app. by rewrite <- app_assoc.
  - eexists. split; [done|]. split; [done|]. split; [done|].
    by rewrite app_nil_r.
Qed.

Lemma regular_steps_spec piece after x y :
  ∀ dirs gs,
  wf_board (board gs) → moves_ok gs →
  ∃ gs', for_each (regular_step piece after x y) dirs gs = Some gs'
    ∧ same_frame gs gs' ∧ moves_ok gs'
    ∧ candidates gs'
      = take 12 (candidates gs
                 ++ concat (map (regular_ray (board gs) piece after x y) dirs)).
Proof.
  intros dirs. induction dirs as [|d dirs IH]; intros gs Hwf Hok; simpl.
  - eexists. split; [done|]. rewrite app_nil_r, candidates_take by done.
    split; [apply same_frame_refl|]. done.
  - destruct (regular_step_spec piece after x y d gs Hwf Hok)
      as (gs1 & -> & Hfr1 & Hok1 & Hc1).
    simpl. pose proof Hfr1 as [Hb1 _].
    destruct (IH gs1) as (gs2 & -> & Hfr2 & Hok2 & Hc2);
      [by rewrite Hb1|done|].
    eexists. split; [done|]. split; [by eapply same_frame_trans|].
    split; [done|].
    rewrite Hc2, Hc1, Hb1, take_take_app. by rewrite <- app_assoc.
Qed.

(** ** FindValidMoves *)

Lemma king_directions_ok :
  Forall (λ d : Z * Z, dir_ok (fst d) ∧ dir_ok (snd d)) king_directions.
Proof.
  unfold king_directions, dir_ok.
  repeat (apply Forall_cons; split; [simpl; auto|]). apply Forall_nil_2.
Qed.

Lemma FindValidMoves_spec gs x y after :
  wf_state gs → in_bounds x y = true →
  ∃ gs', FindValidMoves gs x y after = Some gs'
    ∧ same_frame gs gs' ∧ moves_ok gs'
    ∧ candidates gs' = take 12 (moves_of (board gs) x y after).
Proof.
  intros [Hwf Hlen] Hin. unfold FindValidMoves, moves_of.
  set (gs0 := set_validMoveCount gs 0).
  change (board gs0) with (board gs).
  destruct (cell_is_Some _ _ _ Hwf Hin) as [piece Hp]. rewrite Hp.
  cbn [bind].
  assert (moves_ok gs0) as Hok0 by (split; simpl; [done|lia]).
  assert (same_frame gs gs0) as Hfr0 by (by repeat split).
  assert (candidates gs0 = []) as Hc0 by done.
  destruct (isKing piece).
  - destruct (king_scans_spec piece after x y Hin king_directions (gs0, false)
                king_directions_ok Hwf Hok0)
      as (st & -> & Hfr & Hok & Hc & Hinv).
    cbn [bind fst snd] in *. rewrite Hc0 in Hc. cbn [app] in Hc.
    change (board gs0) with (board gs) in Hc.
    destruct (after && negb (snd st)) eqn:Hreset.
    + apply andb_true_iff in Hreset as [-> Hflag].
      apply negb_true_iff in Hflag.
      specialize (Hinv (λ _ _, eq_refl) eq_refl Hflag).
      eexists. split; [done|].
      split; [eapply same_frame_trans; [done|]; by repeat split|].
      split; [split; simpl; [apply Hok|lia]|].
      rewrite <- Hc. unfold candidates. simpl. by rewrite Hinv.
    + eexists. split; [done|]. by split.
  - destruct (regular_steps_spec piece after x y
                (regular_directions (player piece)) gs0 Hwf Hok0)
      as (gs' & -> & Hfr & Hok & Hc).
    rewrite Hc0 in Hc. eexists. split; [done|]. by split.
Qed.

Lemma is_NONE_true t : is_NONE t = true ↔ t = NONE.
Proof. by destruct t. Qed.

Lemma is_NONE_false t : is_NONE t = false ↔ t ≠ NONE.
Proof. by destruct t. Qed.

Lemma same_player_true p q : same_player p q = true ↔ p = q.
Proof. by destruct p, q. Qed.

Lemma same_player_false p q : same_player p q = false ↔ p ≠ q.
Proof. by destruct p, q. Qed.

Lemma wf_state_of b p : wf_board b → wf_state (state_of b p).
Proof. by split. Qed.

Lemma wf_empty_board : wf_board empty_board.
Proof. split; [done|]. unfold empty_board. by apply Forall_replicate. Qed.

Lemma wf_place b x y p : wf_board b → wf_board (place b x y p).
Proof.
  intros Hwf. unfold place.
  destruct (update_cell b x y (λ _, p)) as [b'|] eqn:Hup; [|done].
  by eapply wf_board_update.
Qed.

Lemma wf_diagonal_state : wf_state diagonal_state.
Proof. apply wf_state_of. repeat apply wf_place. apply wf_empty_board. Qed.

(** Evaluate the sums of numerals that unfolding a scan leaves behind. *)
Ltac is_numeral a :=
  lazymatch a with
  | Z0 => idtac
  | Zpos _ => idtac
  | Zneg _ => idtac
  end.

Ltac norm_coords :=
  repeat match goal with
         | |- context [Z.add ?a ?b] =>
           is_numeral a; is_numeral b;
           let v := eval compute in (Z.add a b) in
           progress change (Z.add a b) with v
         | |- context [Z.mul ?a ?b] =>
           is_numeral a; is_numeral b;
           let v := eval compute in (Z.mul a b) in
           progress change (Z.mul a b) with v
         end.

#[local] Arguments king_ray : simpl never.
#[local] Arguments king_scan : simpl never.

Lemma king_ray_S fuel b piece after dx dy nx ny found :
  king_ray (S fuel) b piece after dx dy nx ny found
  = match cell b (nx + dx) (ny + dy) with
    | None => []
    | Some c =>
      if is_NONE (type c) then
        if found then [mkPosition (nx + dx) (ny + dy)]
        else if negb after then
          mkPosition (nx + dx) (ny + dy)
            :: king_ray fuel b piece after dx dy (nx + dx) (ny + dy) false
        else king_ray fuel b piece after dx dy (nx + dx) (ny + dy) false
      else if negb (same_player (player c) (player piece)) then
        if negb found
        then king_ray fuel b piece after dx dy (nx + dx) (ny + dy) true
        else []
      else []
    end.
Proof. reflexivity. Qed.

Lemma king_ray_out fuel b piece after dx dy nx ny found :
  in_bounds (nx + dx) (ny + dy) = false →
  king_ray fuel b piece after dx dy nx ny found = [].
Proof.
  intros Hout. destruct fuel; [done|].
  by rewrite king_ray_S, (cell_out _ _ _ Hout).
Qed.

(** ** C1 *)

(** C1, as stated: the scenario of the claim yields [(3,3)] as the only
    candidate when [afterCapture] is false.  This fails: the empty cell
    (1,1) in front of the first man is offered too, as a simple move. *)
Lemma C1_counterexample :
  candidates <$> FindValidMoves diagonal_state 0 0 false
  = Some [mkPosition 1 1; mkPosition 3 3]
  ∧ candidates <$> FindValidMoves diagonal_state 0 0 false
    ≠ Some [mkPosition 3 3].
Proof. split; [reflexivity | discriminate]. Qed.

(** C1, amended: a king at (0,0), (1,1) empty, a piece of the opponent at
    (2,2), (3,3) empty.  With [afterCapture = false] the candidates are (1,1),
    a simple move, and (3,3), the landing over (2,2), and nothing else; with
    [afterCapture = true] the only candidate is (3,3).  The scan stops at
    (3,3): nothing at (4,4), (5,5) or beyond is offered, whatever is there. *)
Theorem C1_king_scan_stops_at_landing (gs : GameState) (k : Piece) :
  wf_state gs →
  cell (board gs) 0 0 = Some k → isKing k = true →
  empty_at (board gs) 1 1 →
  opponent_at (board gs) (player k) 2 2 →
  empty_at (board gs) 3 3 →
  ∃ gs1 gs2,
    FindValidMoves gs 0 0 false = Some gs1
    ∧ candidates gs1 = [mkPosition 1 1; mkPosition 3 3]
    ∧ FindValidMoves gs 0 0 true = Some gs2
    ∧ candidates gs2 = [mkPosition 3 3].
Proof.
  intros Hwf Hk Hking (e1 & He1 & Ht1) (o & Ho & Hto & Hpo) (e3 & He3 & Ht3).
  apply is_NONE_true in Ht1, Ht3. apply is_NONE_false in Hto.
  apply same_player_false in Hpo.
  assert (∀ after, moves_of (board gs) 0 0 after
            = (if after then [] else [mkPosition 1 1]) ++ [mkPosition 3 3])
    as Hmoves.
  { intros after. unfold moves_of, king_directions, SCAN_FUEL.
    rewrite Hk, Hking. cbn [map concat fst snd].
    rewrite (king_ray_out _ _ _ _ (-1) 1), (king_ray_out _ _ _ _ 1 (-1)),
      (king_ray_out _ _ _ _ (-1) (-1)) by done.
    rewrite !app_nil_r.
    rewrite king_ray_S. norm_coords. rewrite He1, Ht1. cbn [negb].
    assert (king_ray 7 (board gs) k after 1 1 1 1 false = [mkPosition 3 3])
      as ->; [|by destruct after].
    rewrite king_ray_S. norm_coords. rewrite Ho, Hto, Hpo. cbn [negb].
    rewrite king_ray_S. norm_coords. by rewrite He3, Ht3. }
  destruct (FindValidMoves_spec gs 0 0 false Hwf eq_refl)
    as (gs1 & Hr1 & _ & _ & Hc1).
  destruct (FindValidMoves_spec gs 0 0 true Hwf eq_refl)
    as (gs2 & Hr2 & _ & _ & Hc2).
  exists gs1, gs2. rewrite Hmoves in Hc1, Hc2. done.
Qed.

Lemma C1_king_scan_witness :
  ∃ gs1 gs2,
    FindValidMoves diagonal_state 0 0 false = Some gs1
    ∧ candidates gs1 = [mkPosition 1 1; mkPosition 3 3]
    ∧ FindValidMoves diagonal_state 0 0 true = Some gs2
    ∧ candidates gs2 = [mkPosition 3 3].
Proof.
  apply (C1_king_scan_stops_at_landing diagonal_state king1).
  - apply wf_diagonal_state.
  - reflexivity.
  - reflexivity.
  - exists empty_cell. split; reflexivity.
  - exists man2. split; [reflexivity|]. split; discriminate.
  - exists empty_cell. split; reflexivity.
Defined.

(** ** C9 *)

Lemma candidates_length gs :
  moves_ok gs → length (candidates gs) = Z.to_nat (validMoveCount gs).
Proof. intros [Hlen Hcnt]. unfold candidates. rewrite length_take. lia. Qed.

Lemma write_move_index vm i x y vm' :
  write_move vm i x y = Some vm' → 0 ≤ i < MAX_VALID_MOVES.
Proof.
  unfold write_move.
  destruct ((0 <=? i) && (i <? MAX_VALID_MOVES)) eqn:H; [|done]. lia.
Qed.

(** C9: a call of the generator for a cell of the board runs without a write
    outside [validMoves] (such a write makes [write_move], and with it the
    call, undefined: see [write_move_index]), and ends with a count between 0
    and 12 and an array of unchanged size.  The candidates it leaves are a
    function of the board alone: started from any other contents of the
    array and of the count, the call leaves the same count and the same
    candidates, so nothing of an earlier generation is among them. *)
Theorem C9_candidate_array_bounded (gs : GameState) (x y : Z) (after : bool) :
  wf_state gs → in_bounds x y = true →
  ∃ gs', FindValidMoves gs x y after = Some gs'
    ∧ 0 ≤ validMoveCount gs' ≤ MAX_VALID_MOVES
    ∧ length (validMoves gs') = length (validMoves gs)
    ∧ ∀ gs2, wf_state gs2 → board gs2 = board gs →
        ∃ gs2', FindValidMoves gs2 x y after = Some gs2'
          ∧ validMoveCount gs2' = validMoveCount gs'
          ∧ candidates gs2' = candidates gs'.
Proof.
  intros Hwf Hin.
  destruct (FindValidMoves_spec gs x y after Hwf Hin)
    as (gs' & Hr & Hfr & Hok & Hc).
  exists gs'. split; [done|]. split; [apply Hok|].
  split; [destruct Hok as [-> _]; by destruct Hwf as [_ ->]|].
  intros gs2 Hwf2 Hb.
  destruct (FindValidMoves_spec gs2 x y after Hwf2 Hin)
    as (gs2' & Hr2 & Hfr2 & Hok2 & Hc2).
  exists gs2'. split; [done|].
  assert (candidates gs2' = candidates gs') as Heq by congruence.
  split; [|done].
  apply (f_equal length) in Heq. rewrite !candidates_length in Heq by done.
  destruct Hok, Hok2. lia.
Qed.

Lemma C9_candidate_array_witness :
  ∃ gs', FindValidMoves diagonal_state 0 0 false = Some gs'
    ∧ 0 ≤ validMoveCount gs' ≤ MAX_VALID_MOVES
    ∧ length (validMoves gs') = length (validMoves diagonal_state)
    ∧ ∀ gs2, wf_state gs2 → board gs2 = board diagonal_state →
        ∃ gs2', FindValidMoves gs2 0 0 false = Some gs2'
          ∧ validMoveCount gs2' = validMoveCount gs'
          ∧ candidates gs2' = candidates gs'.
Proof.
  apply (C9_candidate_array_bounded diagonal_state 0 0 false).
  - apply wf_diagonal_state.
  - reflexivity.
Defined.

(** ** C2 *)

Lemma elem_of_if_singleton {A} (t : bool) (q p : A) :
  p ∈ (if t then [q] else []) ↔ t = true ∧ p = q.
Proof.
  destruct t; [rewrite list_elem_of_singleton | rewrite elem_of_nil];
    naive_solver.
Qed.

Lemma elem_of_regular_ray b piece after x y d p :
  p ∈ regular_ray b piece after x y d ↔
    (p = mkPosition (x + fst d) (y + snd d) ∧ after = false
     ∧ empty_at b (x + fst d) (y + snd d))
    ∨ (p = mkPosition (x + 2 * fst d) (y + 2 * snd d)
       ∧ opponent_at b (player piece) (x + fst d) (y + snd d)
       ∧ empty_at b (x + 2 * fst d) (y + 2 * snd d)).
Proof.
  unfold regular_ray, empty_at, opponent_at.
  destruct (cell b (x + fst d) (y + snd d)) as [n|] eqn:Hn.
  2:{ rewrite elem_of_nil. naive_solver. }
  rewrite elem_of_app, elem_of_if_singleton.
  destruct (cell b (x + 2 * fst d) (y + 2 * snd d)) as [c|].
  - rewrite elem_of_if_singleton, !andb_true_iff, !negb_true_iff,
      !is_NONE_true, is_NONE_false, same_player_false.
    destruct after; naive_solver.
  - rewrite elem_of_nil, !andb_true_iff, !negb_true_iff, !is_NONE_true.
    destruct after; naive_solver.
Qed.

Lemma position_eq a b c d :
  mkPosition a b = mkPosition c d ↔ a = c ∧ b = d.
Proof. split; [by intros [= -> ->] | by intros [-> ->]]. Qed.

Lemma forward_cases p : forward p = 1 ∨ forward p = -1.
Proof. destruct p; auto. Qed.

(** A cell is in one of the two rays of a regular piece: decide which of the
    four possible positions it is by arithmetic. *)
Ltac ray_case :=
  let Hx := fresh "Hx" in
  let Hy := fresh "Hy" in
  let Hrest := fresh "Hrest" in
  split;
  [ intros [[((Hx & Hy) & Hrest)|((Hx & Hy) & Hrest)]
           |[((Hx & Hy) & Hrest)|((Hx & Hy) & Hrest)]];
    first [exfalso; lia | tauto]
  | intros Hrest;
    first [ left; left; split; [split; lia | tauto]
          | left; right; split; [split; lia | tauto]
          | right; left; split; [split; lia | tauto]
          | right; right; split; [split; lia | tauto] ] ].

Lemma regular_directions_forward p :
  regular_directions p = [(1, forward p); (-1, forward p)].
Proof. by destruct p. Qed.

(** C2: for a piece that is not a king, on any board and for either forward
    diagonal [dx]: the adjacent cell is a candidate exactly when it is on the
    board and empty and [afterCapture] is false; the cell two steps away is a
    candidate exactly when the adjacent cell holds a piece of the opponent
    and the cell two steps away is on the board and empty; and there are no
    other candidates.  In particular there is no simple move when
    [afterCapture] is true. *)
Theorem C2_regular_piece_candidates (gs : GameState) (x y : Z) (piece : Piece)
    (after : bool) :
  wf_state gs →
  cell (board gs) x y = Some piece → isKing piece = false →
  ∃ gs', FindValidMoves gs x y after = Some gs'
    ∧ (∀ dx, dir_ok dx →
         let dy := forward (player piece) in
         (mkPosition (x + dx) (y + dy) ∈ candidates gs'
          ↔ after = false ∧ empty_at (board gs) (x + dx) (y + dy))
         ∧ (mkPosition (x + 2 * dx) (y + 2 * dy) ∈ candidates gs'
            ↔ opponent_at (board gs) (player piece) (x + dx) (y + dy)
              ∧ empty_at (board gs) (x + 2 * dx) (y + 2 * dy)))
    ∧ (∀ p, p ∈ candidates gs' →
         ∃ dx, dir_ok dx
           ∧ (p = mkPosition (x + dx) (y + forward (player piece))
              ∨ p = mkPosition (x + 2 * dx)
                      (y + 2 * forward (player piece)))).
Proof.
  intros Hwf Hp Hking.
  destruct (FindValidMoves_spec gs x y after Hwf (cell_in_bounds _ _ _ _ Hp))
    as (gs' & Hr & _ & Hok & Hc).
  exists gs'. split; [done|].
  assert (∀ p, p ∈ candidates gs' ↔
            p ∈ regular_ray (board gs) piece after x y
                  (1, forward (player piece))
            ∨ p ∈ regular_ray (board gs) piece after x y
                    (-1, forward (player piece))) as Hmem.
  { intros p. apply (f_equal (take 12)) in Hc.
    rewrite candidates_take in Hc by done. rewrite take_take in Hc.
    rewrite Hc. unfold moves_of. rewrite Hp, Hking, regular_directions_forward.
    cbn [map concat]. rewrite app_nil_r, <- elem_of_app.
    rewrite take_ge; [done|].
    rewrite length_app. unfold regular_ray.
    repeat match goal with
           | |- context [match ?c with _ => _ end] => destruct c
           end; simpl; lia. }
  split.
  - intros dx Hdx dy. subst dy. rewrite !Hmem, !elem_of_regular_ray.
    cbn [fst snd]. rewrite !position_eq.
    destruct Hdx as [-> | ->]; split; ray_case.
  - intros p. rewrite Hmem, !elem_of_regular_ray. cbn [fst snd].
    unfold dir_ok. naive_solver.
Qed.

Lemma wf_jump_state : wf_state jump_state.
Proof. apply wf_state_of. repeat apply wf_place. apply wf_empty_board. Qed.

Lemma wf_empty_state : wf_state empty_state.
Proof. apply wf_state_of, wf_empty_board. Qed.

Lemma C2_regular_piece_witness :
  ∃ gs', FindValidMoves jump_state 2 2 false = Some gs'
    ∧ (∀ dx, dir_ok dx →
         let dy := forward (player man1) in
         (mkPosition (2 + dx) (2 + dy) ∈ candidates gs'
          ↔ false = false ∧ empty_at (board jump_state) (2 + dx) (2 + dy))
         ∧ (mkPosition (2 + 2 * dx) (2 + 2 * dy) ∈ candidates gs'
            ↔ opponent_at (board jump_state) (player man1) (2 + dx) (2 + dy)
              ∧ empty_at (board jump_state) (2 + 2 * dx) (2 + 2 * dy)))
    ∧ (∀ p, p ∈ candidates gs' →
         ∃ dx, dir_ok dx
           ∧ (p = mkPosition (2 + dx) (2 + forward (player man1))
              ∨ p = mkPosition (2 + 2 * dx)
                      (2 + 2 * forward (player man1)))).
Proof.
  apply (C2_regular_piece_candidates jump_state 2 2 man1 false).
  - apply wf_jump_state.
  - reflexivity.
  - reflexivity.
Defined.

(** ** C5 *)

Lemma king_ray_ext b b2 piece piece2 after dx dy :
  player piece2 = player piece →
  ∀ fuel nx ny found,
  (∀ k, 1 ≤ k → cell b2 (nx + k * dx) (ny + k * dy)
                 = cell b (nx + k * dx) (ny + k * dy)) →
  king_ray fuel b2 piece2 after dx dy nx ny found
  = king_ray fuel b piece after dx dy nx ny found.
Proof.
  intros Hpl fuel. induction fuel as [|fuel IH]; intros nx ny found Hcells;
    [done|].
  rewrite !king_ray_S, Hpl.
  specialize (Hcells 1 ltac:(lia)) as H1. rewrite !Z.mul_1_l in H1.
  rewrite H1.
  assert (∀ found', king_ray fuel b2 piece2 after dx dy (nx + dx) (ny + dy) found'
            = king_ray fuel b piece after dx dy (nx + dx) (ny + dy) found')
    as Hrec.
  { intros found'. apply IH. intros k Hk.
    specialize (Hcells (k + 1) ltac:(lia)).
    by replace (nx + (k + 1) * dx) with (nx + dx + k * dx) in Hcells by lia;
       replace (ny + (k + 1) * dy) with (ny + dy + k * dy) in Hcells by lia. }
  by rewrite !Hrec.
Qed.

Lemma regular_ray_ext b b2 piece piece2 after x y d :
  player piece2 = player piece →
  cell b2 (x + fst d) (y + snd d) = cell b (x + fst d) (y + snd d) →
  cell b2 (x + 2 * fst d) (y + 2 * snd d)
  = cell b (x + 2 * fst d) (y + 2 * snd d) →
  regular_ray b2 piece2 after x y d = regular_ray b piece after x y d.
Proof. intros Hpl H1 H2. unfold regular_ray. by rewrite H1, H2, Hpl. Qed.

(** The generator never looks at the type of the source cell. *)
Lemma moves_of_source_type b x y t b2 after :
  update_cell b x y (set_type t) = Some b2 →
  moves_of b2 x y after = moves_of b x y after.
Proof.
  intros Hup. unfold moves_of. rewrite (cell_update_eq _ _ _ _ _ Hup).
  destruct (cell b x y) as [piece|]; [|done]. simpl.
  assert (∀ x' y', x' ≠ x → cell b2 x' y' = cell b x' y') as Hother.
  { intros x' y' Hne. eapply cell_update_ne; [done|]. naive_solver. }
  destruct (isKing piece).
  - assert (∀ dx dy, dir_ok dx →
              king_ray SCAN_FUEL b2 (set_type t piece) after dx dy x y false
              = king_ray SCAN_FUEL b piece after dx dy x y false) as Hray.
    { intros dx dy Hdx. apply king_ray_ext; [done|].
      intros k Hk. apply Hother. destruct Hdx as [-> | ->]; lia. }
    unfold king_directions. cbn [map concat fst snd].
    by rewrite !Hray by (unfold dir_ok; auto).
  - assert (∀ d, dir_ok (fst d) →
              regular_ray b2 (set_type t piece) after x y d
              = regular_ray b piece after x y d) as Hray.
    { intros d Hdx.
      apply regular_ray_ext; [done|..]; apply Hother;
        destruct Hdx as [-> | ->]; lia. }
    destruct (player piece); cbn [regular_directions map concat];
      by rewrite !Hray by (unfold dir_ok; auto).
Qed.

(** C5, as stated: an empty source cell yields an empty candidate list.
    This fails: on the empty board the generator, asked for the empty cell
    (3,3), offers the two moves of a man of PLAYER1, the owner the cell
    records. *)
Lemma C5_counterexample :
  cell (board empty_state) 3 3 = Some empty_cell ∧ type empty_cell = NONE
  ∧ candidates <$> FindValidMoves empty_state 3 3 false
    = Some [mkPosition 4 4; mkPosition 2 4]
  ∧ candidates <$> FindValidMoves empty_state 3 3 false ≠ Some [].
Proof. repeat split; [reflexivity..|discriminate]. Qed.

(** C5, amended: the test for a source cell that is outside the board or
    empty is made by the caller, not by the generator.  With no piece
    selected, [HandleInput] leaves the state as it is for a click on such a
    cell and does not call the generator.  The generator itself indexes the
    board with the source it is given: outside the board it has no defined
    result; for an empty cell of the board it returns without error, changes
    nothing but the candidate array and its count, and does not look at the
    type of the cell, so that its candidates are those of a piece with the
    owner and the king flag the cell records, the same as with any other type
    written into the cell. *)
Theorem C5_source_cell_unchecked (gs : GameState) (x y : Z) (after : bool) :
  wf_state gs →
  in_bounds x y = false ∨ empty_at (board gs) x y →
  HandleInput (set_pieceSelected gs false) x y
  = Some (set_pieceSelected gs false)
  ∧ match cell (board gs) x y with
    | None => FindValidMoves gs x y after = None
    | Some _ =>
      ∃ gs', FindValidMoves gs x y after = Some gs' ∧ same_frame gs gs'
        ∧ ∀ t, ∃ b2 gs2',
            update_cell (board gs) x y (set_type t) = Some b2
            ∧ FindValidMoves (set_board gs b2) x y after = Some gs2'
            ∧ candidates gs2' = candidates gs'
    end.
Proof.
  intros Hwf Hcase. split.
  - unfold HandleInput. simpl.
    destruct (isCapturing gs); simpl; [done|].
    destruct Hcase as [Hout | (c & Hc & Ht)].
    + unfold in_bounds in Hout.
      replace ((x >=? 0) && (x <? COLS) && (y >=? 0) && (y <? ROWS))
        with false; [done|]. unfold COLS, ROWS in *. lia.
    + destruct ((x >=? 0) && (x <? COLS) && (y >=? 0) && (y <? ROWS)); [|done].
      unfold own_piece_at. simpl. rewrite Hc. simpl. by rewrite Ht.
  - destruct (cell (board gs) x y) as [c|] eqn:Hc.
    + pose proof (cell_in_bounds _ _ _ _ Hc) as Hin.
      destruct (FindValidMoves_spec gs x y after Hwf Hin)
        as (gs' & Hr & Hfr & Hok & Hcs).
      exists gs'. split; [done|]. split; [done|].
      intros t.
      destruct (update_cell_is_Some (board gs) x y (set_type t) Hin)
        as [b2 Hup].
      destruct (FindValidMoves_spec (set_board gs b2) x y after) as
        (gs2' & Hr2 & _ & _ & Hc2); [|done|].
      { destruct Hwf as [Hb Hm]. split; [|done]. simpl.
        by eapply wf_board_update. }
      exists b2, gs2'. split; [done|]. split; [done|]. simpl in Hc2.
      by rewrite Hc2, (moves_of_source_type _ _ _ _ _ _ Hup).
    + unfold FindValidMoves. simpl. by rewrite Hc.
Qed.

Lemma C5_source_cell_witness :
  HandleInput (set_pieceSelected diagonal_state false) 3 3
  = Some (set_pieceSelected diagonal_state false)
  ∧ match cell (board diagonal_state) 3 3 with
    | None => FindValidMoves diagonal_state 3 3 false = None
    | Some _ =>
      ∃ gs', FindValidMoves diagonal_state 3 3 false = Some gs'
        ∧ same_frame diagonal_state gs'
        ∧ ∀ t, ∃ b2 gs2',
            update_cell (board diagonal_state) 3 3 (set_type t) = Some b2
            ∧ FindValidMoves (set_board diagonal_state b2) 3 3 false
              = Some gs2'
            ∧ candidates gs2' = candidates gs'
    end.
Proof.
  apply (C5_source_cell_unchecked diagonal_state 3 3 false).
  - apply wf_diagonal_state.
  - right. exists empty_cell. split; reflexivity.
Defined.

(** ** C8 *)

Lemma crown_crown p : crown (crown p) = crown p.
Proof. done. Qed.

Lemma update_cell_twice b x y f b' :
  (∀ p, f (f p) = f p) →
  update_cell b x y f = Some b' → update_cell b' x y f = Some b'.
Proof.
  intros Hf. unfold update_cell. destruct (in_bounds x y); [|done].
  intros [= <-]. f_equal. rewrite list_alter_alter_eq.
  apply list_alter_ext; [|done]. intros row _. simpl.
  rewrite list_alter_alter_eq. apply list_alter_ext; [|done].
  intros p _. apply Hf.
Qed.

(** C8, as stated: the promotion changes nothing unless the cell holds a man
    of the player on that player's far row.  This fails: the operation does
    not look at what the cell holds.  With PLAYER1 to move, applied to the
    empty cell (1,7) it writes a king into it. *)
Lemma C8_counterexample :
  cell (board empty_state) 1 7 = Some empty_cell ∧ type empty_cell = NONE
  ∧ (λ gs, cell (board gs) 1 7) <$> PromoteToKing empty_state 1 7
    = Some (Some (mkPiece KING PLAYER1 true))
  ∧ PromoteToKing empty_state 1 7 ≠ Some empty_state.
Proof. repeat split; [reflexivity..|discriminate]. Qed.

(** C8, amended: the promotion, applied at a cell of the board, looks only at
    the player to move and at the row.  On the far row of the player to move
    it sets the type of the cell to KING and its king flag, whatever the cell
    holds (a man of that player becomes a king of that player; the owner
    field is kept), and changes nothing else; on any other row it changes
    nothing.  It is idempotent: applied again to its own result it returns
    that result. *)
Theorem C8_promotion (gs : GameState) (x y : Z) :
  in_bounds x y = true →
  ∃ gs', PromoteToKing gs x y = Some gs'
    ∧ (if bool_decide (y = far_row (currentPlayer gs))
       then update_cell (board gs) x y crown = Some (board gs')
            ∧ gs' = set_board gs (board gs')
            ∧ cell (board gs') x y
              = (λ c, mkPiece KING (player c) true) <$> cell (board gs) x y
       else gs' = gs)
    ∧ PromoteToKing gs' x y = Some gs'.
Proof.
  intros Hin. unfold PromoteToKing, far_row.
  destruct (update_cell_is_Some (board gs) x y crown Hin) as [b' Hup].
  pose proof (update_cell_twice _ _ _ _ _ crown_crown Hup) as Hup2.
  pose proof (cell_update_eq _ _ _ _ _ Hup) as Hcell.
  change (ROWS - 1) with 7.
  destruct (currentPlayer gs) eqn:Hcur; simpl;
    (case_bool_decide as Hy;
     [apply Z.eqb_eq in Hy | apply Z.eqb_neq in Hy]; rewrite ?Hy; simpl;
     rewrite ?Hup; simpl;
     (eexists; split; [done|]); simpl; rewrite ?Hcur; simpl;
     by rewrite ?Hup2, ?Hcell).
Qed.

Lemma C8_promotion_witness :
  ∃ gs', PromoteToKing (state_of (place empty_board 1 7 man1) PLAYER1) 1 7
         = Some gs'
    ∧ (if bool_decide (7 = far_row PLAYER1)
       then update_cell (place empty_board 1 7 man1) 1 7 crown
            = Some (board gs')
            ∧ gs' = set_board (state_of (place empty_board 1 7 man1) PLAYER1)
                      (board gs')
            ∧ cell (board gs') 1 7
              = (λ c, mkPiece KING (player c) true)
                  <$> cell (place empty_board 1 7 man1) 1 7
       else gs' = state_of (place empty_board 1 7 man1) PLAYER1)
    ∧ PromoteToKing gs' 1 7 = Some gs'.
Proof.
  apply (C8_promotion (state_of (place empty_board 1 7 man1) PLAYER1) 1 7).
  reflexivity.
Defined.

(** ** The generator leaves the rest of the array alone *)

Lemma king_scan_S fuel piece after dx dy nx ny found st :
  king_scan (S fuel) piece after dx dy nx ny found st
  = if (nx + dx <? 0) || (nx + dx >=? COLS) || (ny + dy <? 0)
       || (ny + dy >=? ROWS)
    then Some st
    else
      c <- cell (board (fst st)) (nx + dx) (ny + dy) ;;
      if is_NONE (type c) then
        if found then
          gs <- add_move (fst st) (nx + dx) (ny + dy) ;;
          Some (gs, if validMoveCount (fst st) <? MAX_VALID_MOVES
                    then true else snd st)
        else if negb after then
          gs <- add_move (fst st) (nx + dx) (ny + dy) ;;
          king_scan fuel piece after dx dy (nx + dx) (ny + dy) found
            (gs, snd st)
        else king_scan fuel piece after dx dy (nx + dx) (ny + dy) found st
      else if negb (same_player (player c) (player piece)) then
        if negb found
        then king_scan fuel piece after dx dy (nx + dx) (ny + dy) true st
        else Some st
      else Some st.
Proof. reflexivity. Qed.

Lemma keeps_suffix_refl gs : keeps_suffix gs gs.
Proof. split; [lia|done]. Qed.

Lemma keeps_suffix_trans gs1 gs2 gs3 :
  keeps_suffix gs1 gs2 → keeps_suffix gs2 gs3 → keeps_suffix gs1 gs3.
Proof.
  intros [Hle12 Hd12] [Hle23 Hd23]. split; [lia|].
  rewrite Hd23.
  replace (Z.to_nat (validMoveCount gs3))
    with (Z.to_nat (validMoveCount gs2)
          + (Z.to_nat (validMoveCount gs3) - Z.to_nat (validMoveCount gs2)))%nat
    by lia.
  by rewrite <- !drop_drop, Hd12.
Qed.

Lemma add_move_suffix gs x y gs' :
  add_move gs x y = Some gs' → 0 ≤ validMoveCount gs → keeps_suffix gs gs'.
Proof.
  unfold add_move, write_move. intros H Hc.
  destruct (validMoveCount gs <? MAX_VALID_MOVES) eqn:Hlt;
    [|injection H as <-; apply keeps_suffix_refl].
  apply bind_Some in H as (vm & Hvm & [= <-]).
  destruct ((0 <=? validMoveCount gs) && true
            && (validMoveCount gs <? Z.of_nat (length (validMoves gs))));
    [|done].
  injection Hvm as <-. split; simpl; [lia|].
  apply drop_insert_lt. lia.
Qed.

Lemma king_scan_suffix piece after dx dy fuel :
  ∀ nx ny found st st',
  king_scan fuel piece after dx dy nx ny found st = Some st' →
  0 ≤ validMoveCount (fst st) → keeps_suffix (fst st) (fst st').
Proof.
  induction fuel as [|fuel IH]; intros nx ny found st st' H Hc; [done|].
  rewrite king_scan_S in H.
  destruct ((nx + dx <? 0) || (nx + dx >=? COLS) || (ny + dy <? 0)
            || (ny + dy >=? ROWS)).
  { injection H as <-. apply keeps_suffix_refl. }
  apply bind_Some in H as (c & _ & H).
  destruct (is_NONE (type c)).
  - destruct found.
    + apply bind_Some in H as (gs1 & Hadd & [= <-]).
      by apply add_move_suffix in Hadd.
    + destruct after; cbn [negb] in H.
      * by eapply IH.
      * apply bind_Some in H as (gs1 & Hadd & H).
        apply add_move_suffix in Hadd; [|done].
        eapply keeps_suffix_trans; [done|].
        apply IH in H; [done|]. simpl. destruct Hadd. lia.
  - destruct (negb (same_player (player c) (player piece)));
      [|injection H as <-; apply keeps_suffix_refl].
    destruct (negb found); [by eapply IH|].
    injection H as <-. apply keeps_suffix_refl.
Qed.

(** After a capture a scan that reports no capture has written nothing. *)
Lemma king_scan_quiet piece dx dy fuel :
  ∀ nx ny found st st',
  king_scan fuel piece true dx dy nx ny found st = Some st' →
  snd st' = false → st' = st.
Proof.
  induction fuel as [|fuel IH]; intros nx ny found st st' H Hflag; [done|].
  rewrite king_scan_S in H.
  destruct ((nx + dx <? 0) || (nx + dx >=? COLS) || (ny + dy <? 0)
            || (ny + dy >=? ROWS)).
  { by injection H as <-. }
  apply bind_Some in H as (c & _ & H).
  destruct (is_NONE (type c)).
  - destruct found; cbn [negb] in H; [|by eapply IH].
    apply bind_Some in H as (gs1 & Hadd & [= <-]). simpl in Hflag.
    unfold add_move in Hadd.
    destruct (validMoveCount (fst st) <? MAX_VALID_MOVES); [done|].
    injection Hadd as <-. simpl in Hflag. destruct st. simpl in *. by subst.
  - destruct (negb (same_player (player c) (player piece)));
      [|by injection H as <-].
    destruct (negb found); [by eapply IH|]. by injection H as <-.
Qed.

Lemma king_scans_suffix piece after x y dirs :
  ∀ st st',
  for_each (λ d st, king_scan SCAN_FUEL piece after (fst d) (snd d)
                      x y false st) dirs st = Some st' →
  0 ≤ validMoveCount (fst st) →
  keeps_suffix (fst st) (fst st')
  ∧ (after = true → snd st' = false → st' = st).
Proof.
  induction dirs as [|d dirs IH]; intros st st' H Hc; cbn [for_each] in H.
  { injection H as <-. split; [apply keeps_suffix_refl|done]. }
  apply bind_Some in H as (st1 & H1 & H).
  pose proof (king_scan_suffix _ _ _ _ _ _ _ _ _ _ H1 Hc) as Hs1.
  destruct (IH _ _ H) as [Hs2 Hq2]; [destruct Hs1; lia|].
  split; [by eapply keeps_suffix_trans|].
  intros -> Hflag. specialize (Hq2 eq_refl Hflag). subst st'.
  by eapply king_scan_quiet.
Qed.

Lemma regular_steps_suffix piece after x y dirs :
  ∀ gs gs',
  for_each (regular_step piece after x y) dirs gs = Some gs' →
  0 ≤ validMoveCount gs → keeps_suffix gs gs'.
Proof.
  induction dirs as [|d dirs IH]; intros gs gs' H Hc; cbn [for_each] in H.
  { injection H as <-. apply keeps_suffix_refl. }
  apply bind_Some in H as (gs1 & H1 & H).
  assert (keeps_suffix gs gs1) as Hs1.
  { unfold regular_step in H1.
    destruct (in_bounds (x + fst d) (y + snd d));
      [|injection H1 as <-; apply keeps_suffix_refl].
    apply bind_Some in H1 as (n & _ & H1).
    apply bind_Some in H1 as (gs2 & H2 & H1).
    assert (keeps_suffix gs gs2) as Hs2.
    { destruct (is_NONE (type n) && negb after).
      - by apply add_move_suffix in H2.
      - injection H2 as <-. apply keeps_suffix_refl. }
    eapply keeps_suffix_trans; [done|].
    destruct (in_bounds (x + 2 * fst d) (y + 2 * snd d));
      [|injection H1 as <-; apply keeps_suffix_refl].
    apply bind_Some in H1 as (c & _ & H1).
    destruct (is_NONE (type c) && negb (is_NONE (type n))
              && negb (same_player (player n) (player piece))).
    - apply add_move_suffix in H1; [done|]. destruct Hs2. lia.
    - injection H1 as <-. apply keeps_suffix_refl. }
  eapply keeps_suffix_trans; [done|].
  apply IH; [done|]. destruct Hs1. lia.
Qed.

Lemma FindValidMoves_suffix gs x y after gs' :
  FindValidMoves gs x y after = Some gs' →
  drop (Z.to_nat (validMoveCount gs')) (validMoves gs')
  = drop (Z.to_nat (validMoveCount gs')) (validMoves gs).
Proof.
  unfold FindValidMoves.
  intros (piece & _ & H)%bind_Some.
  destruct (isKing piece).
  - apply bind_Some in H as (st & Hscan & H).
    apply king_scans_suffix in Hscan as [[_ Hs] Hq]; [|simpl; lia].
    destruct (after && negb (snd st)) eqn:Hreset.
    + injection H as <-.
      apply andb_true_iff in Hreset as [-> Hflag%negb_true_iff].
      by rewrite (Hq eq_refl Hflag).
    + by injection H as <-.
  - apply regular_steps_suffix in H as [_ Hs]; [done|simpl; lia].
Qed.

(** A state whose candidates are the ones the generator computes is left as
    it is by the generator. *)
Lemma FindValidMoves_fixpoint gs x y after :
  wf_state gs → in_bounds x y = true → moves_ok gs →
  candidates gs = take 12 (moves_of (board gs) x y after) →
  FindValidMoves gs x y after = Some gs.
Proof.
  intros Hwf Hin Hok Hc.
  destruct (FindValidMoves_spec gs x y after Hwf Hin)
    as (gs' & Hr & Hfr & Hok' & Hc').
  pose proof (FindValidMoves_suffix _ _ _ _ _ Hr) as Hsuf.
  rewrite Hr. f_equal.
  assert (candidates gs' = candidates gs) as Heq by congruence.
  assert (validMoveCount gs' = validMoveCount gs) as Hcnt.
  { apply (f_equal length) in Heq. rewrite !candidates_length in Heq by done.
    destruct Hok, Hok'. lia. }
  assert (validMoves gs' = validMoves gs) as Hvm.
  { rewrite <- (take_drop (Z.to_nat (validMoveCount gs')) (validMoves gs')).
    rewrite <- (take_drop (Z.to_nat (validMoveCount gs')) (validMoves gs)).
    rewrite Hsuf. f_equal. unfold candidates in Heq. by rewrite Hcnt in *. }
  destruct Hfr as (? & ? & ? & ? & ? & ? & ? & ?).
  destruct gs, gs'. simpl in *. by subst.
Qed.

(** ** Moving the selected piece *)

Lemma bind_Some {A B} (m : option A) (f : A → option B) r :
  bind m f = Some r ↔ ∃ a, m = Some a ∧ f a = Some r.
Proof. destruct m; simpl; naive_solver. Qed.

Lemma HandleInput_move gs x y :
  applies_move gs x y → HandleInput gs x y = move_selected gs x y.
Proof.
  intros (Hsel & Hno & Hvalid). unfold HandleInput. rewrite Hsel. simpl.
  destruct Hno as [-> | Hown]; simpl.
  - by rewrite Hvalid.
  - destruct (isCapturing gs); simpl; [by rewrite Hvalid|].
    rewrite Hown. simpl. by rewrite Hvalid.
Qed.

Lemma add_score_inv gs gs' :
  add_score gs = Some gs' →
  board gs' = board gs ∧ same_turn gs gs' ∧ isCapturing gs' = isCapturing gs
  ∧ (if same_player (currentPlayer gs) PLAYER1
     then player1Score gs' = player1Score gs + 1
          ∧ player2Score gs' = player2Score gs
     else player1Score gs' = player1Score gs
          ∧ player2Score gs' = player2Score gs + 1).
Proof.
  unfold add_score, incr.
  destruct (currentPlayer gs) eqn:Hcur; simpl.
  - destruct (player1Score gs <? INT_MAX); [|done]. simpl.
    intros [= <-]. by repeat split.
  - destruct (player2Score gs <? INT_MAX); [|done]. simpl.
    intros [= <-]. by repeat split.
Qed.

Lemma same_turn_refl gs : same_turn gs gs.
Proof. by repeat split. Qed.

Lemma same_turn_trans gs1 gs2 gs3 :
  same_turn gs1 gs2 → same_turn gs2 gs3 → same_turn gs1 gs3.
Proof. unfold same_turn. intros ? ?. destruct_and!. repeat split; congruence. Qed.

(** What the loop of the king capture can have done: nothing, or taken one
    piece of the opponent off the board and counted it. *)
Lemma king_capture_inv x y dx dy fuel :
  ∀ captureX captureY gs gs1 allowed,
  king_capture fuel x y dx dy captureX captureY gs = Some (gs1, allowed) →
  if allowed then
    ∃ j c b1, 0 ≤ j
      ∧ cell (board gs) (captureX + j * dx) (captureY + j * dy) = Some c
      ∧ type c ≠ NONE ∧ player c ≠ currentPlayer gs
      ∧ update_cell (board gs) (captureX + j * dx) (captureY + j * dy)
          (set_type NONE) = Some b1
      ∧ add_score (set_board gs b1) = Some gs1
  else gs1 = gs.
Proof.
  induction fuel as [|fuel IH]; intros cx cy gs gs1 allowed; simpl; [done|].
  destruct (negb (cx =? x) && negb (cy =? y)).
  2:{ by intros [= <- <-]. }
  intros (c & Hc & H)%bind_Some.
  destruct (negb (is_NONE (type c))
            && negb (same_player (player c) (currentPlayer gs))) eqn:Hopp.
  - apply bind_Some in H as (b1 & Hb1 & H).
    apply bind_Some in H as (gs2 & Hgs2 & H). injection H as <- <-.
    apply andb_true_iff in Hopp as [Ht Hp].
    apply negb_true_iff in Ht, Hp.
    apply is_NONE_false in Ht. apply same_player_false in Hp.
    exists 0, c, b1. rewrite !Z.mul_0_l, !Z.add_0_r. by repeat split.
  - specialize (IH _ _ _ _ _ H). destruct allowed; [|done].
    destruct IH as (j & c' & b1 & Hj & Hc' & ? & ? & Hup & Hsc).
    exists (j + 1), c', b1.
    replace (cx + (j + 1) * dx) with (cx + dx + j * dx) by lia.
    replace (cy + (j + 1) * dy) with (cy + dy + j * dy) by lia.
    repeat split; try done. lia.
Qed.

(** What the capture block can have done to the state. *)
Lemma capture_block_inv gs x y gs1 isCapture :
  capture_block gs x y = Some (gs1, isCapture) →
  same_turn gs gs1 ∧ isCapturing gs1 = true
  ∧ (board gs1 = board gs
     ∨ ∃ cx cy, update_cell (board gs) cx cy (set_type NONE)
                = Some (board gs1)).
Proof.
  unfold capture_block.
  intros (mp & Hmp & H)%bind_Some.
  apply bind_Some in H as ([gs2 c2] & Hst & H). injection H as <- <-.
  simpl. split; [|split; [done|]].
  - destruct (isKing mp).
    + apply bind_Some in Hst as ([gs3 allowed] & Hk & Hst).
      apply king_capture_inv in Hk. simpl in Hst.
      destruct allowed; simpl in Hst.
      * apply bind_Some in Hst as (a & _ & [= <- <-]).
        destruct Hk as (j & c & b1 & _ & _ & _ & _ & _ & Hsc).
        apply add_score_inv in Hsc as (_ & Hturn & _). apply Hturn.
      * injection Hst as <- <-. subst gs3. by repeat split.
    + apply bind_Some in Hst as (b1 & Hb1 & Hst).
      apply bind_Some in Hst as (gs3 & Hsc & [= <- <-]).
      apply add_score_inv in Hsc as (_ & Hturn & _). apply Hturn.
  - destruct (isKing mp).
    + apply bind_Some in Hst as ([gs3 allowed] & Hk & Hst).
      apply king_capture_inv in Hk. simpl in Hst.
      destruct allowed; simpl in Hst.
      * apply bind_Some in Hst as (a & _ & [= <- <-]).
        destruct Hk as (j & c & b1 & _ & _ & _ & _ & Hup & Hsc).
        apply add_score_inv in Hsc as (Hb & _). simpl in Hb.
        right. eexists _, _. by rewrite Hb.
      * injection Hst as <- <-. subst gs3. by left.
    + apply bind_Some in Hst as (b1 & Hb1 & Hst).
      apply bind_Some in Hst as (gs3 & Hsc & [= <- <-]).
      apply add_score_inv in Hsc as (Hb & _). simpl in Hb.
      right. eexists _, _. by rewrite Hb.
Qed.

Lemma PromoteToKing_inv gs x y gs' :
  PromoteToKing gs x y = Some gs' →
  gs' = gs
  ∨ ∃ b', update_cell (board gs) x y crown = Some b' ∧ gs' = set_board gs b'.
Proof.
  unfold PromoteToKing.
  destruct (same_player (currentPlayer gs) PLAYER1 && (y =? ROWS - 1)).
  { intros (b' & Hup & [= <-])%bind_Some. eauto. }
  destruct (same_player (currentPlayer gs) PLAYER2 && (y =? 0)).
  { intros (b' & Hup & [= <-])%bind_Some. eauto. }
  intros [= <-]. by left.
Qed.

Lemma wf_state_set_board gs b :
  wf_state gs → wf_board b → wf_state (set_board gs b).
Proof. intros [_ Hm] Hb. by split. Qed.

Lemma capture_block_wf gs x y gs1 isCapture :
  wf_state gs → capture_block gs x y = Some (gs1, isCapture) → wf_state gs1.
Proof.
  intros [Hb Hm] (Hturn & _ & Hboard)%capture_block_inv.
  destruct Hturn as (_ & _ & _ & _ & Hvm & _). split; [|by rewrite Hvm].
  destruct Hboard as [-> | (cx & cy & Hup)]; [done|].
  by eapply wf_board_update.
Qed.

(** The steps of [move_selected], one by one. *)
Lemma move_selected_inv gs x y gs' :
  wf_state gs → move_selected gs x y = Some gs' →
  ∃ gs1 isCapture mp b2 b3 ws gs4 dest,
    (if (Z.abs (selectedX gs - x) >? 1) && (Z.abs (selectedY gs - y) >? 1)
     then capture_block gs x y = Some (gs1, isCapture)
     else gs1 = gs ∧ isCapture = false)
    ∧ wf_state gs1
    ∧ cell (board gs1) (selectedX gs) (selectedY gs) = Some mp
    ∧ update_cell (board gs1) x y (λ _, mp) = Some b2
    ∧ update_cell b2 (selectedX gs) (selectedY gs) (set_type NONE) = Some b3
    ∧ cell b3 (selectedX gs) (selectedY gs) = Some ws
    ∧ PromoteToKing (set_board gs1 b3) x y = Some gs4
    ∧ wf_state gs4
    ∧ cell (board gs4) x y = Some dest
    ∧ board gs' = board gs4
    ∧ (if negb (isKing ws) && isKing dest then gs' = end_turn gs4
       else ∃ gs5, FindValidMoves gs4 x y true = Some gs5
              ∧ same_frame gs4 gs5 ∧ moves_ok gs5
              ∧ candidates gs5 = take 12 (moves_of (board gs4) x y true)
              ∧ gs' = if isCapture && (validMoveCount gs5 >? 0)
                      then set_selected (set_pieceSelected gs5 true) x y
                      else end_turn gs5).
Proof.
  intros Hwf. unfold move_selected.
  intros ([gs1 isCapture] & Hcap & H)%bind_Some. cbn [fst snd] in H.
  unfold finish_move in H.
  apply bind_Some in H as (mp & Hmp & H).
  apply bind_Some in H as (b2 & Hb2 & H).
  apply bind_Some in H as (b3 & Hb3 & H). cbn [board set_board] in H.
  apply bind_Some in H as (ws & Hws & H).
  apply bind_Some in H as (gs4 & Hgs4 & H).
  apply bind_Some in H as (dest & Hdest & H).
  assert (wf_state gs1) as Hwf1.
  { destruct ((Z.abs (selectedX gs - x) >? 1)
              && (Z.abs (selectedY gs - y) >? 1)).
    - by eapply capture_block_wf.
    - by injection Hcap as <- <-. }
  assert (wf_state (set_board gs1 b3)) as Hwf3.
  { apply wf_state_set_board; [done|].
    eapply wf_board_update; [|done]. eapply wf_board_update; [|done].
    apply Hwf1. }
  assert (wf_state gs4) as Hwf4.
  { apply PromoteToKing_inv in Hgs4 as [-> | (b' & Hup & ->)]; [done|].
    apply wf_state_set_board; [done|].
    eapply wf_board_update; [|done]. apply Hwf3. }
  exists gs1, isCapture, mp, b2, b3, ws, gs4, dest.
  split.
  { destruct ((Z.abs (selectedX gs - x) >? 1)
              && (Z.abs (selectedY gs - y) >? 1)); [done|].
    by injection Hcap as <- <-. }
  do 8 (split; [done|]).
  destruct (negb (isKing ws) && isKing dest).
  - injection H as <-. done.
  - apply bind_Some in H as (gs5 & Hgs5 & H).
    destruct (FindValidMoves_spec gs4 x y true Hwf4
                (cell_in_bounds _ _ _ _ Hdest))
      as (gs5' & Hr & Hfr & Hok & Hc).
    rewrite Hgs5 in Hr. injection Hr as <-.
    pose proof Hfr as [Hb _].
    split.
    + destruct (isCapture && (validMoveCount gs5 >? 0));
        injection H as <-; simpl; done.
    + exists gs5. do 4 (split; [done|]).
      by destruct (isCapture && (validMoveCount gs5 >? 0));
        injection H as <-.
Qed.

Lemma cell_update b x y f b' x' y' :
  update_cell b x y f = Some b' →
  cell b' x' y' = cell b x' y' ∨ cell b' x' y' = f <$> cell b x' y'.
Proof.
  intros Hup. destruct (decide ((x', y') = (x, y))) as [[= -> ->]|Hne].
  - right. by eapply cell_update_eq.
  - left. by eapply cell_update_ne.
Qed.

Lemma capture_block_source gs x y gs1 isCapture x' y' :
  (if (Z.abs (selectedX gs - x) >? 1) && (Z.abs (selectedY gs - y) >? 1)
   then capture_block gs x y = Some (gs1, isCapture)
   else gs1 = gs ∧ isCapture = false) →
  same_turn gs gs1
  ∧ (cell (board gs1) x' y' = cell (board gs) x' y'
     ∨ cell (board gs1) x' y' = set_type NONE <$> cell (board gs) x' y').
Proof.
  destruct ((Z.abs (selectedX gs - x) >? 1)
            && (Z.abs (selectedY gs - y) >? 1)).
  - intros (Hturn & _ & Hb)%capture_block_inv. split; [done|].
    destruct Hb as [-> | (cx & cy & Hup)]; [by left|].
    by eapply cell_update.
  - intros [-> _]. split; [apply same_turn_refl | by left].
Qed.

Lemma PromoteToKing_turn gs x y gs' :
  PromoteToKing gs x y = Some gs' →
  same_turn gs gs' ∧ isCapturing gs' = isCapturing gs
  ∧ player1Score gs' = player1Score gs ∧ player2Score gs' = player2Score gs.
Proof.
  intros [-> | (b' & _ & ->)]%PromoteToKing_inv;
    (split; [apply same_turn_refl || by repeat split | done]).
Qed.

(** ** C6 *)

(** C6: when a click moves the selected piece, the piece was not a king
    before the move and the cell it lands on holds a king after it, then the
    turn is over: nothing is selected, the candidate count is zero, the chain
    flag is off and the other player is to move.  No test of the candidates
    from the promotion cell is involved: the statement holds for every run of
    the move on an 8 by 8 board, whatever the candidates from that cell are
    (that the move has a result in every state the game reaches is
    [applied_move_total]). *)
Theorem C6_promotion_ends_turn (gs : GameState) (x y : Z) (gs' : GameState)
    (p q : Piece) :
  wf_state gs → applies_move gs x y →
  HandleInput gs x y = Some gs' →
  cell (board gs) (selectedX gs) (selectedY gs) = Some p → isKing p = false →
  cell (board gs') x y = Some q → isKing q = true →
  pieceSelected gs' = false ∧ validMoveCount gs' = 0
  ∧ isCapturing gs' = false
  ∧ currentPlayer gs' = other (currentPlayer gs).
Proof.
  intros Hwf Happ Hrun Hp Hpk Hq Hqk.
  rewrite (HandleInput_move _ _ _ Happ) in Hrun.
  apply move_selected_inv in Hrun
    as (gs1 & isCapture & mp & b2 & b3 & ws & gs4 & dest & Hcap & Hwf1 & Hmp
        & Hb2 & Hb3 & Hws & Hgs4 & Hwf4 & Hdest & Hboard & Hend); [|done].
  apply (capture_block_source _ _ _ _ _ (selectedX gs) (selectedY gs))
    in Hcap as [Hturn Hsrc].
  assert (isKing mp = false) as Hmpk.
  { rewrite Hmp, Hp in Hsrc. destruct Hsrc as [[= ->]|[= ->]]; done. }
  assert (isKing ws = false) as Hwsk.
  { rewrite (cell_update_eq _ _ _ _ _ Hb3) in Hws.
    destruct (cell_update _ _ _ _ _ (selectedX gs) (selectedY gs) Hb2)
      as [Heq | Heq]; rewrite Heq, Hmp in Hws; by injection Hws as <-. }
  rewrite Hboard, Hdest in Hq. injection Hq as ->.
  rewrite Hwsk, Hqk in Hend. simpl in Hend. subst gs'.
  apply PromoteToKing_turn in Hgs4 as ((Hcur & _) & _).
  destruct Hturn as (Hcur1 & _).
  simpl. simpl in Hcur. by rewrite Hcur, Hcur1.
Qed.

(** Well-formedness of a state given in full. *)
Ltac solve_wf :=
  split;
  [ split; [reflexivity | apply (bool_decide_unpack _); vm_compute; exact I]
  | reflexivity ].

Lemma wf_promotion_state : wf_state promotion_state.
Proof. solve_wf. Qed.

Lemma C6_promotion_witness :
  pieceSelected promoted_state = false ∧ validMoveCount promoted_state = 0
  ∧ isCapturing promoted_state = false
  ∧ currentPlayer promoted_state = other (currentPlayer promotion_state).
Proof.
  apply (C6_promotion_ends_turn promotion_state 3 7 promoted_state
           man1 (mkPiece KING PLAYER1 true)).
  - apply wf_promotion_state.
  - split; [reflexivity|]. split; [right|]; reflexivity.
  - reflexivity.
  - reflexivity.
  - reflexivity.
  - reflexivity.
  - reflexivity.
Defined.

(** In that example the new king had a capture to continue with: the
    generator, asked for the promotion cell on the resulting board, offers
    the landing (5,5) over the man at (4,6). *)
Example promotion_forgoes_capture :
  candidates <$> FindValidMoves promoted_state 3 7 true
  = Some [mkPosition 5 5].
Proof. reflexivity. Qed.

(** ** C10 *)

Lemma cleared_outside_refl x y b : cleared_outside x y b b.
Proof. intros cx cy _. by left. Qed.

Lemma cleared_outside_trans x y b1 b2 b3 :
  cleared_outside x y b1 b2 → cleared_outside x y b2 b3 →
  cleared_outside x y b1 b3.
Proof.
  intros H12 H23 cx cy Hne.
  destruct (H12 cx cy Hne) as [E12|E12], (H23 cx cy Hne) as [E23|E23];
    rewrite E23, E12; auto.
  right. by destruct (cell b1 cx cy).
Qed.

Lemma cleared_outside_clear x y b cx cy b' :
  update_cell b cx cy (set_type NONE) = Some b' → cleared_outside x y b b'.
Proof. intros Hup cx' cy' _. by eapply cell_update. Qed.

Lemma cleared_outside_write x y b f b' :
  update_cell b x y f = Some b' → cleared_outside x y b b'.
Proof. intros Hup cx cy Hne. left. by eapply cell_update_ne. Qed.

(** C10: a click that moves the selected piece to another cell leaves the
    vacated cell with its owner and king flag and type NONE, and every cell
    other than the destination either untouched or emptied in the same way,
    by a write of NONE to its type field alone: a captured cell keeps the
    owner and the king flag of the piece taken, and a later read of those
    fields returns them.  This holds for every run of the move on an 8 by 8
    board (that the move has a result in every state the game reaches is
    [applied_move_total]). *)
Theorem C10_cleared_cells_keep_fields (gs : GameState) (x y : Z)
    (gs' : GameState) (p : Piece) :
  wf_state gs → applies_move gs x y →
  HandleInput gs x y = Some gs' →
  cell (board gs) (selectedX gs) (selectedY gs) = Some p →
  (x, y) ≠ (selectedX gs, selectedY gs) →
  cell (board gs') (selectedX gs) (selectedY gs)
  = Some (mkPiece NONE (player p) (isKing p))
  ∧ cleared_outside x y (board gs) (board gs').
Proof.
  intros Hwf Happ Hrun Hp Hne.
  rewrite (HandleInput_move _ _ _ Happ) in Hrun.
  apply move_selected_inv in Hrun
    as (gs1 & isCapture & mp & b2 & b3 & ws & gs4 & dest & Hcap & Hwf1 & Hmp
        & Hb2 & Hb3 & Hws & Hgs4 & Hwf4 & Hdest & Hboard & Hend); [|done].
  assert (cleared_outside x y (board gs) (board gs1)) as H01.
  { destruct ((Z.abs (selectedX gs - x) >? 1)
              && (Z.abs (selectedY gs - y) >? 1)).
    - apply capture_block_inv in Hcap as (_ & _ & [-> | (cx & cy & Hup)]).
      + apply cleared_outside_refl.
      + by eapply cleared_outside_clear.
    - destruct Hcap as [-> _]. apply cleared_outside_refl. }
  assert (cleared_outside x y (board gs1) b3) as H13.
  { eapply cleared_outside_trans.
    - by eapply cleared_outside_write.
    - by eapply cleared_outside_clear. }
  assert (cleared_outside x y b3 (board gs4)) as H34.
  { apply PromoteToKing_inv in Hgs4 as [-> | (b' & Hup & ->)].
    - apply cleared_outside_refl.
    - by eapply cleared_outside_write. }
  assert (cleared_outside x y (board gs) (board gs')) as Hall.
  { rewrite Hboard.
    eapply cleared_outside_trans; [|done].
    by eapply cleared_outside_trans. }
  split; [|done].
  assert ((selectedX gs, selectedY gs) ≠ (x, y)) as Hne' by congruence.
  rewrite Hboard.
  assert (cell (board gs4) (selectedX gs) (selectedY gs) = cell b3 (selectedX gs) (selectedY gs)) as ->.
  { apply PromoteToKing_inv in Hgs4 as [-> | (b' & Hup & ->)]; [done|].
    by eapply cell_update_ne. }
  rewrite (cell_update_eq _ _ _ _ _ Hb3).
  rewrite (cell_update_ne _ _ _ _ _ _ _ Hb2 Hne').
  destruct (H01 _ _ Hne') as [E|E]; rewrite E, Hp; done.
Qed.

Lemma C10_cleared_cells_witness :
  cell (board promoted_state) 1 5 = Some (mkPiece NONE PLAYER1 false)
  ∧ cleared_outside 3 7 (board promotion_state) (board promoted_state).
Proof.
  apply (C10_cleared_cells_keep_fields promotion_state 3 7 promoted_state man1).
  - apply wf_promotion_state.
  - split; [reflexivity|]. split; [right|]; reflexivity.
  - reflexivity.
  - reflexivity.
  - discriminate.
Defined.

(** ** Mobility: the tests of CheckGameOver against the generator *)

Lemma within_spec limit c d :
  d ≠ 0 → 0 ≤ c < limit →
  within limit c d = Some (bool_decide (0 ≤ c + d < limit)).
Proof.
  intros Hd Hc. unfold within. f_equal.
  destruct (d >? 0) eqn:Hpos; case_bool_decide; lia.
Qed.

Lemma in_bounds_decide x y :
  in_bounds x y = bool_decide (0 ≤ y < ROWS) && bool_decide (0 ≤ x < COLS).
Proof.
  unfold in_bounds. repeat case_bool_decide; lia.
Qed.

Lemma step_free_spec b x y dx dy :
  wf_board b → in_bounds x y = true → dir_ok dx → dir_ok dy →
  step_free b x y dx dy = Some (emptyb b (x + dx) (y + dy)).
Proof.
  intros Hwf Hin Hdx Hdy. unfold step_free, emptyb.
  apply in_bounds_spec in Hin. unfold dir_ok in *.
  rewrite !within_spec by (unfold ROWS, COLS; lia).
  destruct (in_bounds (x + dx) (y + dy)) eqn:Hin'.
  - destruct (cell_is_Some _ _ _ Hwf Hin') as [c Hc]. rewrite Hc.
    rewrite in_bounds_decide in Hin'.
    apply andb_true_iff in Hin' as [-> ->]. done.
  - rewrite (cell_out _ _ _ Hin'). rewrite in_bounds_decide in Hin'.
    by destruct (bool_decide (0 ≤ y + dy < ROWS)),
                (bool_decide (0 ≤ x + dx < COLS)).
Qed.

Lemma jump_free_spec b opponent x y dx dy :
  wf_board b → in_bounds x y = true → dir_ok dx → dir_ok dy →
  jump_free b opponent x y dx dy
  = Some (recorded_owner b opponent (x + dx) (y + dy)
          && emptyb b (x + 2 * dx) (y + 2 * dy)).
Proof.
  intros Hwf Hin Hdx Hdy. unfold jump_free, emptyb, recorded_owner.
  apply in_bounds_spec in Hin. unfold dir_ok in *.
  rewrite !within_spec by (unfold ROWS, COLS; lia).
  destruct (in_bounds (x + 2 * dx) (y + 2 * dy)) eqn:Hin2.
  - destruct (cell_is_Some _ _ _ Hwf Hin2) as [c2 Hc2]. rewrite Hc2.
    assert (in_bounds (x + dx) (y + dy) = true) as Hin1.
    { apply in_bounds_spec. apply in_bounds_spec in Hin2. lia. }
    destruct (cell_is_Some _ _ _ Hwf Hin1) as [c1 Hc1]. rewrite Hc1.
    rewrite in_bounds_decide in Hin2.
    apply andb_true_iff in Hin2 as [-> ->]. simpl.
    by destruct (same_player (player c1) opponent).
  - rewrite (cell_out _ _ _ Hin2). rewrite in_bounds_decide in Hin2.
    rewrite andb_false_r.
    by destruct (bool_decide (0 ≤ y + 2 * dy < ROWS)),
                (bool_decide (0 ≤ x + 2 * dx < COLS)).
Qed.

Lemma nonempty_app {A} (l k : list A) :
  nonempty (l ++ k) = nonempty l || nonempty k.
Proof. by destruct l. Qed.

Lemma same_player_other p q :
  same_player p (other q) = negb (same_player p q).
Proof. by destruct p, q. Qed.

Lemma in_bounds_between x y dx dy :
  in_bounds x y = true → dir_ok dx → dir_ok dy →
  in_bounds (x + 2 * dx) (y + 2 * dy) = true →
  in_bounds (x + dx) (y + dy) = true.
Proof.
  rewrite !in_bounds_spec. unfold dir_ok. lia.
Qed.

Lemma regular_ray_open b piece x y d :
  wf_board b → in_bounds x y = true → dir_ok (fst d) → dir_ok (snd d) →
  nonempty (regular_ray b piece false x y d)
  = open_dir b (player piece) x y (fst d) (snd d).
Proof.
  intros Hwf Hin Hdx Hdy. unfold regular_ray, open_dir, emptyb, recorded_owner.
  destruct (cell b (x + fst d) (y + snd d)) as [n|] eqn:Hn.
  - rewrite same_player_other.
    destruct (cell b (x + 2 * fst d) (y + 2 * snd d)) as [c|].
    + by destruct (is_NONE (type n)), (is_NONE (type c)),
                  (same_player (player n) (player piece)).
    + by destruct (is_NONE (type n)), (same_player (player n) (player piece)).
  - destruct (cell b (x + 2 * fst d) (y + 2 * snd d)) as [c|] eqn:Hc; [|done].
    apply cell_in_bounds in Hc.
    pose proof (in_bounds_between _ _ _ _ Hin Hdx Hdy Hc) as Hadj.
    destruct (cell_is_Some _ _ _ Hwf Hadj) as [n Hn']. congruence.
Qed.

Lemma king_ray_open b piece x y dx dy :
  wf_board b → in_bounds x y = true → dir_ok dx → dir_ok dy →
  nonempty (king_ray SCAN_FUEL b piece false dx dy x y false)
  = open_dir b (player piece) x y dx dy.
Proof.
  intros Hwf Hin Hdx Hdy.
  unfold SCAN_FUEL, open_dir, emptyb, recorded_owner.
  rewrite king_ray_S.
  replace (x + 2 * dx) with (x + dx + dx) by lia.
  replace (y + 2 * dy) with (y + dy + dy) by lia.
  destruct (cell b (x + dx) (y + dy)) as [n|] eqn:Hn.
  - rewrite same_player_other.
    destruct (is_NONE (type n)); [done|].
    destruct (same_player (player n) (player piece)); [done|]. simpl.
    rewrite king_ray_S.
    destruct (cell b (x + dx + dx) (y + dy + dy)) as [c|]; [|done].
    destruct (is_NONE (type c)); [done|].
    by destruct (same_player (player c) (player piece)).
  - destruct (cell b (x + dx + dx) (y + dy + dy)) as [c|] eqn:Hc; [|done].
    apply cell_in_bounds in Hc.
    replace (x + dx + dx) with (x + 2 * dx) in Hc by lia.
    replace (y + dy + dy) with (y + 2 * dy) in Hc by lia.
    pose proof (in_bounds_between _ _ _ _ Hin Hdx Hdy Hc) as Hadj.
    destruct (cell_is_Some _ _ _ Hwf Hadj) as [n Hn']. congruence.
Qed.

(** A piece has a candidate exactly when one of its directions is open. *)
Lemma moves_of_open b x y piece :
  wf_board b → cell b x y = Some piece →
  nonempty (moves_of b x y false)
  = if isKing piece then
      open_dir b (player piece) x y 1 1 || open_dir b (player piece) x y (-1) 1
      || open_dir b (player piece) x y 1 (-1)
      || open_dir b (player piece) x y (-1) (-1)
    else
      open_dir b (player piece) x y 1 (forward (player piece))
      || open_dir b (player piece) x y (-1) (forward (player piece)).
Proof.
  intros Hwf Hp. pose proof (cell_in_bounds _ _ _ _ Hp) as Hin.
  unfold moves_of. rewrite Hp.
  destruct (isKing piece).
  - unfold king_directions. cbn [map concat fst snd].
    rewrite !nonempty_app, !king_ray_open by (unfold dir_ok; auto).
    simpl. by rewrite !orb_false_r, !orb_assoc.
  - rewrite regular_directions_forward. cbn [map concat].
    rewrite !nonempty_app, !regular_ray_open;
      try (unfold dir_ok; simpl; auto using forward_cases); try done.
    simpl. by rewrite !orb_false_r.
Qed.

Lemma has_candidates_spec gs x y :
  wf_state gs → in_bounds x y = true →
  has_candidates gs x y = nonempty (moves_of (board gs) x y false).
Proof.
  intros Hwf Hin. unfold has_candidates.
  destruct (FindValidMoves_spec gs x y false Hwf Hin)
    as (gs' & -> & _ & Hok & Hc).
  pose proof (candidates_length gs' Hok) as Hlen. rewrite Hc in Hlen.
  destruct (moves_of (board gs) x y false) as [|m ms]; simpl in *.
  - destruct Hok. lia.
  - destruct Hok. lia.
Qed.

Lemma or_else_Some a b : (Some a ||| Some b) = Some (a || b).
Proof. by destruct a. Qed.

Lemma piece_has_moves_spec b x y c :
  wf_board b → cell b x y = Some c →
  isKing c = is_KING (type c) →
  piece_has_moves b (player c) (type c) x y
  = Some (nonempty (moves_of b x y false)).
Proof.
  intros Hwf Hc Hrank. pose proof (cell_in_bounds _ _ _ _ Hc) as Hin.
  rewrite (moves_of_open _ _ _ _ Hwf Hc), Hrank.
  unfold piece_has_moves, open_dir.
  pose proof (forward_cases (player c)) as Hf.
  rewrite !step_free_spec, !jump_free_spec by (unfold dir_ok; auto).
  rewrite !or_else_Some. cbn [bind].
  change (2 * 1) with 2. change (2 * -1) with (-2).
  destruct (is_KING (type c)).
  - rewrite ?or_else_Some. cbn [bind]. f_equal.
    destruct (player c); simpl; norm_coords; btauto.
  - f_equal. destruct (player c); simpl; norm_coords; btauto.
Qed.

(** ** The tally of CheckGameOver *)

Lemma ranks_consistent_cell b x y c :
  ranks_consistent b → cell b x y = Some c → type c ≠ NONE →
  isKing c = is_KING (type c).
Proof.
  intros Hranks Hc. unfold cell in Hc.
  destruct (in_bounds x y); [|done].
  apply bind_Some in Hc as (row & Hrow & Hc).
  eapply (proj1 (Forall_lookup _ _)) in Hrow; [|exact Hranks].
  by eapply (proj1 (Forall_lookup _ _)) in Hc; [|exact Hrow].
Qed.

Lemma tally_cell_spec b y x t :
  wf_board b → ranks_consistent b → in_bounds x y = true →
  tally_cell b y x t
  = Some (mkTally
            (player1Pieces t + (if owned_by b PLAYER1 x y then 1 else 0))
            (player2Pieces t + (if owned_by b PLAYER2 x y then 1 else 0))
            (player1HasMoves t || (owned_by b PLAYER1 x y && movable b x y))
            (player2HasMoves t || (owned_by b PLAYER2 x y && movable b x y))).
Proof.
  intros Hwf Hranks Hin. unfold tally_cell, owned_by, movable.
  destruct (cell_is_Some _ _ _ Hwf Hin) as [c Hc]. rewrite Hc. cbn [bind].
  destruct (is_NONE (type c)) eqn:Ht; simpl.
  { destruct t. simpl. by rewrite !Z.add_0_r, !orb_false_r. }
  apply is_NONE_false in Ht.
  pose proof (piece_has_moves_spec _ _ _ _ Hwf Hc
                (ranks_consistent_cell _ _ _ _ Hranks Hc Ht)) as Hm.
  destruct (player c) eqn:Hpl; simpl.
  - rewrite Z.add_0_r, orb_false_r.
    destruct (player1HasMoves t) eqn:Hh; simpl; [by destruct t|].
    by rewrite Hm.
  - rewrite Z.add_0_r, orb_false_r.
    destruct (player2HasMoves t) eqn:Hh; simpl; [by destruct t|].
    by rewrite Hm.
Qed.

Lemma tally_row_spec b y :
  wf_board b → ranks_consistent b →
  ∀ xs t, (∀ x, x ∈ xs → in_bounds x y = true) →
  for_each (tally_cell b y) xs t
  = Some (mkTally
            (player1Pieces t
             + sum_Z (λ x, if owned_by b PLAYER1 x y then 1 else 0) xs)
            (player2Pieces t
             + sum_Z (λ x, if owned_by b PLAYER2 x y then 1 else 0) xs)
            (player1HasMoves t
             || existsb (λ x, owned_by b PLAYER1 x y && movable b x y) xs)
            (player2HasMoves t
             || existsb (λ x, owned_by b PLAYER2 x y && movable b x y) xs)).
Proof.
  intros Hwf Hranks xs. induction xs as [|x xs IH]; intros t Hxs.
  - destruct t. simpl. by rewrite !Z.add_0_r, !orb_false_r.
  - cbn [for_each sum_Z existsb].
    rewrite tally_cell_spec by (try done; apply Hxs; left).
    cbn [bind]. rewrite IH by (intros; apply Hxs; by right).
    simpl. by rewrite !Z.add_assoc, !orb_assoc.
Qed.

Lemma tally_rows_spec b :
  wf_board b → ranks_consistent b →
  ∀ ys t, (∀ y, y ∈ ys → 0 ≤ y < 8) →
  for_each (λ y t, for_each (tally_cell b y) (seqZ 0 COLS) t) ys t
  = Some (mkTally
            (player1Pieces t
             + sum_Z (λ y, sum_Z (λ x, if owned_by b PLAYER1 x y then 1 else 0)
                             (seqZ 0 COLS)) ys)
            (player2Pieces t
             + sum_Z (λ y, sum_Z (λ x, if owned_by b PLAYER2 x y then 1 else 0)
                             (seqZ 0 COLS)) ys)
            (player1HasMoves t
             || existsb (λ y, existsb (λ x, owned_by b PLAYER1 x y
                                           && movable b x y) (seqZ 0 COLS)) ys)
            (player2HasMoves t
             || existsb (λ y, existsb (λ x, owned_by b PLAYER2 x y
                                           && movable b x y) (seqZ 0 COLS)) ys)).
Proof.
  intros Hwf Hranks ys. induction ys as [|y ys IH]; intros t Hys.
  - destruct t. simpl. by rewrite !Z.add_0_r, !orb_false_r.
  - cbn [for_each sum_Z existsb].
    rewrite tally_row_spec; try done.
    2:{ intros x Hx%elem_of_seqZ. apply in_bounds_spec.
        specialize (Hys y ltac:(left)). unfold COLS in Hx. lia. }
    cbn [bind]. rewrite IH by (intros; apply Hys; by right).
    simpl. by rewrite !Z.add_assoc, !orb_assoc.
Qed.

Lemma existsb_ext_in {A} (f g : A → bool) l :
  (∀ a, a ∈ l → f a = g a) → existsb f l = existsb g l.
Proof.
  induction l as [|a l IH]; intros H; [done|]. simpl.
  rewrite (H a) by left. rewrite IH; [done|]. intros; apply H; by right.
Qed.

Lemma can_move_spec gs p :
  wf_state gs →
  can_move gs p
  = existsb (λ y, existsb (λ x, owned_by (board gs) p x y
                                && movable (board gs) x y) (seqZ 0 COLS))
            (seqZ 0 ROWS).
Proof.
  intros Hwf. unfold can_move.
  apply existsb_ext_in. intros y Hy%elem_of_seqZ.
  apply existsb_ext_in. intros x Hx%elem_of_seqZ.
  rewrite has_candidates_spec; [done|done|].
  apply in_bounds_spec. unfold COLS, ROWS in *. lia.
Qed.

(** ** C3 *)

(** C3: on an 8 by 8 board whose pieces have their two records of rank in
    agreement (as on every board the game reaches, [game_invariant]), the
    evaluation first looks at the piece counts - PLAYER2 wins when PLAYER1
    has no piece, PLAYER1 wins when PLAYER2 has none - and only then at
    mobility: the opponent of the player to move wins when no piece of the
    player to move has a candidate from the generator (for a man the forward
    moves and jumps, for a king the moves and captures along the four
    diagonals); otherwise the game goes on. *)
Theorem C3_game_over_evaluation (gs : GameState) (playerToMove : Player) :
  wf_state gs → ranks_consistent (board gs) →
  CheckGameOver gs playerToMove
  = Some (if count_pieces PLAYER1 (board gs) =? 0 then Win PLAYER2
          else if count_pieces PLAYER2 (board gs) =? 0 then Win PLAYER1
          else if can_move gs playerToMove then Ongoing
          else Win (other playerToMove)).
Proof.
  intros Hwf Hranks. unfold CheckGameOver, tally_board.
  rewrite tally_rows_spec; [|apply Hwf|done|].
  2:{ intros y Hy%elem_of_seqZ. unfold ROWS in Hy. lia. }
  cbn [bind player1Pieces player2Pieces player1HasMoves player2HasMoves].
  rewrite !Z.add_0_l, !orb_false_l.
  fold (count_pieces PLAYER1 (board gs)). fold (count_pieces PLAYER2 (board gs)).
  rewrite <- !can_move_spec by done.
  destruct (count_pieces PLAYER1 (board gs) =? 0); [done|].
  destruct (count_pieces PLAYER2 (board gs) =? 0); [done|].
  destruct playerToMove; simpl.
  - by destruct (can_move gs PLAYER1).
  - by destruct (can_move gs PLAYER2).
Qed.

Lemma C3_game_over_witness :
  CheckGameOver blocked_state PLAYER1
  = Some (if count_pieces PLAYER1 (board blocked_state) =? 0 then Win PLAYER2
          else if count_pieces PLAYER2 (board blocked_state) =? 0
               then Win PLAYER1
          else if can_move blocked_state PLAYER1 then Ongoing
          else Win (other PLAYER1)).
Proof.
  apply (C3_game_over_evaluation blocked_state PLAYER1).
  - solve_wf.
  - apply (bool_decide_unpack _). vm_compute. exact I.
Defined.

(** In that position PLAYER1 still has a piece and loses for want of a move;
    with PLAYER2 to move the game goes on. *)
Example blocked_player_loses :
  CheckGameOver blocked_state PLAYER1 = Some (Win PLAYER2)
  ∧ count_pieces PLAYER1 (board blocked_state) = 1
  ∧ CheckGameOver blocked_state PLAYER2 = Some Ongoing.
Proof. repeat split; vm_compute; reflexivity. Qed.

(** ** Where a candidate lies *)

Lemma king_ray_reach b piece after sx sy dx dy pos :
  ∀ fuel i (found : bool),
  0 ≤ i →
  (if found
   then capture_reach b (player piece) sx sy dx dy (i + 1)
   else clear_run b sx sy dx dy (i + 1)) →
  pos ∈ king_ray fuel b piece after dx dy (sx + i * dx) (sy + i * dy) found →
  ∃ k, i < k ∧ pos = mkPosition (sx + k * dx) (sy + k * dy)
    ∧ empty_at b (sx + k * dx) (sy + k * dy)
    ∧ ((after = false ∧ clear_run b sx sy dx dy k)
       ∨ capture_reach b (player piece) sx sy dx dy k).
Proof.
  intros fuel. induction fuel as [|fuel IH]; intros i found Hi Hpath Hpos.
  { by apply elem_of_nil in Hpos. }
  rewrite king_ray_S in Hpos.
  replace (sx + i * dx + dx) with (sx + (i + 1) * dx) in Hpos by lia.
  replace (sy + i * dy + dy) with (sy + (i + 1) * dy) in Hpos by lia.
  destruct (cell b (sx + (i + 1) * dx) (sy + (i + 1) * dy)) as [c|] eqn:Hc.
  2:{ by apply elem_of_nil in Hpos. }
  destruct (is_NONE (type c)) eqn:Ht.
  - apply is_NONE_true in Ht.
    assert (empty_at b (sx + (i + 1) * dx) (sy + (i + 1) * dy)) as Hempty
      by (by exists c).
    destruct found.
    + apply list_elem_of_singleton in Hpos as ->.
      exists (i + 1). split; [lia|]. split; [done|]. split; [done|].
      by right.
    + assert (clear_run b sx sy dx dy (i + 1 + 1)) as Hrun'.
      { intros j Hj. destruct (decide (j = i + 1)) as [->|]; [done|].
        apply Hpath. lia. }
      destruct after; simpl in Hpos.
      * apply (IH (i + 1) false) in Hpos as (k & ? & ? & ? & ?);
          [|lia|done]. exists k. split; [lia|]. done.
      * apply elem_of_cons in Hpos as [-> | Hpos].
        -- exists (i + 1). split; [lia|]. split; [done|]. split; [done|].
           left. split; [done|]. intros j Hj. apply Hpath. lia.
        -- apply (IH (i + 1) false) in Hpos as (k & ? & ? & ? & ?);
             [|lia|done]. exists k. split; [lia|]. done.
  - apply is_NONE_false in Ht.
    destruct (same_player (player c) (player piece)) eqn:Hpl; simpl in Hpos.
    { by apply elem_of_nil in Hpos. }
    apply same_player_false in Hpl.
    destruct found; simpl in Hpos.
    { by apply elem_of_nil in Hpos. }
    apply (IH (i + 1) true) in Hpos as (k & ? & ? & ? & ?); [|lia|].
    + exists k. split; [lia|]. done.
    + split; [lia|]. replace (i + 1 + 1 - 1) with (i + 1) by lia.
      split; [done|]. by exists c.
Qed.

Lemma elem_of_concat_map {A B} (f : A → list B) (l : list A) (x : B) :
  x ∈ concat (map f l) ↔ ∃ a, a ∈ l ∧ x ∈ f a.
Proof.
  induction l as [|a l IH]; simpl.
  - rewrite elem_of_nil. split; [done|]. by intros (a & ?%elem_of_nil & _).
  - rewrite elem_of_app, IH. split.
    + intros [Hx | (a' & Ha' & Hx)]; [exists a | exists a']; split;
        try done; by constructor.
    + intros (a' & [-> | Ha']%elem_of_cons & Hx); eauto.
Qed.

Lemma elem_of_king_directions d :
  d ∈ king_directions → dir_ok (fst d) ∧ dir_ok (snd d).
Proof.
  intros Hd. by eapply (proj1 (Forall_forall _ _) king_directions_ok).
Qed.

(** Every candidate of the generator lies on a diagonal through the source,
    on an empty cell, behind empty cells only (a simple move, offered on a
    fresh selection only) or behind empty cells and one piece of the
    opponent next to it (a capture); a regular piece goes forward, one cell
    for a simple move and two for a capture. *)
Lemma candidate_reach b sx sy p after pos :
  cell b sx sy = Some p → pos ∈ moves_of b sx sy after →
  ∃ dx dy k, dir_ok dx ∧ dir_ok dy ∧ 1 ≤ k
    ∧ pos = mkPosition (sx + k * dx) (sy + k * dy)
    ∧ empty_at b (sx + k * dx) (sy + k * dy)
    ∧ ((after = false ∧ clear_run b sx sy dx dy k)
       ∨ capture_reach b (player p) sx sy dx dy k)
    ∧ (isKing p = false → k ≤ 2).
Proof.
  intros Hp Hpos. unfold moves_of in Hpos. rewrite Hp in Hpos.
  destruct (isKing p) eqn:Hking.
  - apply elem_of_concat_map in Hpos as (d & Hd & Hpos).
    apply elem_of_king_directions in Hd as [Hdx Hdy].
    assert (pos ∈ king_ray SCAN_FUEL b p after (fst d) (snd d)
                    (sx + 0 * fst d) (sy + 0 * snd d) false) as Hpos'
      by (by rewrite !Z.mul_0_l, !Z.add_0_r).
    apply king_ray_reach in Hpos' as (k & Hk & -> & Hempty & Hcase);
      [|lia|intros j Hj; lia].
    exists (fst d), (snd d), k. repeat split; try done. lia.
  - apply elem_of_concat_map in Hpos as (d & Hd & Hpos).
    rewrite regular_directions_forward in Hd.
    assert (dir_ok (fst d) ∧ dir_ok (snd d)) as [Hdx Hdy].
    { pose proof (forward_cases (player p)).
      apply elem_of_cons in Hd as [-> | Hd];
        [|apply list_elem_of_singleton in Hd as ->]; unfold dir_ok; simpl; auto. }
    apply elem_of_regular_ray in Hpos
      as [(-> & -> & Hempty) | (-> & Hopp & Hempty)].
    + exists (fst d), (snd d), 1. rewrite !Z.mul_1_l.
      repeat split; try done; try lia. left. split; [done|].
      intros j Hj. lia.
    + exists (fst d), (snd d), 2. repeat split; try done; try lia.
      right. split; [lia|]. replace (2 - 1) with 1 by lia.
      rewrite !Z.mul_1_l. split; [|done]. intros j Hj. lia.
Qed.

(** ** The capture of a king along its way *)

Lemma king_capture_clear gs sx sy dx dy k :
  dir_ok dx → dir_ok dy →
  clear_run (board gs) sx sy dx dy k →
  ∀ fuel i, 1 ≤ i ≤ k → k - i < Z.of_nat fuel →
  king_capture fuel (sx + k * dx) (sy + k * dy) dx dy
    (sx + i * dx) (sy + i * dy) gs
  = Some (gs, false).
Proof.
  intros Hdx Hdy Hrun fuel.
  induction fuel as [|fuel IH]; intros i Hi Hfuel; [lia|].
  cbn [king_capture].
  destruct (decide (i = k)) as [->|Hne].
  { by rewrite Z.eqb_refl. }
  rewrite (proj2 (Z.eqb_neq (sx + i * dx) (sx + k * dx)))
    by (destruct Hdx as [-> | ->]; lia).
  rewrite (proj2 (Z.eqb_neq (sy + i * dy) (sy + k * dy)))
    by (destruct Hdy as [-> | ->]; lia).
  cbn [negb andb].
  destruct (Hrun i ltac:(lia)) as (c & -> & Ht). cbn [bind].
  rewrite Ht. cbn [is_NONE negb andb].
  replace (sx + i * dx + dx) with (sx + (i + 1) * dx) by lia.
  replace (sy + i * dy + dy) with (sy + (i + 1) * dy) by lia.
  apply IH; lia.
Qed.

Lemma king_capture_hit gs sx sy dx dy k :
  dir_ok dx → dir_ok dy →
  capture_reach (board gs) (currentPlayer gs) sx sy dx dy k →
  mover_score gs < INT_MAX →
  ∃ b1 gs1,
    update_cell (board gs) (sx + (k - 1) * dx) (sy + (k - 1) * dy)
      (set_type NONE) = Some b1
    ∧ add_score (set_board gs b1) = Some gs1
    ∧ ∀ fuel i, 1 ≤ i ≤ k - 1 → k - i ≤ Z.of_nat fuel →
        king_capture fuel (sx + k * dx) (sy + k * dy) dx dy
          (sx + i * dx) (sy + i * dy) gs
        = Some (gs1, true).
Proof.
  intros Hdx Hdy (Hk & Hrun & (o & Ho & Hto & Hpo)) Hscore.
  destruct (update_cell_is_Some (board gs) (sx + (k - 1) * dx)
              (sy + (k - 1) * dy) (set_type NONE)
              (cell_in_bounds _ _ _ _ Ho)) as [b1 Hb1].
  assert (∃ gs1, add_score (set_board gs b1) = Some gs1) as [gs1 Hgs1].
  { unfold add_score, incr, mover_score in *. simpl.
    destruct (currentPlayer gs); simpl;
      rewrite (proj2 (Z.ltb_lt _ _) Hscore); simpl; eauto. }
  exists b1, gs1. split; [done|]. split; [done|].
  intros fuel. induction fuel as [|fuel IH]; intros i Hi Hfuel; [lia|].
  cbn [king_capture].
  rewrite (proj2 (Z.eqb_neq (sx + i * dx) (sx + k * dx)))
    by (destruct Hdx as [-> | ->]; lia).
  rewrite (proj2 (Z.eqb_neq (sy + i * dy) (sy + k * dy)))
    by (destruct Hdy as [-> | ->]; lia).
  cbn [negb andb].
  destruct (decide (i = k - 1)) as [->|Hne].
  - rewrite Ho. cbn [bind].
    apply is_NONE_false in Hto. apply same_player_false in Hpo.
    rewrite Hto, Hpo. cbn [negb andb]. rewrite Hb1. cbn [bind].
    by rewrite Hgs1.
  - destruct (Hrun i ltac:(lia)) as (c & -> & Ht). cbn [bind].
    rewrite Ht. cbn [is_NONE negb andb].
    replace (sx + i * dx + dx) with (sx + (i + 1) * dx) by lia.
    replace (sy + i * dy + dy) with (sy + (i + 1) * dy) by lia.
    apply IH; lia.
Qed.

Lemma additional_capture_total gs x y d :
  wf_board (board gs) → in_bounds x y = true →
  dir_ok (fst d) → dir_ok (snd d) →
  ∃ r, additional_capture_at gs x y d = Some r.
Proof.
  intros Hwf Hin Hdx Hdy. unfold additional_capture_at.
  destruct ((x + fst d * 2 >=? 0) && (x + fst d * 2 <? COLS)
            && (y + snd d * 2 >=? 0) && (y + snd d * 2 <? ROWS)) eqn:Hg;
    [|eauto].
  assert (in_bounds (x + 2 * fst d) (y + 2 * snd d) = true) as Hin2.
  { apply in_bounds_spec. unfold COLS, ROWS in Hg. lia. }
  replace (x + fst d * 2) with (x + 2 * fst d) by lia.
  replace (y + snd d * 2) with (y + 2 * snd d) by lia.
  destruct (cell_is_Some _ _ _ Hwf Hin2) as [n ->]. cbn [bind].
  destruct (is_NONE (type n)); [|eauto].
  destruct (cell_is_Some _ _ _ Hwf
              (in_bounds_between _ _ _ _ Hin Hdx Hdy Hin2)) as [a ->].
  cbn [bind]. eauto.
Qed.

Lemma lookahead_total gs x y :
  wf_board (board gs) → in_bounds x y = true →
  ∃ r, first_true (additional_capture_at gs x y) lookahead_directions
       = Some r.
Proof.
  intros Hwf Hin. unfold lookahead_directions. cbn [first_true].
  repeat match goal with
         | |- context [additional_capture_at gs x y ?d] =>
           let r := fresh "r" in
           let Hr := fresh "Hr" in
           destruct (additional_capture_total gs x y d Hwf Hin) as [r Hr];
           [unfold dir_ok; simpl; auto..|];
           rewrite Hr; cbn [bind]; destruct r; [eauto|]
         end.
  eauto.
Qed.

(** ** Counting pieces across a write *)

Lemma sum_Z_ext_in f g l :
  (∀ a, a ∈ l → f a = g a) → sum_Z f l = sum_Z g l.
Proof.
  induction l as [|a l IH]; intros H; [done|]. simpl.
  rewrite (H a) by left. rewrite IH; [done|]. intros; apply H; by right.
Qed.

Lemma sum_Z_change f g l a0 :
  NoDup l → a0 ∈ l → (∀ a, a ∈ l → a ≠ a0 → g a = f a) →
  sum_Z g l = sum_Z f l - f a0 + g a0.
Proof.
  induction l as [|a l IH]; intros Hnd Hin Hext.
  { by apply elem_of_nil in Hin. }
  apply NoDup_cons in Hnd as [Hnotin Hnd]. simpl.
  destruct (decide (a = a0)) as [->|Hne].
  - rewrite (sum_Z_ext_in g f l); [lia|].
    intros a Ha. apply Hext; [by right|]. intros ->. done.
  - apply elem_of_cons in Hin as [-> | Hin]; [done|].
    rewrite IH; [|done|done|intros; apply Hext; [by right|done]].
    rewrite (Hext a); [lia|by left|done].
Qed.

Lemma owned_by_update_eq b p x y f b' c :
  update_cell b x y f = Some b' → cell b x y = Some c →
  owned_by b' p x y = is_owned p (f c) ∧ owned_by b p x y = is_owned p c.
Proof.
  intros Hup Hc. unfold owned_by.
  by rewrite (cell_update_eq _ _ _ _ _ Hup), Hc.
Qed.

Lemma owned_by_update_ne b p x y f b' x' y' :
  update_cell b x y f = Some b' → (x', y') ≠ (x, y) →
  owned_by b' p x' y' = owned_by b p x' y'.
Proof.
  intros Hup Hne. unfold owned_by.
  by rewrite (cell_update_ne _ _ _ _ _ _ _ Hup Hne).
Qed.

Lemma count_update p b x y f b' c :
  update_cell b x y f = Some b' → cell b x y = Some c →
  count_pieces p b'
  = count_pieces p b - (if is_owned p c then 1 else 0)
    + (if is_owned p (f c) then 1 else 0).
Proof.
  intros Hup Hc. pose proof (cell_in_bounds _ _ _ _ Hc) as Hin.
  apply in_bounds_spec in Hin.
  destruct (owned_by_update_eq _ p _ _ _ _ _ Hup Hc) as [Hnew Hold].
  unfold count_pieces.
  set (F := λ b0 y0, sum_Z (λ x0, if owned_by b0 p x0 y0 then 1 else 0)
                       (seqZ 0 COLS)).
  change (sum_Z (F b') (seqZ 0 ROWS)
          = sum_Z (F b) (seqZ 0 ROWS) - (if is_owned p c then 1 else 0)
            + (if is_owned p (f c) then 1 else 0)).
  assert (F b' y = F b y - (if is_owned p c then 1 else 0)
                   + (if is_owned p (f c) then 1 else 0)) as Hy.
  { unfold F.
    rewrite (sum_Z_change (λ x0, if owned_by b p x0 y then 1 else 0)
               (λ x0, if owned_by b' p x0 y then 1 else 0) (seqZ 0 COLS) x).
    - cbv beta. by rewrite Hnew, Hold.
    - apply NoDup_seqZ.
    - apply elem_of_seqZ. unfold COLS. lia.
    - intros x' _ Hne. cbv beta.
      rewrite (owned_by_update_ne _ _ _ _ _ _ x' y Hup); [done|]. congruence. }
  rewrite (sum_Z_change (F b) (F b') (seqZ 0 ROWS) y).
  - rewrite Hy. lia.
  - apply NoDup_seqZ.
  - apply elem_of_seqZ. unfold ROWS. lia.
  - intros y' _ Hne. unfold F. apply sum_Z_ext_in. intros x' _.
    rewrite (owned_by_update_ne _ _ _ _ _ _ x' y' Hup); [done|]. congruence.
Qed.

(** ** IsValidMove *)

Lemma valid_move_from_spec vm ex ey :
  ∀ n i, (i + n ≤ length vm)%nat →
  valid_move_from vm i n ex ey
  = Some (bool_decide (mkPosition ex ey ∈ take n (drop i vm))).
Proof.
  intros n. induction n as [|n IH]; intros i Hlen.
  { done. }
  cbn [valid_move_from].
  destruct (lookup_lt_is_Some_2 vm i) as [m Hm]; [lia|].
  rewrite Hm. cbn [bind]. rewrite (drop_S _ _ _ Hm). cbn [take].
  destruct ((pos_x m =? ex) && (pos_y m =? ey)) eqn:Heq.
  - apply andb_true_iff in Heq as [Hx%Z.eqb_eq Hy%Z.eqb_eq].
    rewrite bool_decide_eq_true_2; [done|].
    destruct m. simpl in *. subst. by left.
  - rewrite IH by lia. f_equal.
    assert (m ≠ mkPosition ex ey) as Hne.
    { intros ->. simpl in Heq. by rewrite !Z.eqb_refl in Heq. }
    apply bool_decide_ext. rewrite elem_of_cons. naive_solver.
Qed.

Lemma IsValidMove_spec gs sx sy x y :
  moves_ok gs →
  IsValidMove gs sx sy x y
  = Some (bool_decide (mkPosition x y ∈ candidates gs)).
Proof.
  intros [Hlen Hcnt]. unfold IsValidMove, candidates.
  rewrite valid_move_from_spec by lia. by rewrite drop_0.
Qed.

(** ** The move of the piece *)

Lemma PromoteToKing_total gs x y :
  in_bounds x y = true →
  ∃ gs', PromoteToKing gs x y = Some gs'
    ∧ (gs' = gs
       ∨ ∃ b', update_cell (board gs) x y crown = Some b'
               ∧ gs' = set_board gs b').
Proof.
  intros Hin. unfold PromoteToKing.
  destruct (update_cell_is_Some (board gs) x y crown Hin) as [b' Hup].
  rewrite Hup. cbn [bind].
  destruct (same_player (currentPlayer gs) PLAYER1 && (y =? ROWS - 1));
    [eauto 6|].
  destruct (same_player (currentPlayer gs) PLAYER2 && (y =? 0)); eauto 6.
Qed.

Lemma is_owned_crown pl p : type p ≠ NONE → is_owned pl (crown p) = is_owned pl p.
Proof. unfold is_owned. by destruct p as [[] ? ?]. Qed.

Lemma finish_move_spec gs sx sy x y isCapture p :
  wf_state gs →
  cell (board gs) sx sy = Some p → type p ≠ NONE →
  empty_at (board gs) x y →
  ∃ gs', finish_move gs sx sy x y isCapture = Some gs'
    ∧ wf_state gs'
    ∧ cell (board gs') sx sy = Some (set_type NONE p)
    ∧ (cell (board gs') x y = Some p ∨ cell (board gs') x y = Some (crown p))
    ∧ (∀ cx cy, (cx, cy) ≠ (sx, sy) → (cx, cy) ≠ (x, y) →
         cell (board gs') cx cy = cell (board gs) cx cy)
    ∧ (∀ pl, count_pieces pl (board gs') = count_pieces pl (board gs))
    ∧ player1Score gs' = player1Score gs
    ∧ player2Score gs' = player2Score gs
    ∧ ((isCapture = true ∧ isCapturing gs' = isCapturing gs
        ∧ chain_continues_at x y (currentPlayer gs) gs'
        ∧ wf_state gs' ∧ FindValidMoves gs' x y true = Some gs')
       ∨ turn_passed_to (other (currentPlayer gs)) gs').
Proof.
  intros Hwf Hp Htp (e & He & Hte).
  assert ((sx, sy) ≠ (x, y)) as Hne by (intros [= -> ->]; congruence).
  assert ((x, y) ≠ (sx, sy)) as Hne' by congruence.
  pose proof (cell_in_bounds _ _ _ _ Hp) as Hins.
  pose proof (cell_in_bounds _ _ _ _ He) as Hind.
  unfold finish_move. rewrite Hp. cbn [bind].
  destruct (update_cell_is_Some (board gs) x y (λ _, p) Hind) as [b2 Hb2].
  rewrite Hb2. cbn [bind].
  destruct (update_cell_is_Some b2 sx sy (set_type NONE) Hins) as [b3 Hb3].
  rewrite Hb3. cbn [bind board set_board].
  assert (cell b2 sx sy = Some p) as Hb2s
    by (by rewrite (cell_update_ne _ _ _ _ _ _ _ Hb2 Hne)).
  assert (cell b2 x y = Some p) as Hb2d
    by (by rewrite (cell_update_eq _ _ _ _ _ Hb2), He).
  assert (cell b3 sx sy = Some (set_type NONE p)) as Hb3s
    by (by rewrite (cell_update_eq _ _ _ _ _ Hb3), Hb2s).
  assert (cell b3 x y = Some p) as Hb3d
    by (by rewrite (cell_update_ne _ _ _ _ _ _ _ Hb3 Hne')).
  rewrite Hb3s. cbn [bind isKing set_type].
  assert (wf_board b3) as Hwf3.
  { eapply wf_board_update; [|done]. eapply wf_board_update; [|done].
    apply Hwf. }
  assert (∀ pl, count_pieces pl b3 = count_pieces pl (board gs)) as Hcount3.
  { intros pl.
    rewrite (count_update pl _ _ _ _ _ _ Hb3 Hb2s).
    rewrite (count_update pl _ _ _ _ _ _ Hb2 He).
    unfold is_owned. simpl. rewrite Hte. simpl.
    destruct (negb (is_NONE (type p)) && same_player (player p) pl); lia. }
  assert (∀ cx cy, (cx, cy) ≠ (sx, sy) → (cx, cy) ≠ (x, y) →
            cell b3 cx cy = cell (board gs) cx cy) as Hother3.
  { intros cx cy H1 H2.
    by rewrite (cell_update_ne _ _ _ _ _ _ _ Hb3 H1),
               (cell_update_ne _ _ _ _ _ _ _ Hb2 H2). }
  destruct (PromoteToKing_total (set_board gs b3) x y Hind)
    as (gs4 & Hgs4 & Hcases).
  rewrite Hgs4. cbn [bind].
  assert (∃ d, cell (board gs4) x y = Some d ∧ (d = p ∨ d = crown p)
          ∧ cell (board gs4) sx sy = Some (set_type NONE p)
          ∧ (∀ cx cy, (cx, cy) ≠ (sx, sy) → (cx, cy) ≠ (x, y) →
               cell (board gs4) cx cy = cell (board gs) cx cy)
          ∧ (∀ pl, count_pieces pl (board gs4) = count_pieces pl (board gs))
          ∧ wf_state gs4 ∧ same_frame (set_board gs b3) (set_board gs4 b3)
          ∧ (isKing p = true → isKing d = true))
    as (d & Hd & Hdcase & Hs4 & Hother4 & Hcount4 & Hwf4 & Hfr4 & Hdk).
  { destruct Hcases as [-> | (b4 & Hb4 & ->)]; cbn [board set_board].
    - exists p. split; [done|]. split; [by left|]. split; [done|].
      split; [done|]. split; [done|].
      split; [by apply wf_state_set_board|].
      split; [apply same_frame_refl|done].
    - cbn [board set_board] in Hb4.
      exists (crown p). rewrite (cell_update_eq _ _ _ _ _ Hb4), Hb3d.
      rewrite (cell_update_ne _ _ _ _ _ _ _ Hb4 Hne).
      split; [done|]. split; [by right|]. split; [done|].
      split.
      { intros cx cy H1 H2.
        rewrite (cell_update_ne _ _ _ _ _ _ _ Hb4 H2). by apply Hother3. }
      split.
      { intros pl. rewrite (count_update pl _ _ _ _ _ _ Hb4 Hb3d).
        rewrite is_owned_crown by done. rewrite Hcount3. lia. }
      split.
      { apply wf_state_set_board; [by apply wf_state_set_board|].
        by eapply wf_board_update. }
      split; [by repeat split|intros _; reflexivity]. }
  rewrite Hd. cbn [bind].
  destruct Hfr4 as (_ & Hcur4 & Hs1 & Hs2 & _). simpl in Hcur4, Hs1, Hs2.
  destruct (negb (isKing p) && isKing d) eqn:Hpromo.
  - eexists. split; [done|].
    split; [split; [apply Hwf4 | apply Hwf4]|].
    cbn [board end_turn SwitchTurn
      set_currentPlayer set_isCapturing set_validMoveCount set_pieceSelected].
    split; [done|]. split; [destruct Hdcase as [-> | ->]; auto|].
    split; [done|]. split; [done|]. split; [done|]. split; [done|].
    right. repeat split. simpl. by rewrite Hcur4.
  - destruct (FindValidMoves_spec gs4 x y true Hwf4 Hind)
      as (gs5 & Hgs5 & Hfr5 & Hok5 & Hc5).
    rewrite Hgs5. cbn [bind].
    destruct Hfr5 as (Hb5 & Hcur5 & Hs15 & Hs25 & _ & _ & _ & Hcap5).
    destruct (isCapture && (validMoveCount gs5 >? 0)) eqn:Hchain.
    + eexists. split; [done|].
      split; [split; simpl; [rewrite Hb5; apply Hwf4 | apply Hok5]|].
      cbn [board set_selected set_pieceSelected].
      rewrite Hb5. split; [done|].
      split; [destruct Hdcase as [-> | ->]; auto|].
      split; [done|]. split; [done|].
      split; [simpl; congruence|]. split; [simpl; congruence|].
      left. apply andb_true_iff in Hchain as [-> Hpos].
      split; [done|]. split.
      { simpl. rewrite Hcap5.
        destruct Hcases as [-> | (b4 & _ & ->)]; done. }
      split.
      { repeat split; simpl; try done; [lia | congruence]. }
      assert (wf_state (set_selected (set_pieceSelected gs5 true) x y))
        as Hwf'.
      { split; simpl; [rewrite Hb5; apply Hwf4 | apply Hok5]. }
      split; [done|].
      apply FindValidMoves_fixpoint; [done|done|done|].
      simpl. by rewrite Hb5.
    + eexists. split; [done|].
      split; [split; simpl; [rewrite Hb5; apply Hwf4 | apply Hok5]|].
      cbn [board end_turn SwitchTurn
        set_currentPlayer set_isCapturing set_validMoveCount
        set_pieceSelected].
      rewrite Hb5. split; [done|].
      split; [destruct Hdcase as [-> | ->]; auto|].
      split; [done|]. split; [done|].
      split; [simpl; congruence|]. split; [simpl; congruence|].
      right. repeat split. simpl. congruence.
Qed.

(** ** The capture block on a candidate *)

Lemma abs_offset s d k : dir_ok d → 1 ≤ k → Z.abs (s - (s + k * d)) = k.
Proof. intros [-> | ->] Hk; lia. Qed.

Lemma direction_of_offset s d k :
  dir_ok d → 1 ≤ k → (if s + k * d >? s then 1 else -1) = d.
Proof.
  intros [-> | ->] Hk.
  - by rewrite (proj2 (Z.gtb_gt _ _)) by lia.
  - destruct (s + k * -1 >? s) eqn:H; [|done]. apply Z.gtb_gt in H. lia.
Qed.

Lemma add_score_total gs :
  mover_score gs < INT_MAX → ∃ gs', add_score gs = Some gs'.
Proof.
  unfold add_score, incr, mover_score. intros Hscore.
  destruct (currentPlayer gs); simpl;
    rewrite (proj2 (Z.ltb_lt _ _) Hscore); simpl; eauto.
Qed.

(** A king that slides over empty cells takes nothing. *)
Lemma capture_block_slide gs p dx dy k :
  cell (board gs) (selectedX gs) (selectedY gs) = Some p →
  isKing p = true → dir_ok dx → dir_ok dy → 1 ≤ k ≤ 7 →
  clear_run (board gs) (selectedX gs) (selectedY gs) dx dy k →
  capture_block gs (selectedX gs + k * dx) (selectedY gs + k * dy)
  = Some (set_isCapturing gs true, false).
Proof.
  intros Hp Hking Hdx Hdy Hk Hrun. unfold capture_block.
  rewrite Hp. cbn [bind]. rewrite Hking.
  rewrite !direction_of_offset by (done || lia).
  pose proof (king_capture_clear gs (selectedX gs) (selectedY gs) dx dy k
                Hdx Hdy Hrun SCAN_FUEL 1) as Hloop.
  rewrite !Z.mul_1_l in Hloop. rewrite Hloop by (unfold SCAN_FUEL; lia).
  done.
Qed.

(** A capture takes the piece before the landing cell off the board and
    counts it, for a king as for a regular piece. *)
Lemma capture_block_hit gs p dx dy k :
  wf_board (board gs) →
  cell (board gs) (selectedX gs) (selectedY gs) = Some p →
  dir_ok dx → dir_ok dy → 2 ≤ k ≤ 7 → (isKing p = false → k = 2) →
  in_bounds (selectedX gs + k * dx) (selectedY gs + k * dy) = true →
  capture_reach (board gs) (currentPlayer gs) (selectedX gs) (selectedY gs)
    dx dy k →
  mover_score gs < INT_MAX →
  ∃ b1 gs1 isCapture,
    update_cell (board gs) (selectedX gs + (k - 1) * dx)
      (selectedY gs + (k - 1) * dy) (set_type NONE) = Some b1
    ∧ add_score (set_board gs b1) = Some gs1
    ∧ capture_block gs (selectedX gs + k * dx) (selectedY gs + k * dy)
      = Some (set_isCapturing gs1 true, isCapture).
Proof.
  intros Hwf Hp Hdx Hdy Hk Hman Hin Hreach Hscore.
  destruct (king_capture_hit gs (selectedX gs) (selectedY gs) dx dy k
              Hdx Hdy Hreach Hscore) as (b1 & gs1 & Hb1 & Hgs1 & Hloop).
  unfold capture_block. rewrite Hp. cbn [bind].
  destruct (isKing p) eqn:Hking.
  - rewrite !direction_of_offset by (done || lia).
    specialize (Hloop SCAN_FUEL 1). rewrite !Z.mul_1_l in Hloop.
    rewrite Hloop by (unfold SCAN_FUEL; lia). cbn [bind fst snd negb].
    pose proof (add_score_inv _ _ Hgs1) as (Hb & _).
    destruct (lookahead_total gs1 (selectedX gs + k * dx)
                (selectedY gs + k * dy)) as [r Hr]; [|done|].
    { rewrite Hb. simpl. by eapply wf_board_update. }
    rewrite Hr. cbn [bind]. by exists b1, gs1, r.
  - specialize (Hman eq_refl). subst k.
    replace (selectedX gs + (selectedX gs + 2 * dx))
      with ((selectedX gs + dx) * 2) by lia.
    replace (selectedY gs + (selectedY gs + 2 * dy))
      with ((selectedY gs + dy) * 2) by lia.
    rewrite !Z.quot_mul by done.
    replace (selectedX gs + (2 - 1) * dx) with (selectedX gs + dx) in Hb1
      by lia.
    replace (selectedY gs + (2 - 1) * dy) with (selectedY gs + dy) in Hb1
      by lia.
    rewrite Hb1. cbn [bind]. rewrite Hgs1. cbn [bind].
    exists b1, gs1, true.
    replace (selectedX gs + (2 - 1) * dx) with (selectedX gs + dx) by lia.
    replace (selectedY gs + (2 - 1) * dy) with (selectedY gs + dy) by lia.
    done.
Qed.

(** ** A candidate is played *)

Lemma consistent_facts gs :
  wf_state gs → consistent gs →
  ∃ p, cell (board gs) (selectedX gs) (selectedY gs) = Some p
    ∧ type p ≠ NONE ∧ player p = currentPlayer gs
    ∧ moves_ok gs
    ∧ candidates gs
      = take 12 (moves_of (board gs) (selectedX gs) (selectedY gs)
                   (isCapturing gs)).
Proof.
  intros Hwf (_ & (p & Hp & Htp & Hpl) & Hfix).
  destruct (FindValidMoves_spec gs (selectedX gs) (selectedY gs)
              (isCapturing gs) Hwf (cell_in_bounds _ _ _ _ Hp))
    as (gs' & Hr & _ & Hok & Hc).
  rewrite Hfix in Hr. injection Hr as <-. by exists p.
Qed.

Lemma score_of_add_score gs gs1 :
  add_score gs = Some gs1 →
  score_of (currentPlayer gs) gs1 = score_of (currentPlayer gs) gs + 1
  ∧ score_of (other (currentPlayer gs)) gs1
    = score_of (other (currentPlayer gs)) gs.
Proof.
  intros (_ & _ & _ & Hs)%add_score_inv.
  destruct (currentPlayer gs); simpl in *; lia.
Qed.

Lemma consistent_move gs x y :
  wf_state gs → consistent gs →
  mkPosition x y ∈ candidates gs → mover_score gs < INT_MAX →
  ∃ gs' p dx dy k,
    move_selected gs x y = Some gs'
    ∧ wf_state gs'
    ∧ cell (board gs) (selectedX gs) (selectedY gs) = Some p
    ∧ dir_ok dx ∧ dir_ok dy ∧ 1 ≤ k
    ∧ x = selectedX gs + k * dx ∧ y = selectedY gs + k * dy
    ∧ cell (board gs') (selectedX gs) (selectedY gs) = Some (set_type NONE p)
    ∧ (cell (board gs') x y = Some p ∨ cell (board gs') x y = Some (crown p))
    ∧ count_pieces (currentPlayer gs) (board gs')
      = count_pieces (currentPlayer gs) (board gs)
    ∧ score_of (other (currentPlayer gs)) gs'
      = score_of (other (currentPlayer gs)) gs
    ∧ ((isCapturing gs = false
        ∧ clear_run (board gs) (selectedX gs) (selectedY gs) dx dy k
        ∧ count_pieces (other (currentPlayer gs)) (board gs')
          = count_pieces (other (currentPlayer gs)) (board gs)
        ∧ score_of (currentPlayer gs) gs' = score_of (currentPlayer gs) gs
        ∧ turn_passed_to (other (currentPlayer gs)) gs')
       ∨ (capture_reach (board gs) (currentPlayer gs)
            (selectedX gs) (selectedY gs) dx dy k
          ∧ empty_at (board gs') (selectedX gs + (k - 1) * dx)
              (selectedY gs + (k - 1) * dy)
          ∧ count_pieces (other (currentPlayer gs)) (board gs')
            = count_pieces (other (currentPlayer gs)) (board gs) - 1
          ∧ score_of (currentPlayer gs) gs'
            = score_of (currentPlayer gs) gs + 1
          ∧ ((isCapturing gs' = true
              ∧ chain_continues_at x y (currentPlayer gs) gs'
              ∧ wf_state gs' ∧ consistent gs')
             ∨ turn_passed_to (other (currentPlayer gs)) gs'))).
Proof.
  intros Hwf Hcons Hcand Hscore.
  destruct (consistent_facts gs Hwf Hcons)
    as (p & Hp & Htp & Hpl & Hok & Hcands).
  rewrite Hcands in Hcand. apply subseteq_take in Hcand.
  destruct (candidate_reach _ _ _ _ _ _ Hp Hcand)
    as (dx & dy & k & Hdx & Hdy & Hk & [= -> ->] & Hempty & Hcase & Hman).
  rewrite Hpl in Hcase.
  pose proof Hempty as (e & He & Hte).
  pose proof (cell_in_bounds _ _ _ _ Hp) as Hins.
  pose proof (cell_in_bounds _ _ _ _ He) as Hind.
  assert (k ≤ 7) as Hk7.
  { apply in_bounds_spec in Hins, Hind. destruct Hdx as [-> | ->]; lia. }
  unfold move_selected.
  rewrite !abs_offset by done.
  destruct Hcase as [[Hafter Hrun] | Hreach].
  - (* a simple move *)
    assert (∃ gsA, (if (k >? 1) && (k >? 1)
                    then capture_block gs ((selectedX gs) + k * dx) ((selectedY gs) + k * dy)
                    else Some (gs, false)) = Some (gsA, false)
              ∧ wf_state gsA ∧ board gsA = board gs
              ∧ currentPlayer gsA = currentPlayer gs
              ∧ player1Score gsA = player1Score gs
              ∧ player2Score gsA = player2Score gs) as
        (gsA & -> & HwfA & HbA & HcurA & Hs1A & Hs2A).
    { destruct (k >? 1) eqn:Hk1; simpl.
      - destruct (isKing p) eqn:Hking; [|specialize (Hman eq_refl)].
        + exists (set_isCapturing gs true).
          split; [apply capture_block_slide with p; try done; lia|]. done.
        + apply Z.gtb_gt in Hk1. assert (k = 2) as -> by lia.
          (* a regular piece has no simple move of two cells *)
          exfalso. unfold moves_of in Hcand. rewrite Hp, Hking in Hcand.
          apply elem_of_concat_map in Hcand as (d & Hd & Hcand).
          rewrite regular_directions_forward in Hd.
          apply elem_of_regular_ray in Hcand
            as [([= Hx Hy] & _) | ([= Hx Hy] & (o & Ho & Hto & _) & _)].
          * apply elem_of_cons in Hd as [-> | Hd];
              [|apply list_elem_of_singleton in Hd as ->]; simpl in *;
              destruct Hdx as [-> | ->]; lia.
          * assert (fst d = dx ∧ snd d = dy) as [<- <-] by lia.
            destruct (Hrun 1 ltac:(lia)) as (c & Hc & Htc).
            rewrite !Z.mul_1_l in Hc. congruence.
      - exists gs. done. }
    cbn [bind fst snd].
    destruct (finish_move_spec gsA (selectedX gs) (selectedY gs) ((selectedX gs) + k * dx) ((selectedY gs) + k * dy) false p)
      as (gs' & Hrun' & Hwfg' & Hsrc & Hdst & _ & Hcount & Hs1 & Hs2 & Hturn);
      [done|by rewrite HbA|done|by rewrite HbA|].
    exists gs', p, dx, dy, k. rewrite HbA in Hcount.
    split; [done|]. split; [done|]. split; [done|]. split; [done|]. split; [done|].
    split; [done|]. split; [done|]. split; [done|]. split; [done|].
    split; [done|]. split; [apply Hcount|].
    split; [destruct (currentPlayer gs); simpl; congruence|].
    left. split; [done|]. split; [done|]. split; [apply Hcount|].
    split; [destruct (currentPlayer gs); simpl; congruence|].
    destruct Hturn as [(? & _) | Hturn]; [done|]. by rewrite <- HcurA.
  - (* a capture *)
    pose proof Hreach as (Hk2 & Hrun & (o & Ho & Hto & Hpo)).
    rewrite (proj2 (Z.gtb_gt k 1)) by lia. cbn [andb].
    destruct (capture_block_hit gs p dx dy k (proj1 Hwf) Hp Hdx Hdy
                ltac:(lia) ltac:(intros Hm; specialize (Hman Hm); lia)
                Hind Hreach Hscore)
      as (b1 & gs1 & isCapture & Hb1 & Hgs1 & ->).
    cbn [bind fst snd].
    pose proof (add_score_inv _ _ Hgs1) as (Hbg1 & Hturn1 & _ & _).
    pose proof (score_of_add_score _ _ Hgs1) as [Hsc Hsc'].
    cbn [board set_board currentPlayer] in Hbg1, Hsc, Hsc'.
    destruct Hturn1 as (Hcur1 & _ & _ & _ & Hvm1 & _). cbn in Hcur1, Hvm1.
    assert (((selectedX gs), (selectedY gs)) ≠ ((selectedX gs) + (k - 1) * dx, (selectedY gs) + (k - 1) * dy)) as Hne1
      by (intros [= H1 _]; destruct Hdx as [-> | ->]; lia).
    assert (((selectedX gs) + k * dx, (selectedY gs) + k * dy)
            ≠ ((selectedX gs) + (k - 1) * dx, (selectedY gs) + (k - 1) * dy)) as Hne2
      by (intros [= H1 _]; destruct Hdx as [-> | ->]; lia).
    destruct (finish_move_spec (set_isCapturing gs1 true) (selectedX gs) (selectedY gs)
                ((selectedX gs) + k * dx) ((selectedY gs) + k * dy) isCapture p)
      as (gs' & Hrun' & Hwfg' & Hsrc & Hdst & Hother & Hcount & Hs1 & Hs2
          & Hturn).
    { split; [|cbn; rewrite Hvm1; apply Hwf]. cbn. rewrite Hbg1.
      eapply wf_board_update; [apply Hwf|done]. }
    { cbn. by rewrite Hbg1, (cell_update_ne _ _ _ _ _ _ _ Hb1 Hne1). }
    { done. }
    { exists e. cbn. by rewrite Hbg1, (cell_update_ne _ _ _ _ _ _ _ Hb1 Hne2). }
    cbn [board set_isCapturing currentPlayer player1Score player2Score] in *.
    rewrite Hbg1 in Hcount, Hother.
    assert (∀ pl, count_pieces pl (board gs')
                  = count_pieces pl (board gs)
                    - (if is_owned pl o then 1 else 0)) as Hcount'.
    { intros pl. rewrite Hcount, (count_update pl _ _ _ _ _ _ Hb1 Ho).
      unfold is_owned at 2. simpl. lia. }
    exists gs', p, dx, dy, k.
    split; [done|]. split; [done|]. split; [done|]. split; [done|].
    split; [done|]. split; [done|]. split; [done|]. split; [done|].
    split; [done|]. split; [done|].
    split.
    { rewrite Hcount'. unfold is_owned.
      rewrite (proj2 (same_player_false _ _) Hpo), andb_false_r. lia. }
    split.
    { clear -Hsc Hsc' Hs1 Hs2.
      destruct (currentPlayer gs); simpl in *; lia. }
    right. split; [done|].
    split.
    { exists (set_type NONE o). split; [|done].
      rewrite Hother by congruence.
      by rewrite (cell_update_eq _ _ _ _ _ Hb1), Ho. }
    split.
    { rewrite Hcount'. unfold is_owned.
      rewrite (proj2 (is_NONE_false _) Hto). simpl.
      by destruct (player o), (currentPlayer gs). }
    split.
    { clear -Hsc Hsc' Hs1 Hs2.
      destruct (currentPlayer gs); simpl in *; lia. }
    rewrite Hcur1 in Hturn.
    destruct Hturn as [(_ & Hchain & Hcont & Hwf' & Hfix) | Hturn];
      [left|by right].
    split; [done|]. split; [done|]. split; [done|].
    destruct Hcont as (Hsel' & Hsx' & Hsy' & _ & Hcur').
    split; [done|]. rewrite Hsx', Hsy', Hchain, Hcur'. split; [|done].
    destruct Hdst as [Hd | Hd]; [exists p | exists (crown p)];
      (split; [done|]); split; try done.
Qed.

(** ** C4 *)

(** C4: in a state that holds a selection as [HandleInput] leaves it, a click
    that moves the selected piece takes it [k] cells along a diagonal, and
    either all cells passed are empty, no piece leaves the board and no score
    changes (a simple move), or exactly one cell passed holds a piece, the
    last before the landing cell, it belongs to the opponent, it is emptied,
    the piece count of the opponent and the total go down by exactly 1, the
    count of the mover stays, and the score of the mover - and only that -
    goes up by exactly 1 (a capture, by a regular piece or by a king).  The
    score of the mover is taken to be below the largest [int]; this and the
    assumption on the selection hold in every state the game reaches
    ([game_invariant], [invariant_score]). *)
Theorem C4_capture_takes_one_piece (gs : GameState) (x y : Z) :
  wf_state gs → consistent gs → applies_move gs x y →
  mover_score gs < INT_MAX →
  ∃ gs' dx dy k,
    HandleInput gs x y = Some gs'
    ∧ dir_ok dx ∧ dir_ok dy ∧ 1 ≤ k
    ∧ x = selectedX gs + k * dx ∧ y = selectedY gs + k * dy
    ∧ score_of (other (currentPlayer gs)) gs'
      = score_of (other (currentPlayer gs)) gs
    ∧ count_pieces (currentPlayer gs) (board gs')
      = count_pieces (currentPlayer gs) (board gs)
    ∧ ((clear_run (board gs) (selectedX gs) (selectedY gs) dx dy k
        ∧ total_pieces (board gs') = total_pieces (board gs)
        ∧ score_of (currentPlayer gs) gs' = score_of (currentPlayer gs) gs)
       ∨ (capture_reach (board gs) (currentPlayer gs)
            (selectedX gs) (selectedY gs) dx dy k
          ∧ empty_at (board gs') (selectedX gs + (k - 1) * dx)
              (selectedY gs + (k - 1) * dy)
          ∧ count_pieces (other (currentPlayer gs)) (board gs')
            = count_pieces (other (currentPlayer gs)) (board gs) - 1
          ∧ total_pieces (board gs') = total_pieces (board gs) - 1
          ∧ score_of (currentPlayer gs) gs'
            = score_of (currentPlayer gs) gs + 1)).
Proof.
  intros Hwf Hcons Happ Hscore.
  rewrite (HandleInput_move _ _ _ Happ).
  destruct (consistent_facts gs Hwf Hcons) as (_ & _ & _ & _ & Hok & _).
  destruct Happ as (_ & _ & Hvalid).
  rewrite (IsValidMove_spec _ _ _ _ _ Hok) in Hvalid.
  injection Hvalid as Hvalid. apply bool_decide_eq_true in Hvalid.
  destruct (consistent_move gs x y Hwf Hcons Hvalid Hscore)
    as (gs' & p & dx & dy & k & Hrun & _ & _ & Hdx & Hdy & Hk & Hx & Hy & _
        & _ & Hown & Hwait & Hcase).
  exists gs', dx, dy, k. do 8 (split; [done|]).
  assert (∀ b, total_pieces b
               = count_pieces (currentPlayer gs) b
                 + count_pieces (other (currentPlayer gs)) b) as Htotal.
  { intros b. unfold total_pieces. destruct (currentPlayer gs); simpl; lia. }
  destruct Hcase as [(_ & Hclear & Hopp & Hsc & _)
                    | (Hreach & Hempty & Hopp & Hsc & _)].
  - left. split; [done|]. split; [|done]. rewrite !Htotal. lia.
  - right. do 3 (split; [done|]). split; [|done]. rewrite !Htotal. lia.
Qed.

Lemma consistent_jump_selected : consistent jump_selected.
Proof.
  split; [reflexivity|]. split; [|vm_compute; reflexivity].
  exists man1. split; [vm_compute; reflexivity|].
  split; [discriminate|reflexivity].
Qed.

Lemma C4_capture_witness :
  ∃ gs' dx dy k,
    HandleInput jump_selected 4 4 = Some gs'
    ∧ dir_ok dx ∧ dir_ok dy ∧ 1 ≤ k
    ∧ 4 = selectedX jump_selected + k * dx
    ∧ 4 = selectedY jump_selected + k * dy
    ∧ score_of (other (currentPlayer jump_selected)) gs'
      = score_of (other (currentPlayer jump_selected)) jump_selected
    ∧ count_pieces (currentPlayer jump_selected) (board gs')
      = count_pieces (currentPlayer jump_selected) (board jump_selected)
    ∧ ((clear_run (board jump_selected) (selectedX jump_selected)
          (selectedY jump_selected) dx dy k
        ∧ total_pieces (board gs') = total_pieces (board jump_selected)
        ∧ score_of (currentPlayer jump_selected) gs'
          = score_of (currentPlayer jump_selected) jump_selected)
       ∨ (capture_reach (board jump_selected) (currentPlayer jump_selected)
            (selectedX jump_selected) (selectedY jump_selected) dx dy k
          ∧ empty_at (board gs') (selectedX jump_selected + (k - 1) * dx)
              (selectedY jump_selected + (k - 1) * dy)
          ∧ count_pieces (other (currentPlayer jump_selected)) (board gs')
            = count_pieces (other (currentPlayer jump_selected))
                (board jump_selected) - 1
          ∧ total_pieces (board gs') = total_pieces (board jump_selected) - 1
          ∧ score_of (currentPlayer jump_selected) gs'
            = score_of (currentPlayer jump_selected) jump_selected + 1)).
Proof.
  apply (C4_capture_takes_one_piece jump_selected 4 4).
  - solve_wf.
  - apply consistent_jump_selected.
  - split; [reflexivity|]. split; [right|]; reflexivity.
  - reflexivity.
Defined.

(** The jump of that example, computed: the man at (3,3) is gone, the score
    of PLAYER1 is 1 and one piece is left. *)
Example jump_takes_the_man :
  (λ gs, (cell (board gs) 3 3, player1Score gs, total_pieces (board gs)))
    <$> HandleInput jump_selected 4 4
  = Some (Some (mkPiece NONE PLAYER2 false), 1, 1).
Proof. reflexivity. Qed.

(** ** C7 *)

(** C7: while the chain flag is set on a state that holds a selection as
    [HandleInput] leaves it, a click is either ignored, the state staying
    exactly as it is, or it is a click on a candidate, and then the selected
    piece jumps to the clicked cell over exactly one piece of the opponent,
    which is taken and counted.  After the jump the chain goes on with the
    same piece, now at the clicked cell, in a state of the same kind, or the
    turn has passed to the opponent.  No simple move is made and no other
    piece gets selected.  The assumptions hold in every state the game
    reaches ([game_invariant], [invariant_score]). *)
Theorem C7_chain_only_captures (gs : GameState) (x y : Z) :
  wf_state gs → consistent gs → isCapturing gs = true →
  mover_score gs < INT_MAX →
  ∃ gs', HandleInput gs x y = Some gs'
    ∧ (gs' = gs
       ∨ ∃ p dx dy k,
           mkPosition x y ∈ candidates gs
           ∧ cell (board gs) (selectedX gs) (selectedY gs) = Some p
           ∧ dir_ok dx ∧ dir_ok dy
           ∧ x = selectedX gs + k * dx ∧ y = selectedY gs + k * dy
           ∧ capture_reach (board gs) (currentPlayer gs)
               (selectedX gs) (selectedY gs) dx dy k
           ∧ cell (board gs') (selectedX gs) (selectedY gs)
             = Some (set_type NONE p)
           ∧ (cell (board gs') x y = Some p
              ∨ cell (board gs') x y = Some (crown p))
           ∧ empty_at (board gs') (selectedX gs + (k - 1) * dx)
               (selectedY gs + (k - 1) * dy)
           ∧ count_pieces (other (currentPlayer gs)) (board gs')
             = count_pieces (other (currentPlayer gs)) (board gs) - 1
           ∧ score_of (currentPlayer gs) gs'
             = score_of (currentPlayer gs) gs + 1
           ∧ ((isCapturing gs' = true
               ∧ chain_continues_at x y (currentPlayer gs) gs'
               ∧ wf_state gs' ∧ consistent gs')
              ∨ turn_passed_to (other (currentPlayer gs)) gs')).
Proof.
  intros Hwf Hcons Hchain Hscore.
  destruct (consistent_facts gs Hwf Hcons) as (_ & _ & _ & _ & Hok & _).
  pose proof Hcons as (Hsel & _).
  unfold HandleInput. rewrite Hsel, Hchain. cbn [negb bind].
  rewrite (IsValidMove_spec _ _ _ _ _ Hok). cbn [bind].
  case_bool_decide as Hvalid; [|by eauto].
  destruct (consistent_move gs x y Hwf Hcons Hvalid Hscore)
    as (gs' & p & dx & dy & k & Hrun & _ & Hp & Hdx & Hdy & Hk & Hx & Hy
        & Hsrc & Hdst & _ & _ & Hcase).
  exists gs'. split; [done|]. right.
  destruct Hcase as [(Hno & _) | (Hreach & Hempty & Hopp & Hsc & Hturn)];
    [congruence|].
  exists p, dx, dy, k. by repeat (split; [done|]).
Qed.

Lemma C7_chain_witness :
  ∃ gs', HandleInput chain_state 6 6 = Some gs'
    ∧ (gs' = chain_state
       ∨ ∃ p dx dy k,
           mkPosition 6 6 ∈ candidates chain_state
           ∧ cell (board chain_state) (selectedX chain_state)
               (selectedY chain_state) = Some p
           ∧ dir_ok dx ∧ dir_ok dy
           ∧ 6 = selectedX chain_state + k * dx
           ∧ 6 = selectedY chain_state + k * dy
           ∧ capture_reach (board chain_state) (currentPlayer chain_state)
               (selectedX chain_state) (selectedY chain_state) dx dy k
           ∧ cell (board gs') (selectedX chain_state) (selectedY chain_state)
             = Some (set_type NONE p)
           ∧ (cell (board gs') 6 6 = Some p
              ∨ cell (board gs') 6 6 = Some (crown p))
           ∧ empty_at (board gs') (selectedX chain_state + (k - 1) * dx)
               (selectedY chain_state + (k - 1) * dy)
           ∧ count_pieces (other (currentPlayer chain_state)) (board gs')
             = count_pieces (other (currentPlayer chain_state))
                 (board chain_state) - 1
           ∧ score_of (currentPlayer chain_state) gs'
             = score_of (currentPlayer chain_state) chain_state + 1
           ∧ ((isCapturing gs' = true
               ∧ chain_continues_at 6 6 (currentPlayer chain_state) gs'
               ∧ wf_state gs' ∧ consistent gs')
              ∨ turn_passed_to (other (currentPlayer chain_state)) gs')).
Proof.
  apply (C7_chain_only_captures chain_state 6 6).
  - solve_wf.
  - split; [vm_compute; reflexivity|]. split; [|vm_compute; reflexivity].
    exists man1. split; [vm_compute; reflexivity|].
    split; [discriminate|reflexivity].
  - vm_compute. reflexivity.
  - vm_compute. reflexivity.
Defined.

(** In the chain of that example a click on another piece, on an empty cell
    next to the selected piece or outside the board changes nothing, and the
    click on the landing cell (6,6) takes the second man and ends the turn. *)
Example chain_clicks :
  HandleInput chain_state 5 5 = Some chain_state
  ∧ HandleInput chain_state 3 5 = Some chain_state
  ∧ HandleInput chain_state 9 1 = Some chain_state
  ∧ (λ gs, (total_pieces (board gs), player1Score gs, currentPlayer gs,
            pieceSelected gs, isCapturing gs))
      <$> HandleInput chain_state 6 6
    = Some (1, 2, PLAYER2, false, false).
Proof. repeat split; vm_compute; reflexivity. Qed.

(** ** The states HandleInput moves between *)

Lemma ranks_consistent_update b x y f b' :
  ranks_consistent b → (∀ c, rank_ok c → rank_ok (f c)) →
  update_cell b x y f = Some b' → ranks_consistent b'.
Proof.
  intros Hranks Hf. unfold update_cell.
  destruct (in_bounds x y); [|done]. intros [= <-].
  apply Forall_alter; [done|]. intros row _ Hrow.
  apply Forall_alter; [done|]. intros c _. apply Hf.
Qed.

Lemma rank_ok_cleared c : rank_ok (set_type NONE c).
Proof. by intros []. Qed.

Lemma rank_ok_crown c : rank_ok (crown c).
Proof. by intros _. Qed.

Lemma move_selected_ranks gs x y gs' :
  wf_state gs → ranks_consistent (board gs) →
  move_selected gs x y = Some gs' → ranks_consistent (board gs').
Proof.
  intros Hwf Hranks Hrun.
  apply move_selected_inv in Hrun
    as (gs1 & isCapture & mp & b2 & b3 & ws & gs4 & dest & Hcap & Hwf1 & Hmp
        & Hb2 & Hb3 & Hws & Hgs4 & Hwf4 & Hdest & Hboard & Hend); [|done].
  rewrite Hboard.
  assert (ranks_consistent (board gs1)) as Hr1.
  { destruct ((Z.abs (selectedX gs - x) >? 1)
              && (Z.abs (selectedY gs - y) >? 1)).
    - apply capture_block_inv in Hcap as (_ & _ & [-> | (cx & cy & Hup)]);
        [done|].
      eapply ranks_consistent_update; [done| |done].
      intros c _. apply rank_ok_cleared.
    - by destruct Hcap as [-> _]. }
  assert (ranks_consistent b3) as Hr3.
  { eapply ranks_consistent_update; [| |exact Hb3].
    - eapply ranks_consistent_update; [exact Hr1| |exact Hb2].
      intros _ _ Ht. by eapply ranks_consistent_cell.
    - intros c _. apply rank_ok_cleared. }
  apply PromoteToKing_inv in Hgs4 as [-> | (b' & Hup & ->)]; [done|].
  eapply ranks_consistent_update; [exact Hr3| |exact Hup].
  intros c _. apply rank_ok_crown.
Qed.

(** Selecting a piece leaves a state that holds the selection. *)
Lemma select_piece_consistent gs x y gs' :
  wf_state gs → own_piece_at gs x y = Some true → isCapturing gs = false →
  select_piece gs x y = Some gs' →
  wf_state gs' ∧ board gs' = board gs ∧ consistent gs'.
Proof.
  intros Hwf Hown Hcap Hrun. unfold select_piece in Hrun.
  unfold own_piece_at in Hown.
  apply bind_Some in Hown as (c & Hc & [= Hown]).
  apply andb_true_iff in Hown as [Ht%negb_true_iff%is_NONE_false
                                    Hpl%same_player_true].
  pose proof (cell_in_bounds _ _ _ _ Hc) as Hin.
  set (g0 := set_selected (set_pieceSelected gs true) x y) in *.
  assert (wf_state g0) as Hwf0 by done.
  destruct (FindValidMoves_spec g0 x y false Hwf0 Hin)
    as (gs'' & Hr & Hfr & Hok & Hcs).
  rewrite Hrun in Hr. injection Hr as <-.
  destruct Hfr as (Hb & Hcur & _ & _ & Hsel & Hsx & Hsy & Hcap').
  simpl in *.
  assert (wf_state gs') as Hwf'.
  { split; [rewrite Hb; apply Hwf | apply Hok]. }
  split; [done|]. split; [done|].
  split; [done|]. rewrite Hsx, Hsy, Hcap', Hcap, Hb, Hcur. split.
  - by exists c.
  - apply FindValidMoves_fixpoint; [done|done|done|]. by rewrite Hb.
Qed.

Lemma sum_Z_nonneg f l : (∀ a, 0 ≤ f a) → 0 ≤ sum_Z f l.
Proof.
  intros Hf. induction l as [|a l IH]; simpl; [lia|].
  specialize (Hf a). lia.
Qed.

Lemma count_pieces_nonneg p b : 0 ≤ count_pieces p b.
Proof.
  unfold count_pieces. apply sum_Z_nonneg. intros y.
  apply sum_Z_nonneg. intros x. by destruct (owned_by b p x y).
Qed.

Lemma invariant_score gs : invariant gs → mover_score gs < INT_MAX.
Proof.
  intros (_ & _ & _ & Hsum). unfold mover_score, INT_MAX.
  pose proof (Hsum (currentPlayer gs)) as H.
  pose proof (count_pieces_nonneg (other (currentPlayer gs)) (board gs)).
  destruct (currentPlayer gs); simpl in *; lia.
Qed.

(** The invariant of the game loop: [HandleInput] takes a state with an 8 by
    8 board, pieces of consistent rank, bounded scores and, if a piece is
    selected, a selection as it leaves it, to a state of the same kind. *)
Lemma HandleInput_invariant gs x y gs' :
  invariant gs → HandleInput gs x y = Some gs' → invariant gs'.
Proof.
  intros Hinv Hrun. pose proof (invariant_score gs Hinv) as Hscore.
  destruct Hinv as (Hwf & Hranks & Hcons & Hsum).
  unfold HandleInput in Hrun.
  assert (∀ g, own_piece_at gs x y = Some true → isCapturing gs = false →
               select_piece gs x y = Some g → invariant g) as Hselect.
  { intros g Hown Hcap Hg.
    destruct (select_piece_consistent _ _ _ _ Hwf Hown Hcap Hg)
      as (Hwf' & Hb & Hcons').
    split; [done|]. split; [by rewrite Hb|]. split; [done|].
    unfold select_piece in Hg.
    destruct (FindValidMoves_spec _ x y false
                (Hwf : wf_state (set_selected (set_pieceSelected gs true) x y)))
      as (g' & Hg' & Hfr & _).
    { unfold own_piece_at in Hown.
      apply bind_Some in Hown as (c & Hc & _). by eapply cell_in_bounds. }
    rewrite Hg in Hg'. injection Hg' as <-.
    destruct Hfr as (_ & _ & Hs1 & Hs2 & _). simpl in Hs1, Hs2.
    intros p. rewrite Hb. specialize (Hsum p).
    destruct p; simpl in *; lia. }
  assert (∀ g, board g = board gs → player1Score g = player1Score gs →
               player2Score g = player2Score gs →
               ∀ p, score_of p g + count_pieces (other p) (board g) ≤ 12)
    as Hsame.
  { intros g Hb Hs1 Hs2 p. rewrite Hb. specialize (Hsum p).
    destruct p; simpl in *; lia. }
  destruct (pieceSelected gs) eqn:Hsel; cbn [negb] in Hrun.
  - specialize (Hcons eq_refl).
    destruct (consistent_facts gs Hwf Hcons) as (_ & _ & _ & _ & Hok & _).
    apply bind_Some in Hrun as (reselect & Hre & Hrun).
    destruct reselect.
    { destruct (isCapturing gs) eqn:Hcap; [done|]. by eapply Hselect. }
    rewrite (IsValidMove_spec _ _ _ _ _ Hok) in Hrun. cbn [bind] in Hrun.
    case_bool_decide as Hvalid.
    + pose proof (move_selected_ranks _ _ _ _ Hwf Hranks Hrun) as Hranks'.
      destruct (consistent_move gs x y Hwf Hcons Hvalid Hscore)
        as (g & p & dx & dy & k & Hg & Hwf' & _ & _ & _ & _ & _ & _ & _ & _
            & Hown & Hwait & Hcase).
      rewrite Hrun in Hg. injection Hg as <-.
      split; [done|]. split; [done|]. split.
      * intros Hsel'.
        destruct Hcase as [(_ & _ & _ & _ & Hpass)
                          | (_ & _ & _ & _ & [(_ & _ & _ & Hc') | Hpass])];
          try done; destruct Hpass as (Hno & _); congruence.
      * assert (score_of (currentPlayer gs) gs'
                + count_pieces (other (currentPlayer gs)) (board gs')
                = score_of (currentPlayer gs) gs
                  + count_pieces (other (currentPlayer gs)) (board gs))
          as Hmover
          by (destruct Hcase as [(_ & _ & -> & -> & _)
                                | (_ & _ & -> & -> & _)]; lia).
        intros q. pose proof (Hsum (currentPlayer gs)) as H1.
        pose proof (Hsum (other (currentPlayer gs))) as H2.
        destruct q, (currentPlayer gs); simpl in *; lia.
    + destruct (isCapturing gs); injection Hrun as <-; [done|].
      split; [done|]. split; [done|]. split; [done|]. by apply Hsame.
  - destruct (isCapturing gs) eqn:Hcap; cbn [negb] in Hrun.
    { injection Hrun as <-. split; [done|]. split; [done|].
      split; [congruence|done]. }
    destruct ((x >=? 0) && (x <? COLS) && (y >=? 0) && (y <? ROWS)).
    2:{ injection Hrun as <-. split; [done|]. split; [done|].
        split; [congruence|done]. }
    apply bind_Some in Hrun as (own & Hown & Hrun).
    destruct own; [by eapply Hselect|].
    injection Hrun as <-. split; [done|]. split; [done|].
    split; [congruence|done].
Qed.


(** In a state that holds a selection, a click that moves the selected piece
    has a result. *)
Lemma applied_move_total gs x y :
  wf_state gs → consistent gs → applies_move gs x y →
  mover_score gs < INT_MAX → ∃ gs', HandleInput gs x y = Some gs'.
Proof.
  intros Hwf Hcons Happ Hscore.
  rewrite (HandleInput_move _ _ _ Happ).
  destruct (consistent_facts gs Hwf Hcons) as (_ & _ & _ & _ & Hok & _).
  destruct Happ as (_ & _ & Hvalid).
  rewrite (IsValidMove_spec _ _ _ _ _ Hok) in Hvalid.
  injection Hvalid as Hvalid. apply bool_decide_eq_true in Hvalid.
  destruct (consistent_move gs x y Hwf Hcons Hvalid Hscore)
    as (gs' & _ & _ & _ & _ & Hrun & _). eauto.
Qed.

Lemma play_invariant clicks :
  ∀ gs gs', invariant gs → play gs clicks = Some gs' → invariant gs'.
Proof.
  induction clicks as [|c clicks IH]; intros gs gs' Hinv Hrun;
    cbn [play] in Hrun.
  - by injection Hrun as <-.
  - apply bind_Some in Hrun as (g & Hg & Hrun).
    eapply IH; [|done]. by eapply HandleInput_invariant.
Qed.

(** ** InitializeGame *)

(** A list of length 8, written out. *)
Ltac list8 l H :=
  do 8 (destruct l as [|? l]; [discriminate H|]);
  destruct l; [clear H | discriminate H].

(** The start of a game satisfies the invariant, whatever was in the state
    before, and the players have 12 pieces each. *)
Lemma InitializeGame_invariant gs :
  wf_state gs →
  ∃ gs', InitializeGame gs = Some gs' ∧ invariant gs'
    ∧ count_pieces PLAYER1 (board gs') = 12
    ∧ count_pieces PLAYER2 (board gs') = 12.
Proof.
  intros [[Hlen Hrows] Hvm].
  destruct gs as [b cur s1 s2 sel sx sy vm cnt cap]. simpl in *.
  list8 b Hlen.
  repeat match goal with
         | H : Forall _ (_ :: _) |- _ => apply Forall_cons in H as [? H]
         end.
  clear Hrows.
  repeat match goal with
         | H : length ?r = 8%nat |- _ => list8 r H
         end.
  eexists. split; [vm_compute; reflexivity|].
  split; [|split; vm_compute; reflexivity].
  split; [split; [split; [reflexivity|]|done]|].
  { repeat (apply Forall_cons; split; [reflexivity|]). apply Forall_nil_2. }
  split.
  { repeat (apply Forall_cons; split;
            [repeat (apply Forall_cons; split; [by intros ?|]);
             apply Forall_nil_2|]).
    apply Forall_nil_2. }
  split; [done|].
  intros []; vm_compute; discriminate.
Qed.

(** Every state a game reaches - from [InitializeGame] on whatever was in
    memory, by clicks that [HandleInput] handles without error - satisfies
    the invariant: the assumptions of C3, C4 and C7 hold in it. *)
Lemma game_invariant gs g0 clicks gs' :
  wf_state gs → InitializeGame gs = Some g0 → play g0 clicks = Some gs' →
  invariant gs'.
Proof.
  intros Hwf Hinit Hplay.
  destruct (InitializeGame_invariant gs Hwf) as (g & Hg & Hinv & _).
  rewrite Hinit in Hg. injection Hg as <-.
  by eapply play_invariant.
Qed.
(** * Games: what every state of a game satisfies *)

Lemma reached_invariant gs0 clicks g : reached gs0 clicks g → invariant g.
Proof.
  intros [Hwf Hrun]. apply bind_Some in Hrun as (g0 & Hinit & Hplay).
  by eapply game_invariant.
Qed.




(** Induction over the clicks of a game. *)
Lemma reached_ind (P : GameState → Prop) :
  (∀ gs0 g0, wf_state gs0 → InitializeGame gs0 = Some g0 → P g0) →
  (∀ g x y g', invariant g → P g → HandleInput g x y = Some g' → P g') →
  ∀ gs0 clicks g, reached gs0 clicks g → P g.
Proof.
  intros Hstart Hstep gs0 clicks g [Hwf Hrun].
  apply bind_Some in Hrun as (g0 & Hinit & Hplay).
  assert (invariant g0) as Hinv0.
  { destruct (InitializeGame_invariant gs0 Hwf) as (g1 & Hg1 & Hinv & _).
    congruence. }
  pose proof (Hstart gs0 g0 Hwf Hinit) as HP0.
  clear Hinit Hwf Hstart. revert g0 Hinv0 HP0 Hplay.
  induction clicks as [|c clicks IH]; intros g0 Hinv0 HP0 Hplay;
    cbn [play] in Hplay.
  - by injection Hplay as <-.
  - apply bind_Some in Hplay as (g1 & Hg1 & Hplay).
    eapply (IH g1); [by eapply HandleInput_invariant|by eapply Hstep|done].
Qed.

(** ** What a click can do *)

Lemma same_game_refl gs : same_game gs gs.
Proof. by repeat split. Qed.

Lemma select_piece_same_game gs x y gs' :
  wf_state gs → in_bounds x y = true → select_piece gs x y = Some gs' →
  same_game gs gs' ∧ pieceSelected gs' = true
  ∧ selectedX gs' = x ∧ selectedY gs' = y.
Proof.
  intros Hwf Hin Hrun. unfold select_piece in Hrun.
  destruct (FindValidMoves_spec
              (set_selected (set_pieceSelected gs true) x y) x y false)
    as (g & Hg & Hfr & _); [done|done|].
  rewrite Hrun in Hg. injection Hg as <-.
  destruct Hfr as (Hb & Hc & H1 & H2 & Hs & Hx & Hy & Hcap).
  by repeat split.
Qed.

(** The cases of [HandleInput]: a click selects, deselects or is ignored,
    and the game proper stays as it is, or it moves the selected piece. *)
Lemma HandleInput_cases gs x y gs' :
  wf_state gs → HandleInput gs x y = Some gs' →
  same_game gs gs'
  ∨ (applies_move gs x y ∧ move_selected gs x y = Some gs').
Proof.
  intros Hwf Hrun. unfold HandleInput in Hrun.
  assert (∀ g, own_piece_at gs x y = Some true →
               select_piece gs x y = Some g → same_game gs g) as Hselect.
  { intros g Hown Hg. eapply select_piece_same_game; [done| |done].
    unfold own_piece_at in Hown.
    apply bind_Some in Hown as (c & Hc & _). by eapply cell_in_bounds. }
  destruct (pieceSelected gs) eqn:Hsel; cbn [negb] in Hrun.
  - apply bind_Some in Hrun as (reselect & Hre & Hrun).
    destruct reselect.
    { left. destruct (isCapturing gs); [done|]. by eapply Hselect. }
    apply bind_Some in Hrun as (valid & Hvalid & Hrun).
    destruct valid.
    + right. split; [|done]. split; [done|]. split; [|done].
      destruct (isCapturing gs); [by left|by right].
    + left. destruct (isCapturing gs); injection Hrun as <-;
        by repeat split.
  - left. destruct (isCapturing gs); cbn [negb] in Hrun.
    { injection Hrun as <-. apply same_game_refl. }
    destruct ((x >=? 0) && (x <? COLS) && (y >=? 0) && (y <? ROWS)).
    2:{ injection Hrun as <-. apply same_game_refl. }
    apply bind_Some in Hrun as (own & Hown & Hrun).
    destruct own; [by eapply Hselect|].
    injection Hrun as <-. apply same_game_refl.
Qed.

Lemma applies_move_candidate gs x y :
  moves_ok gs → applies_move gs x y → mkPosition x y ∈ candidates gs.
Proof.
  intros Hok (_ & _ & Hvalid).
  rewrite (IsValidMove_spec _ _ _ _ _ Hok) in Hvalid.
  injection Hvalid as Hvalid. by apply bool_decide_eq_true in Hvalid.
Qed.

Lemma move_selected_cleared gs x y gs' :
  wf_state gs → move_selected gs x y = Some gs' →
  cleared_outside x y (board gs) (board gs').
Proof.
  intros Hwf Hrun.
  apply move_selected_inv in Hrun
    as (gs1 & isCapture & mp & b2 & b3 & ws & gs4 & dest & Hcap & Hwf1 & Hmp
        & Hb2 & Hb3 & Hws & Hgs4 & Hwf4 & Hdest & Hboard & Hend); [|done].
  assert (cleared_outside x y (board gs) (board gs1)) as H01.
  { destruct ((Z.abs (selectedX gs - x) >? 1)
              && (Z.abs (selectedY gs - y) >? 1)).
    - apply capture_block_inv in Hcap as (_ & _ & [-> | (cx & cy & Hup)]).
      + apply cleared_outside_refl.
      + by eapply cleared_outside_clear.
    - destruct Hcap as [-> _]. apply cleared_outside_refl. }
  assert (cleared_outside x y (board gs1) b3) as H13.
  { eapply cleared_outside_trans.
    - by eapply cleared_outside_write.
    - by eapply cleared_outside_clear. }
  assert (cleared_outside x y b3 (board gs4)) as H34.
  { apply PromoteToKing_inv in Hgs4 as [-> | (b' & Hup & ->)].
    - apply cleared_outside_refl.
    - by eapply cleared_outside_write. }
  rewrite Hboard.
  eapply cleared_outside_trans; [|done].
  by eapply cleared_outside_trans.
Qed.

(** A piece that was not on the board before the click is on the cell
    clicked. *)
Lemma cleared_outside_piece x y b b' cx cy c :
  cleared_outside x y b b' → cell b' cx cy = Some c → type c ≠ NONE →
  (cx, cy) ≠ (x, y) → cell b cx cy = Some c.
Proof.
  intros Hcl Hc Hty Hne. destruct (Hcl cx cy Hne) as [E|E].
  - by rewrite <- E.
  - rewrite E in Hc. destruct (cell b cx cy); [|done].
    injection Hc as <-. done.
Qed.

(** The move of a click in a state the game has reached, in the terms of
    [consistent_move]. *)
Lemma invariant_move gs x y gs' :
  invariant gs → applies_move gs x y → move_selected gs x y = Some gs' →
  ∃ p dx dy k,
    cell (board gs) (selectedX gs) (selectedY gs) = Some p
    ∧ type p ≠ NONE ∧ player p = currentPlayer gs
    ∧ dir_ok dx ∧ dir_ok dy ∧ 1 ≤ k
    ∧ x = selectedX gs + k * dx ∧ y = selectedY gs + k * dy
    ∧ (cell (board gs') x y = Some p ∨ cell (board gs') x y = Some (crown p))
    ∧ count_pieces (currentPlayer gs) (board gs')
      = count_pieces (currentPlayer gs) (board gs)
    ∧ score_of (other (currentPlayer gs)) gs'
      = score_of (other (currentPlayer gs)) gs
    ∧ score_of (currentPlayer gs) gs'
      + count_pieces (other (currentPlayer gs)) (board gs')
      = score_of (currentPlayer gs) gs
        + count_pieces (other (currentPlayer gs)) (board gs)
    ∧ score_of (currentPlayer gs) gs ≤ score_of (currentPlayer gs) gs'.
Proof.
  intros Hinv Happ Hrun. pose proof (invariant_score gs Hinv) as Hscore.
  destruct Hinv as (Hwf & Hranks & Hcons & Hsum).
  specialize (Hcons (proj1 Happ)).
  destruct (consistent_facts gs Hwf Hcons) as (p & Hp & Hty & Hpl & Hok & _).
  pose proof (applies_move_candidate gs x y Hok Happ) as Hcand.
  destruct (consistent_move gs x y Hwf Hcons Hcand Hscore)
    as (g & p' & dx & dy & k & Hg & _ & Hp' & Hdx & Hdy & Hk & Hx & Hy & _
        & Hdest & Hown & Hwait & Hcase).
  rewrite Hrun in Hg. injection Hg as <-.
  rewrite Hp in Hp'. injection Hp' as <-.
  exists p, dx, dy, k. do 10 (split; [done|]).
  destruct Hcase as [(_ & _ & -> & -> & _) | (_ & _ & -> & -> & _)];
    split; lia.
Qed.

Lemma reached_opening : reached empty_state opening opening_state.
Proof. split; [solve_wf | vm_compute; reflexivity]. Qed.

(** ** The start of a game *)

(** The two loops of [InitializeGame] write every cell once. *)
Lemma InitializeGame_cells gs :
  wf_state gs →
  ∃ g0, InitializeGame gs = Some g0
    ∧ wf_state g0
    ∧ (∀ x y, in_bounds x y = true →
         ∃ old, cell (board gs) x y = Some old
                ∧ cell (board g0) x y = Some (initial_piece x y old))
    ∧ g0 = mkGameState (board g0) PLAYER1 0 0 false (-1) (-1)
             (validMoves gs) (validMoveCount gs) (isCapturing gs).
Proof.
  intros [[Hlen Hrows] Hvm].
  destruct gs as [b cur s1 s2 sel sx sy vm cnt cap]. simpl in *.
  list8 b Hlen.
  repeat match goal with
         | H : Forall _ (_ :: _) |- _ => apply Forall_cons in H as [? H]
         end.
  clear Hrows.
  repeat match goal with
         | H : length ?r = 8%nat |- _ => list8 r H
         end.
  eexists. split; [vm_compute; reflexivity|].
  split.
  { split; [|done]. split; [reflexivity|].
    repeat (apply Forall_cons; split; [reflexivity|]). apply Forall_nil_2. }
  split; [|reflexivity].
  intros x y Hin. apply in_bounds_spec in Hin as [Hx Hy].
  assert (x = 0 ∨ x = 1 ∨ x = 2 ∨ x = 3 ∨ x = 4 ∨ x = 5 ∨ x = 6 ∨ x = 7)
    as Hxs by lia.
  assert (y = 0 ∨ y = 1 ∨ y = 2 ∨ y = 3 ∨ y = 4 ∨ y = 5 ∨ y = 6 ∨ y = 7)
    as Hys by lia.
  clear Hx Hy.
  destruct Hxs as [->|[->|[->|[->|[->|[->|[->| ->]]]]]]];
    destruct Hys as [->|[->|[->|[->|[->|[->|[->| ->]]]]]]];
    eexists; (split; [reflexivity|]); reflexivity.
Qed.

Lemma initial_piece_cases x y old :
  let c := initial_piece x y old in
  isKing c = false
  ∧ ((type c = REGULAR ∧ player c = PLAYER1 ∧ dark x y = true ∧ y < 3)
     ∨ (type c = REGULAR ∧ player c = PLAYER2 ∧ dark x y = true ∧ 5 ≤ y)
     ∨ (type c = NONE ∧ player c = player old
        ∧ (dark x y = false ∨ 3 ≤ y < 5))).
Proof.
  unfold initial_piece, dark, ROWS. simpl.
  destruct ((x + y) `rem` 2 =? 0); simpl.
  { split; [done|]. right. right. auto. }
  destruct (y <? 3) eqn:H1; simpl.
  { split; [done|]. left. repeat split. lia. }
  destruct (y >=? 8 - 3) eqn:H2; simpl.
  { split; [done|]. right. left. repeat split. lia. }
  split; [done|]. right. right. repeat split. right. lia.
Qed.

(** X1: the start position: men of PLAYER1 on the dark cells of the rows 0 to
    2, men of PLAYER2 on the dark cells of the rows 5 to 7, nothing else, no
    king; PLAYER1 to move, no score, nothing selected. The owner field of an
    empty cell, the candidate array, its count and the chain flag are what
    they were before the call. *)
Theorem start_position (gs : GameState) :
  wf_state gs →
  ∃ g0, InitializeGame gs = Some g0
    ∧ (∀ x y, in_bounds x y = true →
         ∃ c old, cell (board g0) x y = Some c
           ∧ cell (board gs) x y = Some old
           ∧ isKing c = false
           ∧ type c = (if dark x y && ((y <? 3) || (5 <=? y))
                       then REGULAR else NONE)
           ∧ player c = (if dark x y && (y <? 3) then PLAYER1
                         else if dark x y && (5 <=? y) then PLAYER2
                         else player old))
    ∧ count_pieces PLAYER1 (board g0) = 12
    ∧ count_pieces PLAYER2 (board g0) = 12
    ∧ currentPlayer g0 = PLAYER1
    ∧ player1Score g0 = 0 ∧ player2Score g0 = 0
    ∧ pieceSelected g0 = false
    ∧ validMoves g0 = validMoves gs
    ∧ validMoveCount g0 = validMoveCount gs
    ∧ isCapturing g0 = isCapturing gs.
Proof.
  intros Hwf.
  destruct (InitializeGame_cells gs Hwf) as (g0 & Hg0 & _ & Hcells & Heq).
  destruct (InitializeGame_invariant gs Hwf) as (g1 & Hg1 & _ & Hn1 & Hn2).
  rewrite Hg0 in Hg1. injection Hg1 as <-.
  exists g0. split; [done|]. split.
  { intros x y Hin. destruct (Hcells x y Hin) as (old & Hold & Hc).
    exists (initial_piece x y old), old. split; [done|]. split; [done|].
    destruct (initial_piece_cases x y old)
      as (Hk & [(Ht & Hp & Hd & Hy) | [(Ht & Hp & Hd & Hy)
                                      | (Ht & Hp & [Hd | Hy])]]);
      (split; [done|]); rewrite Ht, Hp, ?Hd; simpl.
    - by rewrite (proj2 (Z.ltb_lt _ _) Hy).
    - rewrite (proj2 (Z.leb_le _ _) Hy).
      replace (y <? 3) with false by lia. done.
    - done.
    - replace (y <? 3) with false by lia.
      replace (5 <=? y) with false by lia.
      by rewrite !andb_false_r. }
  split; [done|]. split; [done|].
  rewrite Heq. by repeat split.
Qed.

Lemma start_position_witness :
  ∃ g0, InitializeGame empty_state = Some g0
    ∧ (∀ x y, in_bounds x y = true →
         ∃ c old, cell (board g0) x y = Some c
           ∧ cell (board empty_state) x y = Some old
           ∧ isKing c = false
           ∧ type c = (if dark x y && ((y <? 3) || (5 <=? y))
                       then REGULAR else NONE)
           ∧ player c = (if dark x y && (y <? 3) then PLAYER1
                         else if dark x y && (5 <=? y) then PLAYER2
                         else player old))
    ∧ count_pieces PLAYER1 (board g0) = 12
    ∧ count_pieces PLAYER2 (board g0) = 12
    ∧ currentPlayer g0 = PLAYER1
    ∧ player1Score g0 = 0 ∧ player2Score g0 = 0
    ∧ pieceSelected g0 = false
    ∧ validMoves g0 = validMoves empty_state
    ∧ validMoveCount g0 = validMoveCount empty_state
    ∧ isCapturing g0 = isCapturing empty_state.
Proof. apply (start_position empty_state). solve_wf. Defined.

(** ** Scores and pieces *)

Lemma reached_balance gs0 clicks g :
  reached gs0 clicks g →
  ∀ p, score_of p g + count_pieces (other p) (board g) = 12
       ∧ 0 ≤ score_of p g.
Proof.
  intros Hreach.
  refine (reached_ind
            (λ g, ∀ p, score_of p g + count_pieces (other p) (board g) = 12
                       ∧ 0 ≤ score_of p g) _ _ gs0 clicks g Hreach);
    clear.
  - intros gs0 g0 Hwf Hinit.
    destruct (InitializeGame_invariant gs0 Hwf)
      as (g1 & Hg1 & _ & Hn1 & Hn2).
    rewrite Hinit in Hg1. injection Hg1 as <-.
    destruct (InitializeGame_cells gs0 Hwf) as (g1 & Hg1 & _ & _ & Heq).
    rewrite Hinit in Hg1. injection Hg1 as <-.
    rewrite Heq in *. intros []; simpl in *; lia.
  - intros gs x y gs' Hinv HP Hrun.
    destruct (HandleInput_cases gs x y gs' (proj1 Hinv) Hrun)
      as [(Hb & _ & H1 & H2 & _) | [Happ Hmove]].
    + intros p. specialize (HP p). rewrite Hb.
      destruct p; simpl in *; lia.
    + destruct (invariant_move gs x y gs' Hinv Happ Hmove)
        as (p & dx & dy & k & _ & _ & _ & _ & _ & _ & _ & _ & _
            & Hown & Hwait & Hsum & Hup).
      intros q. pose proof (HP (currentPlayer gs)) as H1.
      pose proof (HP (other (currentPlayer gs))) as H2.
      destruct q, (currentPlayer gs); simpl in *; lia.
Qed.

(** X2: in every state of a game a score is the number of pieces the other
    side has lost: the score of a player and the pieces the opponent has on
    the board add up to the 12 pieces a side starts with. So no score and no
    count of pieces leaves the range from 0 to 12. *)
Theorem score_counts_pieces_taken (gs0 : GameState) (clicks : list (Z * Z))
    (g : GameState) :
  reached gs0 clicks g →
  ∀ p, score_of p g + count_pieces (other p) (board g) = 12
       ∧ 0 ≤ score_of p g ≤ 12
       ∧ 0 ≤ count_pieces p (board g) ≤ 12.
Proof.
  intros Hreach p.
  pose proof (reached_balance _ _ _ Hreach p) as [H1 H2].
  pose proof (reached_balance _ _ _ Hreach (other p)) as [H3 H4].
  pose proof (count_pieces_nonneg (other p) (board g)).
  pose proof (count_pieces_nonneg p (board g)).
  replace (other (other p)) with p in H3 by by destruct p.
  lia.
Qed.

Lemma score_counts_pieces_taken_witness :
  score_of PLAYER1 opening_state
  + count_pieces (other PLAYER1) (board opening_state) = 12
  ∧ 0 ≤ score_of PLAYER1 opening_state ≤ 12
  ∧ 0 ≤ count_pieces PLAYER1 (board opening_state) ≤ 12.
Proof.
  apply (score_counts_pieces_taken empty_state opening opening_state).
  split; [solve_wf | vm_compute; reflexivity].
Defined.

(** The game of the witnesses, computed: PLAYER1 has taken one man. *)
Example opening_takes_a_man :
  (player1Score opening_state, player2Score opening_state,
   count_pieces PLAYER1 (board opening_state),
   count_pieces PLAYER2 (board opening_state),
   currentPlayer opening_state)
  = (1, 0, 12, 11, PLAYER2).
Proof. vm_compute. reflexivity. Qed.

(** ** Where the pieces stand *)

Lemma dark_diagonal x y dx dy k :
  dir_ok dx → dir_ok dy → dark (x + k * dx) (y + k * dy) = dark x y.
Proof.
  intros Hdx Hdy. unfold dark. f_equal.
  assert (∀ a b, (2 | b - a) → (a `rem` 2 =? 0) = (b `rem` 2 =? 0)) as Hpar.
  { intros a b [q Hq].
    destruct (a `rem` 2 =? 0) eqn:Ha, (b `rem` 2 =? 0) eqn:Hb; try done.
    - apply Z.eqb_eq in Ha. apply Z.eqb_neq in Hb. exfalso. apply Hb.
      apply Z.rem_divide in Ha as [r Hr]; [|done].
      apply Z.rem_divide; [done|]. exists (q + r). lia.
    - apply Z.eqb_eq in Hb. apply Z.eqb_neq in Ha. exfalso. apply Ha.
      apply Z.rem_divide in Hb as [r Hr]; [|done].
      apply Z.rem_divide; [done|]. exists (r - q). lia. }
  apply Hpar.
  destruct Hdx as [-> | ->], Hdy as [-> | ->].
  - exists (- k). lia.
  - exists 0. lia.
  - exists 0. lia.
  - exists k. lia.
Qed.

(** X3: throughout a game every piece stands on a dark cell. *)
Theorem pieces_stay_on_dark_squares (gs0 : GameState)
    (clicks : list (Z * Z)) (g : GameState) :
  reached gs0 clicks g →
  ∀ x y c, cell (board g) x y = Some c → type c ≠ NONE → dark x y = true.
Proof.
  intros Hreach.
  refine (reached_ind (λ g, on_dark_squares (board g)) _ _
            gs0 clicks g Hreach); clear.
  - intros gs0 g0 Hwf Hinit x y c Hc Hty.
    destruct (InitializeGame_cells gs0 Hwf) as (g1 & Hg1 & _ & Hcells & _).
    rewrite Hinit in Hg1. injection Hg1 as <-.
    destruct (Hcells x y (cell_in_bounds _ _ _ _ Hc)) as (old & _ & Hc').
    rewrite Hc in Hc'. injection Hc' as ->.
    destruct (initial_piece_cases x y old)
      as (_ & [(_ & _ & Hd & _) | [(_ & _ & Hd & _) | (Ht & _)]]); done.
  - intros gs x y gs' Hinv HP Hrun.
    destruct (HandleInput_cases gs x y gs' (proj1 Hinv) Hrun)
      as [(Hb & _) | [Happ Hmove]].
    { by rewrite Hb. }
    destruct (invariant_move gs x y gs' Hinv Happ Hmove)
      as (p & dx & dy & k & Hp & Hty & _ & Hdx & Hdy & _ & Hx & Hy & _).
    pose proof (move_selected_cleared gs x y gs' (proj1 Hinv) Hmove) as Hcl.
    intros cx cy c Hc Htc.
    destruct (decide ((cx, cy) = (x, y))) as [[= -> ->] | Hne].
    + rewrite Hx, Hy, dark_diagonal by done. by eapply HP.
    + eapply HP; [|done]. by eapply cleared_outside_piece.
Qed.

Lemma pieces_stay_on_dark_squares_witness :
  cell (board opening_state) 4 5 = Some man1 ∧ dark 4 5 = true.
Proof.
  split; [vm_compute; reflexivity|].
  refine (pieces_stay_on_dark_squares empty_state opening opening_state _
            4 5 man1 _ _).
  - split; [solve_wf | vm_compute; reflexivity].
  - vm_compute. reflexivity.
  - discriminate.
Defined.

Lemma move_selected_far_row gs x y gs' :
  wf_state gs → move_selected gs x y = Some gs' →
  y = far_row (currentPlayer gs) →
  ∃ d, cell (board gs') x y = Some d ∧ type d = KING.
Proof.
  intros Hwf Hrun Hy.
  apply move_selected_inv in Hrun
    as (gs1 & isCapture & mp & b2 & b3 & ws & gs4 & dest & Hcap & Hwf1 & Hmp
        & Hb2 & Hb3 & Hws & Hgs4 & Hwf4 & Hdest & Hboard & Hend); [|done].
  assert (currentPlayer gs1 = currentPlayer gs) as Hcur.
  { destruct ((Z.abs (selectedX gs - x) >? 1)
              && (Z.abs (selectedY gs - y) >? 1)).
    - by apply capture_block_inv in Hcap as ((-> & _) & _).
    - by destruct Hcap as [-> _]. }
  exists dest. rewrite Hboard. split; [done|].
  assert (∃ b, update_cell b3 x y crown = Some b ∧ board gs4 = b)
    as (b & Hb & Hb4).
  { unfold PromoteToKing in Hgs4. simpl in Hgs4. rewrite Hcur in Hgs4.
    unfold far_row in Hy.
    destruct (currentPlayer gs); simpl in Hgs4; subst y;
      change (ROWS - 1 =? ROWS - 1) with true in Hgs4;
      change (0 =? 0) with true in Hgs4; simpl in Hgs4;
      apply bind_Some in Hgs4 as (b & Hb & [= <-]); eauto. }
  rewrite Hb4, (cell_update_eq _ _ _ _ _ Hb) in Hdest.
  destruct (cell b3 x y); [|done]. by injection Hdest as <-.
Qed.

(** X4: throughout a game the two records of the rank of a piece agree, and no
    man stands on the row furthest from its side: a piece on that row is a
    king. *)
Theorem far_row_holds_kings (gs0 : GameState) (clicks : list (Z * Z))
    (g : GameState) :
  reached gs0 clicks g →
  ∀ x y c, cell (board g) x y = Some c → type c ≠ NONE →
    isKing c = is_KING (type c)
    ∧ (y = far_row (player c) → type c = KING).
Proof.
  intros Hreach x y c Hc Hty. split.
  { destruct (reached_invariant _ _ _ Hreach) as (_ & Hranks & _).
    by eapply ranks_consistent_cell. }
  revert x y c Hc Hty.
  refine (reached_ind
            (λ g, ∀ x y c, cell (board g) x y = Some c → type c ≠ NONE →
                           y = far_row (player c) → type c = KING) _ _
            gs0 clicks g Hreach); clear.
  - intros gs0 g0 Hwf Hinit x y c Hc Hty Hy.
    destruct (InitializeGame_cells gs0 Hwf) as (g1 & Hg1 & _ & Hcells & _).
    rewrite Hinit in Hg1. injection Hg1 as <-.
    destruct (Hcells x y (cell_in_bounds _ _ _ _ Hc)) as (old & _ & Hc').
    rewrite Hc in Hc'. injection Hc' as ->.
    destruct (initial_piece_cases x y old)
      as (_ & [(_ & Hp & _ & Hlt) | [(_ & Hp & _ & Hlt) | (Ht & _)]]);
      [| |done]; rewrite Hp in Hy; unfold far_row, ROWS in Hy; lia.
  - intros gs x y gs' Hinv HP Hrun.
    destruct (HandleInput_cases gs x y gs' (proj1 Hinv) Hrun)
      as [(Hb & _) | [Happ Hmove]].
    { by rewrite Hb. }
    destruct (invariant_move gs x y gs' Hinv Happ Hmove)
      as (p & dx & dy & k & Hp & Hty & Hpl & _ & _ & _ & _ & _ & Hdest & _).
    pose proof (move_selected_cleared gs x y gs' (proj1 Hinv) Hmove) as Hcl.
    intros cx cy c Hc Htc Hfar.
    destruct (decide ((cx, cy) = (x, y))) as [[= -> ->] | Hne].
    + assert (player c = currentPlayer gs) as Hpc.
      { rewrite Hc in Hdest.
        by destruct Hdest as [[= ->] | [= ->]]. }
      rewrite Hpc in Hfar.
      destruct (move_selected_far_row gs x y gs' (proj1 Hinv) Hmove Hfar)
        as (d & Hd & Hk).
      congruence.
    + eapply HP; [|done|done]. by eapply cleared_outside_piece.
Qed.

Lemma far_row_holds_kings_witness :
  cell (board crowned_state) 3 0 = Some (mkPiece KING PLAYER2 true)
  ∧ isKing (mkPiece KING PLAYER2 true)
    = is_KING (type (mkPiece KING PLAYER2 true))
  ∧ (0 = far_row (player (mkPiece KING PLAYER2 true)) →
     type (mkPiece KING PLAYER2 true) = KING).
Proof.
  split; [vm_compute; reflexivity|].
  refine (far_row_holds_kings empty_state crowning crowned_state _
            3 0 (mkPiece KING PLAYER2 true) _ _).
  - split; [solve_wf | vm_compute; reflexivity].
  - vm_compute. reflexivity.
  - discriminate.
Defined.

(** ** Clicks *)

(** X6: a click either moves the selected piece to a cell among the stored
    candidates, or it leaves the board, both scores, the side to move and the
    chain flag as they are: selecting, deselecting and clicks without effect
    never change the game. *)
Theorem click_moves_or_keeps_game (gs : GameState) (x y : Z)
    (gs' : GameState) :
  wf_state gs → HandleInput gs x y = Some gs' →
  same_game gs gs'
  ∨ (pieceSelected gs = true
     ∧ IsValidMove gs (selectedX gs) (selectedY gs) x y = Some true
     ∧ move_selected gs x y = Some gs').
Proof.
  intros Hwf Hrun.
  destruct (HandleInput_cases gs x y gs' Hwf Hrun)
    as [Hsame | [(Hsel & _ & Hvalid) Hmove]]; [by left|by right].
Qed.

Lemma click_moves_or_keeps_game_witness :
  same_game start_state (default start_state (HandleInput start_state 1 2))
  ∨ (pieceSelected start_state = true
     ∧ IsValidMove start_state (selectedX start_state)
         (selectedY start_state) 1 2 = Some true
     ∧ move_selected start_state 1 2
       = Some (default start_state (HandleInput start_state 1 2))).
Proof.
  apply (click_moves_or_keeps_game start_state 1 2).
  - solve_wf.
  - vm_compute. reflexivity.
Defined.

(** X8: in every state of a game in which a piece is selected, the piece
    belongs to the player to move, and the stored candidates are the ones the
    generator gives for that piece on the board as it is now: to run the
    generator again changes nothing. *)
Theorem selection_is_up_to_date (gs0 : GameState) (clicks : list (Z * Z))
    (g : GameState) :
  reached gs0 clicks g → pieceSelected g = true →
  (∃ p, cell (board g) (selectedX g) (selectedY g) = Some p
        ∧ type p ≠ NONE ∧ player p = currentPlayer g)
  ∧ 0 ≤ validMoveCount g ≤ MAX_VALID_MOVES
  ∧ FindValidMoves g (selectedX g) (selectedY g) (isCapturing g) = Some g.
Proof.
  intros Hreach Hsel.
  destruct (reached_invariant _ _ _ Hreach) as (Hwf & _ & Hcons & _).
  specialize (Hcons Hsel).
  destruct (consistent_facts g Hwf Hcons) as (p & Hp & Hty & Hpl & Hok & _).
  split; [eauto|]. split; [apply Hok|]. apply Hcons.
Qed.

Lemma selection_is_up_to_date_witness :
  (∃ p, cell (board selected_state) (selectedX selected_state)
          (selectedY selected_state) = Some p
        ∧ type p ≠ NONE ∧ player p = currentPlayer selected_state)
  ∧ 0 ≤ validMoveCount selected_state ≤ MAX_VALID_MOVES
  ∧ FindValidMoves selected_state (selectedX selected_state)
      (selectedY selected_state) (isCapturing selected_state)
    = Some selected_state.
Proof.
  apply (selection_is_up_to_date empty_state [(1, 2)] selected_state).
  - split; [solve_wf | vm_compute; reflexivity].
  - reflexivity.
Defined.

Lemma candidates_on_board gs x y :
  wf_state gs → consistent gs → mkPosition x y ∈ candidates gs →
  in_bounds x y = true.
Proof.
  intros Hwf Hcons Hin.
  destruct (consistent_facts gs Hwf Hcons) as (p & Hp & _ & _ & _ & Hcand).
  rewrite Hcand in Hin. apply subseteq_take in Hin.
  destruct (candidate_reach _ _ _ _ _ _ Hp Hin)
    as (dx & dy & k & _ & _ & _ & Heq & (c & Hc & _) & _).
  injection Heq as -> ->. by eapply cell_in_bounds.
Qed.

(** X10: a click outside the board, in a state of a game. With nothing
    selected it is ignored; during a chain of captures it is ignored; with a
    piece selected and no chain it makes [HandleInput] read [board[y][x]]
    outside the array, which has no defined result. *)
Theorem click_outside_board (gs0 : GameState) (clicks : list (Z * Z))
    (g : GameState) (x y : Z) :
  reached gs0 clicks g → in_bounds x y = false →
  HandleInput g x y
  = if pieceSelected g && negb (isCapturing g) then None else Some g.
Proof.
  intros Hreach Hout.
  destruct (reached_invariant _ _ _ Hreach) as (Hwf & _ & Hcons & _).
  unfold HandleInput.
  destruct (pieceSelected g) eqn:Hsel; cbn [negb andb].
  - destruct (isCapturing g) eqn:Hcap; cbn [negb bind].
    + specialize (Hcons eq_refl).
      destruct (consistent_facts g Hwf Hcons) as (_ & _ & _ & _ & Hok & _).
      rewrite (IsValidMove_spec _ _ _ _ _ Hok). cbn [bind].
      case_bool_decide as Hvalid; [|done].
      apply (candidates_on_board g x y Hwf Hcons) in Hvalid. congruence.
    + unfold own_piece_at. by rewrite (cell_out _ _ _ Hout).
  - destruct (isCapturing g); cbn [negb]; [done|].
    replace ((x >=? 0) && (x <? COLS) && (y >=? 0) && (y <? ROWS))
      with (in_bounds x y); [by rewrite Hout|].
    unfold in_bounds. by rewrite !Z.geb_leb.
Qed.

Lemma click_outside_board_witness :
  HandleInput selected_state 9 1
  = if pieceSelected selected_state && negb (isCapturing selected_state)
    then None else Some selected_state.
Proof.
  apply (click_outside_board empty_state [(1, 2)] selected_state 9 1).
  - split; [solve_wf | vm_compute; reflexivity].
  - reflexivity.
Defined.

(** The click of that witness, computed: with the man at (1,2) selected, a
    click in the panel beside the board has no defined result. *)
Example panel_click_reads_outside_board :
  pieceSelected selected_state = true
  ∧ HandleInput selected_state 9 1 = None.
Proof. split; vm_compute; reflexivity. Qed.



(** X11: [InitializeGame] does not assign the chain flag, and with the flag
    set and nothing selected [HandleInput] does nothing. So a game started on
    a state whose chain flag is set - memory that was never written, or the
    state of a game that ended in the middle of a chain - takes no click at
    all: the state stays the start position whatever is clicked. *)
Theorem chain_flag_freezes_new_game (gs : GameState) :
  wf_state gs → isCapturing gs = true →
  ∃ g0, InitializeGame gs = Some g0
    ∧ ∀ clicks, play g0 clicks = Some g0.
Proof.
  intros Hwf Hcap.
  destruct (InitializeGame_cells gs Hwf) as (g0 & Hg0 & _ & _ & Heq).
  exists g0. split; [done|].
  assert (∀ x y, HandleInput g0 x y = Some g0) as Hstep.
  { intros x y. unfold HandleInput. rewrite Heq. simpl. by rewrite Hcap. }
  induction clicks as [|c clicks IH]; [done|].
  cbn [play]. by rewrite Hstep.
Qed.

Lemma chain_flag_freezes_new_game_witness :
  ∃ g0, InitializeGame (gameState chain_end_session) = Some g0
    ∧ ∀ clicks, play g0 clicks = Some g0.
Proof.
  apply (chain_flag_freezes_new_game (gameState chain_end_session)).
  - solve_wf.
  - vm_compute. reflexivity.
Defined.

(** * The generator: every cell a king can reach is offered *)

Lemma king_ray_simple b piece sx sy dx dy k :
  clear_run b sx sy dx dy k → empty_at b (sx + k * dx) (sy + k * dy) →
  ∀ fuel i, 0 ≤ i < k → k - i ≤ Z.of_nat fuel →
  mkPosition (sx + k * dx) (sy + k * dy)
  ∈ king_ray fuel b piece false dx dy (sx + i * dx) (sy + i * dy) false.
Proof.
  intros Hrun Hend fuel.
  induction fuel as [|fuel IH]; intros i Hi Hfuel; [simpl in Hfuel; lia|].
  rewrite king_ray_S.
  replace (sx + i * dx + dx) with (sx + (i + 1) * dx) by lia.
  replace (sy + i * dy + dy) with (sy + (i + 1) * dy) by lia.
  assert (empty_at b (sx + (i + 1) * dx) (sy + (i + 1) * dy))
    as (c & Hc & Ht).
  { destruct (decide (i + 1 = k)) as [->|]; [done|]. apply Hrun. lia. }
  rewrite Hc. rewrite (proj2 (is_NONE_true _) Ht). simpl.
  destruct (decide (i + 1 = k)) as [->|]; [by left|].
  right. apply IH; lia.
Qed.

Lemma king_ray_capture b piece after sx sy dx dy k :
  capture_reach b (player piece) sx sy dx dy k →
  empty_at b (sx + k * dx) (sy + k * dy) →
  ∀ fuel i, 0 ≤ i < k - 1 → k - i ≤ Z.of_nat fuel →
  mkPosition (sx + k * dx) (sy + k * dy)
  ∈ king_ray fuel b piece after dx dy (sx + i * dx) (sy + i * dy) false.
Proof.
  intros (Hk & Hrun & (o & Ho & Hto & Hpo)) (e & He & Hte) fuel.
  induction fuel as [|fuel IH]; intros i Hi Hfuel; [simpl in Hfuel; lia|].
  rewrite king_ray_S.
  replace (sx + i * dx + dx) with (sx + (i + 1) * dx) by lia.
  replace (sy + i * dy + dy) with (sy + (i + 1) * dy) by lia.
  destruct (decide (i + 1 = k - 1)) as [Hlast|Hmore].
  - rewrite Hlast, Ho.
    rewrite (proj2 (is_NONE_false _) Hto).
    rewrite (proj2 (same_player_false _ _) Hpo). simpl.
    destruct fuel as [|fuel]; [simpl in Hfuel; lia|].
    rewrite king_ray_S.
    replace (sx + (k - 1) * dx + dx) with (sx + k * dx) by lia.
    replace (sy + (k - 1) * dy + dy) with (sy + k * dy) by lia.
    rewrite He, (proj2 (is_NONE_true _) Hte). by left.
  - destruct (Hrun (i + 1)) as (c & Hc & Ht); [lia|].
    rewrite Hc, (proj2 (is_NONE_true _) Ht).
    assert (mkPosition (sx + k * dx) (sy + k * dy)
            ∈ king_ray fuel b piece after dx dy (sx + (i + 1) * dx)
                (sy + (i + 1) * dy) false) as Hin by (apply IH; lia).
    destruct after; simpl; [done|by right].
Qed.

Lemma elem_of_king_directions_2 dx dy :
  dir_ok dx → dir_ok dy → (dx, dy) ∈ king_directions.
Proof.
  unfold king_directions.
  intros [-> | ->] [-> | ->]; repeat (try (by left); right).
Qed.

(** The cells a king can go to: an empty cell on a diagonal through the
    source, with nothing but empty cells before it (a simple move) or with
    empty cells and then one piece of the opponent right before it (a
    capture). *)
Lemma moves_of_king b sx sy p after pos :
  wf_board b → cell b sx sy = Some p → isKing p = true →
  pos ∈ moves_of b sx sy after
  ↔ ∃ dx dy k, dir_ok dx ∧ dir_ok dy ∧ 1 ≤ k
      ∧ pos = mkPosition (sx + k * dx) (sy + k * dy)
      ∧ empty_at b (sx + k * dx) (sy + k * dy)
      ∧ ((after = false ∧ clear_run b sx sy dx dy k)
         ∨ capture_reach b (player p) sx sy dx dy k).
Proof.
  intros Hwf Hp Hking. split.
  { intros Hpos.
    destruct (candidate_reach _ _ _ _ _ _ Hp Hpos)
      as (dx & dy & k & ? & ? & ? & ? & ? & ? & _).
    by exists dx, dy, k. }
  intros (dx & dy & k & Hdx & Hdy & Hk & -> & Hempty & Hcase).
  unfold moves_of. rewrite Hp, Hking.
  apply elem_of_concat_map. exists (dx, dy).
  split; [by apply elem_of_king_directions_2|]. simpl.
  assert (k ≤ 7) as Hk7.
  { destruct Hempty as (c & Hc & _).
    apply cell_in_bounds, in_bounds_spec in Hc.
    apply cell_in_bounds, in_bounds_spec in Hp.
    destruct Hdx as [-> | ->]; lia. }
  replace sx with (sx + 0 * dx) at 2 by lia.
  replace sy with (sy + 0 * dy) at 2 by lia.
  destruct Hcase as [[-> Hrun] | Hcap].
  - apply king_ray_simple; try done; unfold SCAN_FUEL; lia.
  - apply king_ray_capture; try done; [|unfold SCAN_FUEL; lia].
    destruct Hcap as (? & _). lia.
Qed.

(** ** The capacity of the candidate array *)

Lemma king_ray_length b piece after dx dy :
  ∀ fuel x y found,
  (length (king_ray fuel b piece after dx dy x y found)
   ≤ room fuel x y dx dy)%nat.
Proof.
  induction fuel as [|fuel IH]; intros x y found; [done|].
  rewrite king_ray_S. cbn [room].
  destruct (cell b (x + dx) (y + dy)) as [c|] eqn:Hc; [|simpl; lia].
  rewrite (cell_in_bounds _ _ _ _ Hc).
  pose proof (IH (x + dx) (y + dy) false).
  pose proof (IH (x + dx) (y + dy) true).
  destruct (is_NONE (type c)), found, after,
    (same_player (player c) (player piece)); simpl; lia.
Qed.

Lemma room_total x y :
  in_bounds x y = true →
  (room SCAN_FUEL x y 1 1 + room SCAN_FUEL x y (-1) 1
   + room SCAN_FUEL x y 1 (-1) + room SCAN_FUEL x y (-1) (-1) ≤ 13)%nat.
Proof.
  intros Hin. apply in_bounds_spec in Hin as [Hx Hy].
  assert (x = 0 ∨ x = 1 ∨ x = 2 ∨ x = 3 ∨ x = 4 ∨ x = 5 ∨ x = 6 ∨ x = 7)
    as Hxs by lia.
  assert (y = 0 ∨ y = 1 ∨ y = 2 ∨ y = 3 ∨ y = 4 ∨ y = 5 ∨ y = 6 ∨ y = 7)
    as Hys by lia.
  clear Hx Hy.
  destruct Hxs as [->|[->|[->|[->|[->|[->|[->| ->]]]]]]];
    destruct Hys as [->|[->|[->|[->|[->|[->|[->| ->]]]]]]];
    vm_compute; lia.
Qed.

Lemma regular_ray_length b piece after x y d :
  (length (regular_ray b piece after x y d) ≤ 2)%nat.
Proof.
  unfold regular_ray.
  destruct (cell b (x + d.1) (y + d.2)) as [n|]; [|simpl; lia].
  rewrite length_app.
  destruct (is_NONE (type n) && negb after);
    destruct (cell b (x + 2 * d.1) (y + 2 * d.2)) as [c|]; simpl; try lia;
    destruct (is_NONE (type c) && negb (is_NONE (type n))
              && negb (same_player (player n) (player piece))); simpl; lia.
Qed.

(** The generator tries to append at most 13 cells: 4 for a regular piece,
    and for a king the cells of its four diagonals. *)
Lemma moves_of_length b x y after :
  in_bounds x y = true → (length (moves_of b x y after) ≤ 13)%nat.
Proof.
  intros Hin. unfold moves_of.
  destruct (cell b x y) as [p|]; [|simpl; lia].
  destruct (isKing p).
  - pose proof (room_total x y Hin).
    pose proof (king_ray_length b p after 1 1 SCAN_FUEL x y false).
    pose proof (king_ray_length b p after (-1) 1 SCAN_FUEL x y false).
    pose proof (king_ray_length b p after 1 (-1) SCAN_FUEL x y false).
    pose proof (king_ray_length b p after (-1) (-1) SCAN_FUEL x y false).
    unfold king_directions. cbn [map concat fst snd].
    rewrite !length_app, length_nil. lia.
  - destruct (player p); unfold regular_directions; cbn [map concat];
      rewrite !length_app, length_nil.
    + pose proof (regular_ray_length b p after x y (1, 1)).
      pose proof (regular_ray_length b p after x y (-1, 1)). lia.
    + pose proof (regular_ray_length b p after x y (1, -1)).
      pose proof (regular_ray_length b p after x y (-1, -1)). lia.
Qed.

(** X12: the candidates of a king are cells it can reach, and unless the array
    is full they are all the cells it can reach. The array has room for 12
    cells and a king can reach up to 13: at most one cell a king can reach is
    missing from its candidates. *)
Theorem king_candidates (gs : GameState) (x y : Z) (p : Piece)
    (after : bool) :
  wf_state gs → cell (board gs) x y = Some p → isKing p = true →
  ∃ gs', FindValidMoves gs x y after = Some gs'
    ∧ (∀ pos, pos ∈ candidates gs' →
         king_reaches (board gs) (player p) after x y pos)
    ∧ (validMoveCount gs' < MAX_VALID_MOVES →
       ∀ pos, king_reaches (board gs) (player p) after x y pos →
         pos ∈ candidates gs')
    ∧ (∀ pos1 pos2,
         king_reaches (board gs) (player p) after x y pos1 →
         king_reaches (board gs) (player p) after x y pos2 →
         pos1 ∉ candidates gs' → pos2 ∉ candidates gs' → pos1 = pos2).
Proof.
  intros Hwf Hp Hking.
  pose proof (cell_in_bounds _ _ _ _ Hp) as Hin.
  destruct (FindValidMoves_spec gs x y after Hwf Hin)
    as (gs' & Hrun & _ & [Hlen Hcount] & Hcand).
  exists gs'. split; [done|].
  pose proof (moves_of_length (board gs) x y after Hin) as Hmax.
  assert (∀ pos, king_reaches (board gs) (player p) after x y pos
                 ↔ pos ∈ moves_of (board gs) x y after) as Hreach.
  { intros pos. symmetry. by apply moves_of_king; [apply Hwf|..]. }
  split; [|split].
  - intros pos Hpos. apply Hreach. rewrite Hcand in Hpos.
    by apply subseteq_take in Hpos.
  - intros Hlt pos Hpos. apply Hreach in Hpos.
    assert (length (candidates gs') = Z.to_nat (validMoveCount gs')) as Hl.
    { unfold candidates. rewrite length_take. lia. }
    rewrite Hcand, length_take in Hl.
    rewrite Hcand, take_ge; [done|]. unfold MAX_VALID_MOVES in Hlt. lia.
  - intros pos1 pos2 H1 H2 Hn1 Hn2.
    apply Hreach in H1, H2.
    rewrite <- (take_drop 12 (moves_of (board gs) x y after)) in H1, H2.
    rewrite <- Hcand in H1, H2.
    apply elem_of_app in H1 as [?|H1]; [done|].
    apply elem_of_app in H2 as [?|H2]; [done|].
    destruct (drop 12 (moves_of (board gs) x y after)) as [|z [|z' l]] eqn:Hd.
    + by apply elem_of_nil in H1.
    + apply list_elem_of_singleton in H1, H2. congruence.
    + apply (f_equal length) in Hd. rewrite length_drop in Hd.
      simpl in Hd. lia.
Qed.

Lemma king_candidates_witness :
  ∃ gs', FindValidMoves lone_king_state 3 4 false = Some gs'
    ∧ (∀ pos, pos ∈ candidates gs' →
         king_reaches (board lone_king_state) (player king1) false 3 4 pos)
    ∧ (validMoveCount gs' < MAX_VALID_MOVES →
       ∀ pos,
         king_reaches (board lone_king_state) (player king1) false 3 4 pos →
         pos ∈ candidates gs')
    ∧ (∀ pos1 pos2,
         king_reaches (board lone_king_state) (player king1) false 3 4 pos1 →
         king_reaches (board lone_king_state) (player king1) false 3 4 pos2 →
         pos1 ∉ candidates gs' → pos2 ∉ candidates gs' → pos1 = pos2).
Proof.
  apply (king_candidates lone_king_state 3 4 king1 false).
  - solve_wf.
  - reflexivity.
  - reflexivity.
Defined.

(** The king of that witness can reach 13 cells: the cell (0,1), the last
    of the last diagonal scanned, is not among its 12 candidates, and a
    click on it deselects the king. *)
Example thirteenth_cell_is_lost :
  length (moves_of (board lone_king_state) 3 4 false) = 13%nat
  ∧ last (moves_of (board lone_king_state) 3 4 false)
    = Some (mkPosition 0 1)
  ∧ (gs <- HandleInput lone_king_state 3 4 ;;
     Some (validMoveCount gs,
           bool_decide (mkPosition 0 1 ∈ candidates gs),
           pieceSelected <$> HandleInput gs 0 1))
    = Some (12, false, Some false).
Proof. repeat split; vm_compute; reflexivity. Qed.

(** * The chain of a king *)

Lemma additional_capture_spec g x y dx dy :
  wf_board (board g) → in_bounds x y = true → dir_ok dx → dir_ok dy →
  ∃ r, additional_capture_at g x y (dx, dy) = Some r
    ∧ (r = true ↔ opponent_at (board g) (currentPlayer g) (x + dx) (y + dy)
                   ∧ empty_at (board g) (x + 2 * dx) (y + 2 * dy)).
Proof.
  intros Hwf Hin Hdx Hdy. unfold additional_capture_at. cbn [fst snd].
  replace (x + dx * 2) with (x + 2 * dx) by lia.
  replace (y + dy * 2) with (y + 2 * dy) by lia.
  destruct ((x + 2 * dx >=? 0) && (x + 2 * dx <? COLS)
            && (y + 2 * dy >=? 0) && (y + 2 * dy <? ROWS)) eqn:Hg.
  2:{ exists false. split; [done|]. split; [done|].
      intros (_ & (c & Hc & _)).
      apply cell_in_bounds, in_bounds_spec in Hc.
      unfold COLS, ROWS in Hg. lia. }
  assert (in_bounds (x + 2 * dx) (y + 2 * dy) = true) as Hin2.
  { apply in_bounds_spec. unfold COLS, ROWS in Hg. lia. }
  destruct (cell_is_Some _ _ _ Hwf Hin2) as [n Hn]. rewrite Hn. cbn [bind].
  destruct (is_NONE (type n)) eqn:Htn.
  2:{ exists false. split; [done|]. split; [done|].
      intros (_ & (c & Hc & Htc)). rewrite Hn in Hc. injection Hc as <-.
      apply is_NONE_false in Htn. done. }
  destruct (cell_is_Some _ _ _ Hwf
              (in_bounds_between _ _ _ _ Hin Hdx Hdy Hin2)) as [a Ha].
  rewrite Ha. cbn [bind]. eexists. split; [done|].
  rewrite andb_true_iff, !negb_true_iff, same_player_false, is_NONE_false.
  split.
  - intros [Hpa Hta]. split; [by exists a|]. exists n. split; [done|].
    by apply is_NONE_true.
  - intros ((c & Hc & Htc & Hpc) & _). rewrite Ha in Hc.
    by injection Hc as <-.
Qed.

Lemma lookahead_spec g x y r :
  wf_board (board g) → in_bounds x y = true →
  first_true (additional_capture_at g x y) lookahead_directions = Some r →
  r = true ↔ adjacent_jump (board g) (currentPlayer g) x y.
Proof.
  intros Hwf Hin Hr. unfold lookahead_directions in Hr. cbn [first_true] in Hr.
  destruct (additional_capture_spec g x y (-1) 1 Hwf Hin) as (r1 & E1 & H1);
    [unfold dir_ok; auto..|].
  destruct (additional_capture_spec g x y (-1) (-1) Hwf Hin)
    as (r2 & E2 & H2); [unfold dir_ok; auto..|].
  destruct (additional_capture_spec g x y 1 1 Hwf Hin) as (r3 & E3 & H3);
    [unfold dir_ok; auto..|].
  destruct (additional_capture_spec g x y 1 (-1) Hwf Hin) as (r4 & E4 & H4);
    [unfold dir_ok; auto..|].
  rewrite E1 in Hr. cbn [bind] in Hr.
  assert (r = r1 || r2 || r3 || r4) as ->.
  { destruct r1; [by injection Hr|]. rewrite E2 in Hr. cbn [bind] in Hr.
    destruct r2; [by injection Hr|]. rewrite E3 in Hr. cbn [bind] in Hr.
    destruct r3; [by injection Hr|]. rewrite E4 in Hr. cbn [bind] in Hr.
    destruct r4; by injection Hr. }
  rewrite !orb_true_iff, H1, H2, H3, H4. unfold adjacent_jump, dir_ok.
  split.
  - intros [[[H | H] | H] | H]; [exists (-1), 1 | exists (-1), (-1)
                                | exists 1, 1 | exists 1, (-1)]; auto.
  - intros (dx & dy & [-> | ->] & [-> | ->] & H); auto.
Qed.

Lemma candidates_nonempty gs pos :
  pos ∈ candidates gs → 0 < validMoveCount gs.
Proof.
  unfold candidates. intros Hin.
  destruct (decide (0 < validMoveCount gs)) as [|Hn]; [done|].
  replace (Z.to_nat (validMoveCount gs)) with 0%nat in Hin by lia.
  by apply elem_of_nil in Hin.
Qed.

(** X13: when a king has moved, its chain goes on exactly when it has taken a
    piece and, on the board after the move, a piece of the opponent stands
    next to the king with an empty cell right behind it. A capture that is
    open to the king only at a distance does not keep the chain going: the
    turn ends. *)
Theorem king_chain_needs_adjacent_jump (gs : GameState) (x y : Z)
    (gs' : GameState) (p : Piece) :
  wf_state gs → consistent gs → applies_move gs x y →
  mover_score gs < INT_MAX →
  cell (board gs) (selectedX gs) (selectedY gs) = Some p → isKing p = true →
  HandleInput gs x y = Some gs' →
  pieceSelected gs' = true
  ↔ score_of (currentPlayer gs) gs' = score_of (currentPlayer gs) gs + 1
    ∧ adjacent_jump (board gs') (currentPlayer gs) x y.
Proof.
  intros Hwf Hcons Happ Hscore Hp Hking Hrun.
  rewrite (HandleInput_move _ _ _ Happ) in Hrun.
  destruct (consistent_facts gs Hwf Hcons)
    as (p' & Hp' & Hty & Hpl & Hok & _).
  rewrite Hp in Hp'. injection Hp' as <-.
  pose proof (applies_move_candidate gs x y Hok Happ) as Hcand.
  destruct (consistent_move gs x y Hwf Hcons Hcand Hscore)
    as (g & p' & dx & dy & k & Hg & Hwf' & Hp' & Hdx & Hdy & Hk & Hx & Hy
        & Hsrc & Hdst & Hown & Hwait & Hcase).
  rewrite Hrun in Hg. injection Hg as <-.
  rewrite Hp in Hp'. injection Hp' as <-.
  destruct Hcase as [(_ & _ & _ & Hsame & (Hno & _))
                    | (Hreach & Hgone & Hcount & Hplus & Hnext)].
  { split; intros H; [congruence | destruct H; lia]. }
  assert (2 ≤ k) as Hk2 by apply Hreach.
  pose proof (candidates_on_board gs x y Hwf Hcons Hcand) as Hin.
  assert (k ≤ 7) as Hk7.
  { apply in_bounds_spec in Hin.
    apply cell_in_bounds, in_bounds_spec in Hp.
    destruct Hdx as [-> | ->]; lia. }
  apply move_selected_inv in Hrun
    as (gs1 & isCapture & mp & b2 & b3 & ws & gs4 & dest & Hcap & Hwf1 & Hmp
        & Hb2 & Hb3 & Hws & Hgs4 & Hwf4 & Hdest & Hboard & Hend); [|done].
  replace ((Z.abs (selectedX gs - x) >? 1) && (Z.abs (selectedY gs - y) >? 1))
    with true in Hcap.
  2:{ rewrite Hx, Hy, !abs_offset by (done || lia). symmetry.
      apply andb_true_iff. split; apply Z.gtb_gt; lia. }
  (* the capture block of a king *)
  destruct (king_capture_hit gs (selectedX gs) (selectedY gs) dx dy k
              Hdx Hdy Hreach Hscore) as (b1 & gs1' & Hb1 & Hgs1' & Hloop).
  unfold capture_block in Hcap. rewrite Hp in Hcap. cbn [bind] in Hcap.
  rewrite Hking in Hcap. rewrite Hx, Hy in Hcap.
  rewrite !direction_of_offset in Hcap by (done || lia).
  specialize (Hloop SCAN_FUEL 1). rewrite !Z.mul_1_l in Hloop.
  rewrite Hloop in Hcap by (unfold SCAN_FUEL; lia).
  cbn [bind fst snd negb] in Hcap. rewrite <- Hx, <- Hy in Hcap.
  apply bind_Some in Hcap as (st & Hst & [= <- <-]).
  apply bind_Some in Hst as (look & Hlook & [= <-]). cbn [fst snd] in *.
  clear Hloop.
  destruct (add_score_inv _ _ Hgs1') as (Hbd & (Hcur & _) & _).
  simpl in Hbd, Hcur, Hwf1, Hmp, Hb2, Hgs4.
  rewrite Hbd in Hmp, Hb2.
  assert (wf_board b1) as Hwfb1.
  { eapply wf_board_update; [apply Hwf|done]. }
  assert (look = true ↔ adjacent_jump b1 (currentPlayer gs) x y) as Hlk.
  { rewrite <- Hbd, <- Hcur. apply lookahead_spec; [by rewrite Hbd|done|done]. }
  assert ((selectedX gs, selectedY gs) ≠ (x, y)) as Hne.
  { rewrite Hx. intros [= ? ?]. destruct Hdx as [-> | ->]; lia. }
  assert (mp = p) as ->.
  { rewrite (cell_update_ne _ _ _ _ _ _ _ Hb1) in Hmp; [congruence|].
    intros [= ? ?]. destruct Hdx as [-> | ->]; lia. }
  assert (isKing ws = true) as Hws'.
  { rewrite (cell_update_eq _ _ _ _ _ Hb3),
      (cell_update_ne _ _ _ _ _ _ _ Hb2 Hne), Hmp in Hws.
    simpl in Hws. by injection Hws as <-. }
  rewrite Hws' in Hend. cbn [negb andb] in Hend.
  destruct Hend as (gs5 & Hgs5 & Hfr5 & Hok5 & Hcand5 & Hgs').
  assert (∀ cx cy, (cx, cy) ≠ (x, y) →
                   (cx, cy) ≠ (selectedX gs, selectedY gs) →
                   cell (board gs4) cx cy = cell b1 cx cy) as Hsame.
  { intros cx cy H1 H2.
    assert (cell (board gs4) cx cy = cell b3 cx cy) as ->.
    { apply PromoteToKing_inv in Hgs4 as [-> | (b' & Hup & ->)]; [done|].
      simpl in Hup. by eapply cell_update_ne. }
    rewrite (cell_update_ne _ _ _ _ _ _ _ Hb3 H2).
    by rewrite (cell_update_ne _ _ _ _ _ _ _ Hb2 H1). }
  assert (∀ c, cell b1 (selectedX gs + (k - 1) * dx)
                 (selectedY gs + (k - 1) * dy) = Some c → type c = NONE)
    as Hcapt.
  { intros c Hc. rewrite (cell_update_eq _ _ _ _ _ Hb1) in Hc.
    destruct (cell (board gs) (selectedX gs + (k - 1) * dx)
                (selectedY gs + (k - 1) * dy)); [|done].
    simpl in Hc. by injection Hc as <-. }
  assert (adjacent_jump b1 (currentPlayer gs) x y
          ↔ adjacent_jump (board gs4) (currentPlayer gs) x y) as Hadj.
  { assert (∀ ex ey, dir_ok ex → dir_ok ey →
              (opponent_at b1 (currentPlayer gs) (x + ex) (y + ey)
               ∧ empty_at b1 (x + 2 * ex) (y + 2 * ey))
              ↔ (opponent_at (board gs4) (currentPlayer gs) (x + ex) (y + ey)
                 ∧ empty_at (board gs4) (x + 2 * ex) (y + 2 * ey))) as Hdir.
    { intros ex ey Hex Hey.
      assert (cell (board gs4) (x + ex) (y + ey) = cell b1 (x + ex) (y + ey))
        as Ha.
      { apply Hsame.
        - intros [= ? ?]. destruct Hex as [-> | ->]; lia.
        - rewrite Hx. intros [= ? ?].
          destruct Hex as [-> | ->], Hdx as [-> | ->]; lia. }
      destruct (decide ((x + 2 * ex, y + 2 * ey)
                        = (selectedX gs, selectedY gs))) as [Heq | Hfar].
      - assert (x + ex = selectedX gs + (k - 1) * dx
                ∧ y + ey = selectedY gs + (k - 1) * dy) as [Hax Hay].
        { injection Heq as E1 E2. rewrite Hx in E1 |- *. rewrite Hy in E2 |- *.
          destruct Hex as [-> | ->], Hey as [-> | ->],
                   Hdx as [-> | ->], Hdy as [-> | ->]; lia. }
        split; intros [(c & Hc & Htc & _) _]; exfalso; apply Htc.
        + rewrite Hax, Hay in Hc. by apply Hcapt in Hc.
        + rewrite Ha, Hax, Hay in Hc. by apply Hcapt in Hc.
      - assert (cell (board gs4) (x + 2 * ex) (y + 2 * ey)
                = cell b1 (x + 2 * ex) (y + 2 * ey)) as Hb.
        { apply Hsame; [|done]. intros [= ? ?].
          destruct Hex as [-> | ->]; lia. }
        unfold opponent_at, empty_at. by rewrite Ha, Hb. }
    split; intros (ex & ey & Hex & Hey & H); exists ex, ey;
      (split; [done|]); (split; [done|]); by apply Hdir. }
  assert (look = true → 0 < validMoveCount gs5) as Hpos.
  { intros Hl. apply Hlk, Hadj in Hl.
    destruct Hl as (ex & ey & Hex & Hey & Hopp & Hemp).
    assert (isKing dest = true ∧ player dest = currentPlayer gs)
      as [Hkd Hpd].
    { rewrite Hboard, Hdest in Hdst.
      destruct Hdst as [[= ->] | [= ->]]; simpl; auto. }
    assert (mkPosition (x + 2 * ex) (y + 2 * ey)
            ∈ moves_of (board gs4) x y true) as Hin'.
    { apply (moves_of_king _ _ _ dest); [apply Hwf4|done|done|].
      exists ex, ey, 2. do 3 (split; [done || lia|]).
      split; [done|]. split; [done|]. right. split; [lia|].
      replace (2 - 1) with 1 by lia. rewrite !Z.mul_1_l.
      split; [intros j Hj; lia|]. by rewrite Hpd. }
    destruct (moves_of (board gs4) x y true) as [|h t];
      [by apply elem_of_nil in Hin'|].
    apply (candidates_nonempty gs5 h). rewrite Hcand5. by left. }
  rewrite Hboard, <- Hadj, <- Hlk. split.
  - intros Hsel. split; [done|]. rewrite Hgs' in Hsel.
    by destruct look.
  - intros [_ ->]. rewrite Hgs'. specialize (Hpos eq_refl).
    by rewrite (proj2 (Z.gtb_gt _ _)) by lia.
Qed.

Lemma king_chain_needs_adjacent_jump_witness :
  pieceSelected far_prey_taken = true
  ↔ score_of (currentPlayer far_prey_state) far_prey_taken
    = score_of (currentPlayer far_prey_state) far_prey_state + 1
    ∧ adjacent_jump (board far_prey_taken) (currentPlayer far_prey_state)
        3 2.
Proof.
  apply (king_chain_needs_adjacent_jump far_prey_state 3 2 far_prey_taken
           king1).
  - solve_wf.
  - split; [reflexivity|]. split; [|vm_compute; reflexivity].
    exists king1. split; [vm_compute; reflexivity|].
    split; [discriminate|reflexivity].
  - split; [reflexivity|]. split; [right|]; vm_compute; reflexivity.
  - vm_compute. reflexivity.
  - vm_compute. reflexivity.
  - reflexivity.
  - vm_compute. reflexivity.
Defined.

(** The move of that witness, computed: the king takes the man at (2,1) and
    the turn passes to PLAYER2, although the generator, asked for the
    captures from (3,2), offers the landing cell (7,6) behind the man at
    (6,5). *)
Example distant_capture_ends_chain :
  (pieceSelected far_prey_taken, currentPlayer far_prey_taken,
   player1Score far_prey_taken)
  = (false, PLAYER2, 1)
  ∧ candidates <$> FindValidMoves far_prey_taken 3 2 true
    = Some [mkPosition 7 6].
Proof. split; vm_compute; reflexivity. Qed.

(** * The chain of a man *)

Lemma PromoteToKing_other_row gs x y :
  y ≠ far_row (currentPlayer gs) → PromoteToKing gs x y = Some gs.
Proof.
  unfold PromoteToKing, far_row. intros Hy.
  destruct (currentPlayer gs); simpl.
  - by rewrite (proj2 (Z.eqb_neq _ _) Hy).
  - by rewrite (proj2 (Z.eqb_neq _ _) Hy).
Qed.

Lemma candidates_head gs :
  moves_ok gs → 0 < validMoveCount gs → ∃ pos, pos ∈ candidates gs.
Proof.
  intros [Hlen Hcount] Hpos. unfold candidates.
  destruct (validMoves gs) as [|h t]; [simpl in Hlen; lia|].
  exists h. destruct (Z.to_nat (validMoveCount gs)) eqn:Hn; [lia|]. by left.
Qed.

Lemma man_captures b x y piece :
  cell b x y = Some piece → isKing piece = false →
  (∃ pos, pos ∈ moves_of b x y true) ↔ forward_jump b (player piece) x y.
Proof.
  intros Hc Hking. unfold moves_of. rewrite Hc, Hking.
  rewrite regular_directions_forward. split.
  - intros (pos & Hpos). apply elem_of_concat_map in Hpos as (d & Hd & Hpos).
    apply elem_of_regular_ray in Hpos as [(_ & ? & _) | (_ & Hopp & Hemp)];
      [done|].
    apply elem_of_cons in Hd as [-> | Hd];
      [|apply list_elem_of_singleton in Hd as ->]; simpl in *.
    + exists 1. split; [by left|done].
    + exists (-1). split; [by right|done].
  - intros (dx & Hdx & Hopp & Hemp).
    exists (mkPosition (x + 2 * dx) (y + 2 * forward (player piece))).
    apply elem_of_concat_map. exists (dx, forward (player piece)). split.
    + destruct Hdx as [-> | ->]; [by left|right; by left].
    + apply elem_of_regular_ray. right. by repeat split.
Qed.

(** X23: when a man has moved, its chain goes on exactly when it has taken a
    piece, has not reached the row furthest from its side - where it is
    crowned and the turn ends - and, on the board after the move, a piece of
    the opponent stands next to it on a forward diagonal with an empty cell
    right behind it. *)
Theorem man_chain_needs_forward_jump (gs : GameState) (x y : Z)
    (gs' : GameState) (p : Piece) :
  wf_state gs → consistent gs → applies_move gs x y →
  mover_score gs < INT_MAX →
  cell (board gs) (selectedX gs) (selectedY gs) = Some p → isKing p = false →
  HandleInput gs x y = Some gs' →
  pieceSelected gs' = true
  ↔ score_of (currentPlayer gs) gs' = score_of (currentPlayer gs) gs + 1
    ∧ y ≠ far_row (currentPlayer gs)
    ∧ forward_jump (board gs') (currentPlayer gs) x y.
Proof.
  intros Hwf Hcons Happ Hscore Hp Hking Hrun.
  rewrite (HandleInput_move _ _ _ Happ) in Hrun.
  destruct (consistent_facts gs Hwf Hcons)
    as (p' & Hp' & Hty & Hpl & Hok & _).
  rewrite Hp in Hp'. injection Hp' as <-.
  pose proof (applies_move_candidate gs x y Hok Happ) as Hcand.
  destruct (consistent_move gs x y Hwf Hcons Hcand Hscore)
    as (g & p' & dx & dy & k & Hg & Hwf' & Hp' & Hdx & Hdy & Hk & Hx & Hy
        & Hsrc & Hdst & Hown & Hwait & Hcase).
  rewrite Hrun in Hg. injection Hg as <-.
  rewrite Hp in Hp'. injection Hp' as <-.
  destruct Hcase as [(_ & _ & _ & Hsame & (Hno & _))
                    | (Hreach & Hgone & Hcount & Hplus & Hnext)].
  { split; intros H; [congruence | destruct H; lia]. }
  assert (2 ≤ k) as Hk2 by apply Hreach.
  assert ((selectedX gs, selectedY gs) ≠ (x, y)) as Hne.
  { rewrite Hx. intros [= ? ?]. destruct Hdx as [-> | ->]; lia. }
  apply move_selected_inv in Hrun
    as (gs1 & isCapture & mp & b2 & b3 & ws & gs4 & dest & Hcap & Hwf1 & Hmp
        & Hb2 & Hb3 & Hws & Hgs4 & Hwf4 & Hdest & Hboard & Hend); [|done].
  replace ((Z.abs (selectedX gs - x) >? 1) && (Z.abs (selectedY gs - y) >? 1))
    with true in Hcap.
  2:{ rewrite Hx, Hy, !abs_offset by (done || lia). symmetry.
      apply andb_true_iff. split; apply Z.gtb_gt; lia. }
  (* the capture block of a man *)
  pose proof (capture_block_inv _ _ _ _ _ Hcap) as ((Hcur1 & _) & _ & Hb1).
  assert (isCapture = true) as ->.
  { unfold capture_block in Hcap. rewrite Hp in Hcap. cbn [bind] in Hcap.
    rewrite Hking in Hcap.
    apply bind_Some in Hcap as (st & Hst & [= _ <-]).
    apply bind_Some in Hst as (b1 & _ & Hst).
    by apply bind_Some in Hst as (gsA & _ & [= <-]). }
  assert (isKing mp = false ∧ player mp = currentPlayer gs) as [Hkmp Hpmp].
  { destruct Hb1 as [Hb1 | (cx & cy & Hb1)].
    - rewrite Hb1, Hp in Hmp. by injection Hmp as <-.
    - destruct (cell_update _ _ _ _ _ (selectedX gs) (selectedY gs) Hb1)
        as [E | E]; rewrite E, Hp in Hmp; simpl in Hmp;
        by injection Hmp as <-. }
  assert (isKing ws = false) as Hkws.
  { rewrite (cell_update_eq _ _ _ _ _ Hb3),
      (cell_update_ne _ _ _ _ _ _ _ Hb2 Hne), Hmp in Hws.
    simpl in Hws. by injection Hws as <-. }
  rewrite Hkws in Hend. cbn [negb andb] in Hend.
  assert (cell b3 x y = Some mp) as Hb3xy.
  { rewrite (cell_update_ne _ _ _ _ _ _ _ Hb3) by congruence.
    rewrite (cell_update_eq _ _ _ _ _ Hb2).
    destruct (cell_is_Some (board gs1) x y) as [c ->]; [apply Hwf1| |done].
    by eapply update_cell_in_bounds. }
  destruct (decide (y = far_row (currentPlayer gs))) as [Hfar | Hnear].
  - (* crowned: the turn ends *)
    assert (isKing dest = true) as Hkd.
    { unfold PromoteToKing in Hgs4. simpl in Hgs4. rewrite Hcur1 in Hgs4.
      unfold far_row in Hfar.
      destruct (currentPlayer gs); simpl in Hgs4;
        rewrite (proj2 (Z.eqb_eq _ _) Hfar) in Hgs4; simpl in Hgs4;
        apply bind_Some in Hgs4 as (b & Hb & [= <-]); simpl in Hdest;
        rewrite (cell_update_eq _ _ _ _ _ Hb), Hb3xy in Hdest;
        by injection Hdest as <-. }
    rewrite Hkd in Hend. subst gs'. split; [done|]. by intros (_ & ? & _).
  - rewrite PromoteToKing_other_row in Hgs4 by (simpl; by rewrite Hcur1).
    injection Hgs4 as <-. simpl in Hdest, Hboard.
    rewrite Hb3xy in Hdest. injection Hdest as <-.
    rewrite Hkmp in Hend.
    destruct Hend as (gs5 & Hgs5 & Hfr5 & Hok5 & Hcand5 & Hgs').
    simpl in Hcand5. cbn [andb] in Hgs'.
    assert (0 < validMoveCount gs5 ↔ forward_jump b3 (currentPlayer gs) x y)
      as Hjump.
    { rewrite <- Hpmp, <- (man_captures b3 x y mp Hb3xy Hkmp). split.
      - intros Hpos. destruct (candidates_head gs5 Hok5 Hpos) as (pos & Hin).
        exists pos. rewrite Hcand5 in Hin. by apply subseteq_take in Hin.
      - intros (pos & Hin).
        destruct (moves_of b3 x y true) as [|h t];
          [by apply elem_of_nil in Hin|].
        apply (candidates_nonempty gs5 h). rewrite Hcand5. by left. }
    rewrite Hboard, <- Hjump. split.
    + intros Hsel. split; [done|]. split; [done|]. rewrite Hgs' in Hsel.
      destruct (validMoveCount gs5 >? 0) eqn:E; [|done]. lia.
    + intros (_ & _ & Hpos). rewrite Hgs'.
      by rewrite (proj2 (Z.gtb_gt _ _)) by lia.
Qed.

Lemma man_chain_needs_forward_jump_witness :
  pieceSelected chain_state = true
  ↔ score_of (currentPlayer chain_selected) chain_state
    = score_of (currentPlayer chain_selected) chain_selected + 1
    ∧ 4 ≠ far_row (currentPlayer chain_selected)
    ∧ forward_jump (board chain_state) (currentPlayer chain_selected) 4 4.
Proof.
  apply (man_chain_needs_forward_jump chain_selected 4 4 chain_state man1).
  - solve_wf.
  - split; [reflexivity|]. split; [|vm_compute; reflexivity].
    exists man1. split; [vm_compute; reflexivity|].
    split; [discriminate|reflexivity].
  - split; [reflexivity|]. split; [right|]; vm_compute; reflexivity.
  - vm_compute. reflexivity.
  - vm_compute. reflexivity.
  - reflexivity.
  - vm_compute. reflexivity.
Defined.

(** * The main loop *)

(** ** The mouse *)

(** X15: the cell of a click: [HandleInput] takes a click for a click on the
    board exactly when the pixel is less than one cell to the left of or above
    the board, or on it - the division of [int] truncates towards zero, so the
    pixels from -74 to -1 belong to the column or row 0 - and for a pixel of
    the board the cell is the one whose square [DrawBoard] draws around the
    pixel. A pixel of the panel beside the board belongs to no cell. *)
Theorem cell_of_pixel (gs : GameState) (mx my : Z) :
  let x := mx `quot` CELL_SIZE in
  let y := my `quot` CELL_SIZE in
  handle_mouse gs (click_at mx my) = HandleInput gs x y
  ∧ (in_bounds x y = true
     ↔ - CELL_SIZE < mx < BOARD_WIDTH ∧ - CELL_SIZE < my < BOARD_HEIGHT)
  ∧ (0 ≤ mx → 0 ≤ my →
     x * CELL_SIZE ≤ mx < x * CELL_SIZE + CELL_SIZE
     ∧ y * CELL_SIZE ≤ my < y * CELL_SIZE + CELL_SIZE)
  ∧ (BOARD_WIDTH ≤ mx → in_bounds x y = false).
Proof.
  cbn zeta. split; [done|].
  unfold CELL_SIZE, BOARD_WIDTH, BOARD_HEIGHT.
  rewrite in_bounds_spec, in_bounds_false.
  pose proof (Z.quot_rem' mx 75). pose proof (Z.quot_rem' my 75).
  assert (0 ≤ mx → 0 ≤ mx `rem` 75 < 75)
    by (intros; apply Z.rem_bound_pos; lia).
  assert (0 ≤ my → 0 ≤ my `rem` 75 < 75)
    by (intros; apply Z.rem_bound_pos; lia).
  assert (mx ≤ 0 → -75 < mx `rem` 75 ≤ 0)
    by (intros; apply (Z.rem_bound_pos_neg mx 75); lia).
  assert (my ≤ 0 → -75 < my `rem` 75 ≤ 0)
    by (intros; apply (Z.rem_bound_pos_neg my 75); lia).
  repeat split; try lia.
Qed.

Lemma cell_of_pixel_witness :
  let x := 610 `quot` CELL_SIZE in
  let y := 80 `quot` CELL_SIZE in
  handle_mouse selected_state (click_at 610 80)
  = HandleInput selected_state x y
  ∧ (in_bounds x y = true
     ↔ - CELL_SIZE < 610 < BOARD_WIDTH ∧ - CELL_SIZE < 80 < BOARD_HEIGHT)
  ∧ (0 ≤ 610 → 0 ≤ 80 →
     x * CELL_SIZE ≤ 610 < x * CELL_SIZE + CELL_SIZE
     ∧ y * CELL_SIZE ≤ 80 < y * CELL_SIZE + CELL_SIZE)
  ∧ (BOARD_WIDTH ≤ 610 → in_bounds x y = false).
Proof. apply (cell_of_pixel selected_state 610 80). Defined.

(** ** The end of a game *)

(** The evaluation of [CheckGameOver] on a board of a game. *)
Lemma CheckGameOver_eval gs q :
  wf_state gs → ranks_consistent (board gs) →
  CheckGameOver gs q
  = Some (if count_pieces PLAYER1 (board gs) =? 0 then Win PLAYER2
          else if count_pieces PLAYER2 (board gs) =? 0 then Win PLAYER1
          else if can_move gs q then Ongoing
          else Win (other q)).
Proof.
  intros Hwf Hranks. unfold CheckGameOver, tally_board.
  rewrite tally_rows_spec; [|apply Hwf|done|].
  2:{ intros y Hy%elem_of_seqZ. unfold ROWS in Hy. lia. }
  cbn [bind player1Pieces player2Pieces player1HasMoves player2HasMoves].
  rewrite !Z.add_0_l, !orb_false_l.
  fold (count_pieces PLAYER1 (board gs)). fold (count_pieces PLAYER2 (board gs)).
  rewrite <- !can_move_spec by done.
  destruct (count_pieces PLAYER1 (board gs) =? 0); [done|].
  destruct (count_pieces PLAYER2 (board gs) =? 0); [done|].
  destruct q; simpl.
  - by destruct (can_move gs PLAYER1).
  - by destruct (can_move gs PLAYER2).
Qed.

Lemma frame_idle s :
  frame s idle
  = (s' <- (if negb (gameOver s)
            then o <- CheckGameOver (gameState s) (mainCurrentPlayer s) ;;
                 match o with
                 | Win w => Some (mkSession (gameState s) true
                                    (int_of_player w) (mainCurrentPlayer s)
                                    (saveFile s))
                 | Ongoing => Some (mkSession (gameState s) false (winner s)
                                      (other (mainCurrentPlayer s))
                                      (saveFile s))
                 end
            else Some s) ;;
     Some (Running s')).
Proof.
  unfold frame, play_frame, handle_mouse, idle. simpl.
  destruct (gameOver s) eqn:Hover; simpl; [by rewrite Hover|].
  destruct (CheckGameOver (gameState s) (mainCurrentPlayer s)) as [[|w]|];
    done.
Qed.

(** X16: [CheckGameOver] is asked about the player in the local
    [currentPlayer] of [main], which changes with every pass of the loop and
    not with the turn. So a side that has pieces but no move loses within two
    passes, also when it is the other side's turn to move: the game is over,
    the other side is the winner, and the game state is as it was. *)
Theorem blocked_side_loses_within_two_frames (s : Session) (p : Player) :
  gameOver s = false →
  wf_state (gameState s) → ranks_consistent (board (gameState s)) →
  count_pieces PLAYER1 (board (gameState s)) ≠ 0 →
  count_pieces PLAYER2 (board (gameState s)) ≠ 0 →
  can_move (gameState s) p = false →
  can_move (gameState s) (other p) = true →
  ∃ s', frames s [idle; idle] = Some (Running s')
    ∧ gameOver s' = true
    ∧ winner s' = int_of_player (other p)
    ∧ gameState s' = gameState s.
Proof.
  intros Hover Hwf Hranks Hn1 Hn2 Hblocked Hfree.
  assert (∀ q, CheckGameOver (gameState s) q
               = Some (if can_move (gameState s) q then Ongoing
                       else Win (other q))) as Hcheck.
  { intros q. rewrite CheckGameOver_eval by done.
    apply Z.eqb_neq in Hn1, Hn2. by rewrite Hn1, Hn2. }
  cbn [frames]. rewrite frame_idle, Hover. cbn [negb bind].
  rewrite Hcheck.
  destruct (decide (mainCurrentPlayer s = p)) as [Hp | Hp].
  - rewrite Hp, Hblocked. cbn [bind]. rewrite frame_idle. cbn.
    eexists. split; [done|]. by repeat split.
  - assert (mainCurrentPlayer s = other p) as Hq
      by (destruct (mainCurrentPlayer s), p; done).
    rewrite Hq, Hfree. cbn [bind]. rewrite frame_idle. cbn [gameOver negb].
    cbn [gameState mainCurrentPlayer bind]. rewrite Hcheck.
    replace (other (other p)) with p by by destruct p.
    rewrite Hblocked. cbn. eexists. split; [done|]. by repeat split.
Qed.

Lemma blocked_side_loses_within_two_frames_witness :
  ∃ s', frames chain_end_pending [idle; idle] = Some (Running s')
    ∧ gameOver s' = true
    ∧ winner s' = int_of_player (other PLAYER2)
    ∧ gameState s' = gameState chain_end_pending.
Proof.
  apply (blocked_side_loses_within_two_frames chain_end_pending PLAYER2).
  - vm_compute. reflexivity.
  - solve_wf.
  - apply (bool_decide_unpack _). vm_compute. exact I.
  - vm_compute. discriminate.
  - vm_compute. discriminate.
  - vm_compute. reflexivity.
  - vm_compute. reflexivity.
Defined.

(** The session of that witness is reached from the start position; in it
    PLAYER1 is in the middle of a chain and PLAYER2 cannot move.  In the
    session below it is PLAYER2 who is to move, and PLAYER2 can move;
    PLAYER1, who is not to move, cannot, and loses. *)
Example loses_out_of_turn :
  currentPlayer (gameState blocked_session) = PLAYER2
  ∧ can_move (gameState blocked_session) PLAYER2 = true
  ∧ (λ r, (gameOver (session_of r), winner (session_of r)))
      <$> frames blocked_session [idle; idle]
    = Some (true, int_of_player PLAYER2).
Proof. repeat split; vm_compute; reflexivity. Qed.

(** ** The start position is not the end of a game *)

Lemma existsb_intro {A} (f : A → bool) (l : list A) (a : A) :
  a ∈ l → f a = true → existsb f l = true.
Proof.
  intros Hin Hf. apply existsb_exists. exists a.
  split; [by apply list_elem_of_In|done].
Qed.

Lemma man_can_step b p x y dx :
  wf_board b → cell b x y = Some p → type p ≠ NONE → isKing p = false →
  dir_ok dx → empty_at b (x + dx) (y + forward (player p)) →
  owned_by b (player p) x y && movable b x y = true.
Proof.
  intros Hwf Hp Hty Hking Hdx (c & Hc & Htc).
  apply andb_true_iff. split.
  - unfold owned_by. rewrite Hp.
    apply andb_true_iff. split.
    + by apply negb_true_iff, is_NONE_false.
    + by apply same_player_true.
  - unfold movable. rewrite (moves_of_open b x y p Hwf Hp), Hking.
    assert (open_dir b (player p) x y dx (forward (player p)) = true) as Ho.
    { unfold open_dir, emptyb. rewrite Hc.
      by rewrite (proj2 (is_NONE_true _) Htc). }
    destruct Hdx as [-> | ->]; rewrite Ho; [done|apply orb_true_r].
Qed.

Lemma start_can_move gs g0 q :
  wf_state gs → InitializeGame gs = Some g0 → can_move g0 q = true.
Proof.
  intros Hwf Hinit.
  destruct (InitializeGame_cells gs Hwf) as (g1 & Hg1 & Hwf0 & Hcells & _).
  rewrite Hinit in Hg1. injection Hg1 as <-.
  rewrite can_move_spec by done.
  destruct q.
  - destruct (Hcells 1 2 eq_refl) as (o1 & _ & H1).
    destruct (Hcells 2 3 eq_refl) as (o2 & _ & H2).
    apply (existsb_intro _ _ 2); [by apply elem_of_seqZ|].
    apply (existsb_intro _ _ 1); [by apply elem_of_seqZ|].
    apply (man_can_step (board g0) (initial_piece 1 2 o1) 1 2 1);
      try done; [apply Hwf0|by left|].
    eexists. split; [exact H2|done].
  - destruct (Hcells 0 5 eq_refl) as (o1 & _ & H1).
    destruct (Hcells 1 4 eq_refl) as (o2 & _ & H2).
    apply (existsb_intro _ _ 5); [by apply elem_of_seqZ|].
    apply (existsb_intro _ _ 0); [by apply elem_of_seqZ|].
    apply (man_can_step (board g0) (initial_piece 0 5 o1) 0 5 1);
      try done; [apply Hwf0|by left|].
    eexists. split; [exact H2|done].
Qed.

Lemma start_not_over gs g0 q :
  wf_state gs → InitializeGame gs = Some g0 →
  CheckGameOver g0 q = Some Ongoing.
Proof.
  intros Hwf Hinit.
  destruct (InitializeGame_invariant gs Hwf)
    as (g1 & Hg1 & (Hwf0 & Hranks & _) & Hn1 & Hn2).
  rewrite Hinit in Hg1. injection Hg1 as <-.
  rewrite CheckGameOver_eval, Hn1, Hn2 by done. simpl.
  by rewrite (start_can_move gs g0 q Hwf Hinit).
Qed.

(** ** A new game after a chain *)

Lemma frozen_frames g0 :
  (∀ x y, HandleInput g0 x y = Some g0) →
  (∀ q, CheckGameOver g0 q = Some Ongoing) →
  ∀ fs s, gameState s = g0 → gameOver s = false →
  Forall (λ f, keyL f = false) fs →
  ∃ s', frames s fs = Some (Running s')
    ∧ gameState s' = g0 ∧ gameOver s' = false.
Proof.
  intros Hclick Hcheck fs.
  induction fs as [|f fs IH]; intros s Hgs Hover Hall.
  { exists s. by repeat split. }
  apply Forall_cons in Hall as [Hl Hall].
  cbn [frames]. unfold frame, play_frame, handle_mouse.
  rewrite Hover, Hgs, Hl. cbn [negb].
  assert ((if leftPressed f
           then HandleInput g0 (mouseX f `quot` CELL_SIZE)
                  (mouseY f `quot` CELL_SIZE)
           else Some g0) = Some g0) as ->
    by (destruct (leftPressed f); [apply Hclick|done]).
  cbn [bind]. rewrite Hcheck. cbn [bind gameOver].
  by apply IH.
Qed.

(** X17: [R] after the end of a game starts a new one with [InitializeGame],
    which leaves the chain flag as it is. If the game ended in the middle of a
    chain of captures, the new game stands still: whatever is clicked in the
    passes that follow (a load apart), the game state stays the start position
    with nothing selected, and the game does not end. *)
Theorem restart_in_chain_stands_still (s : Session) (f : Frame) :
  gameOver s = true → wf_state (gameState s) →
  isCapturing (gameState s) = true →
  keyQ f = false → keyR f = true →
  ∃ s0, frame s f = Some (Running s0)
    ∧ InitializeGame (gameState s) = Some (gameState s0)
    ∧ ∀ fs, Forall (λ f, keyL f = false) fs →
        ∃ s', frames s0 fs = Some (Running s')
          ∧ gameState s' = gameState s0
          ∧ pieceSelected (gameState s') = false
          ∧ gameOver s' = false.
Proof.
  intros Hover Hwf Hcap Hq Hr.
  destruct (InitializeGame_cells _ Hwf) as (g0 & Hg0 & _ & _ & Heq).
  unfold frame. rewrite Hover. cbn [negb bind]. rewrite Hover, Hq, Hr, Hg0.
  cbn [bind]. eexists. split; [done|]. split; [done|].
  intros fs Hall. cbn [gameState].
  destruct (frozen_frames g0) with (fs := fs)
    (s := mkSession g0 false (-1) PLAYER1 (saveFile s))
    as (s' & Hs' & Hgs & Hov); try done.
  - intros x y. unfold HandleInput. rewrite Heq. simpl. by rewrite Hcap.
  - intros q. by eapply start_not_over.
  - exists s'. split; [done|]. split; [done|]. split; [|done].
    rewrite Hgs, Heq. done.
Qed.

Lemma restart_in_chain_stands_still_witness :
  ∃ s0, frame chain_end_session
          (mkFrame 0 0 false false false false true false false)
        = Some (Running s0)
    ∧ InitializeGame (gameState chain_end_session) = Some (gameState s0)
    ∧ ∀ fs, Forall (λ f, keyL f = false) fs →
        ∃ s', frames s0 fs = Some (Running s')
          ∧ gameState s' = gameState s0
          ∧ pieceSelected (gameState s') = false
          ∧ gameOver s' = false.
Proof.
  apply (restart_in_chain_stands_still chain_end_session
           (mkFrame 0 0 false false false false true false false)).
  - vm_compute. reflexivity.
  - solve_wf.
  - vm_compute. reflexivity.
  - reflexivity.
  - reflexivity.
Defined.

(** The session of that witness is the end of a game played from the start
    position: the game is over in the pass of its last click, PLAYER1 has
    won, and the chain flag is set. *)
Example game_ends_in_chain :
  frames start_session (map click_frame chain_end_clicks)
  = Some (Running chain_end_session)
  ∧ (gameOver chain_end_session, winner chain_end_session,
     isCapturing (gameState chain_end_session),
     candidates (gameState chain_end_session),
     count_pieces PLAYER2 (board (gameState chain_end_session)))
    = (true, 0, true, [mkPosition 7 6], 9).
Proof. split; vm_compute; reflexivity. Qed.

(** ** The main loop keeps the game in order *)





(** ** Save and load *)





(** In the session of that witness the man has left (1,2) when the load
    puts it back. *)
Example load_undoes_the_move :
  (type <$> cell (board (gameState moved_session)) 1 2,
   type <$> cell (board selected_state) 1 2)
  = (Some NONE, Some REGULAR).
Proof. vm_compute. reflexivity. Qed.

(** * DrawBoard *)

Lemma draw_each_spec {A} (body : A → option (list Draw)) (l : list A) :
  (∀ a, a ∈ l → ∃ da, body a = Some da) →
  ∃ ds, draw_each body l = Some ds
    ∧ ∀ d, d ∈ ds ↔ ∃ a da, a ∈ l ∧ body a = Some da ∧ d ∈ da.
Proof.
  induction l as [|a l IH]; intros Hall.
  { exists []. split; [done|]. intros d. split.
    - by intros ?%elem_of_nil.
    - by intros (a & da & ?%elem_of_nil & _). }
  destruct (Hall a) as (da & Hda); [by left|].
  destruct IH as (ds & Hds & Hin); [intros; apply Hall; by right|].
  exists (da ++ ds). cbn [draw_each]. rewrite Hda, Hds. split; [done|].
  intros d. rewrite elem_of_app, Hin. split.
  - intros [Hd | (a' & da' & Ha' & Hb & Hd)].
    + exists a, da. split; [by left|done].
    + exists a', da'. split; [by right|done].
  - intros (a' & da' & [-> | Ha']%elem_of_cons & Hb & Hd).
    + left. congruence.
    + right. by exists a', da'.
Qed.

Lemma highlight_from_spec vm x y :
  ∀ n i, (i + n ≤ length vm)%nat →
  ∃ ds, highlight_from vm i n x y = Some ds
    ∧ ∀ d, d ∈ ds ↔ d = highlight x y
                     ∧ mkPosition x y ∈ take n (drop i vm).
Proof.
  induction n as [|n IH]; intros i Hlen.
  { exists []. split; [done|]. intros d. rewrite take_0. split.
    - by intros ?%elem_of_nil.
    - by intros [_ ?%elem_of_nil]. }
  destruct (lookup_lt_is_Some_2 vm i) as [move Hmove]; [lia|].
  destruct (IH (S i)) as (ds & Hds & Hin); [lia|].
  cbn [highlight_from]. rewrite Hmove, Hds. cbn [bind].
  eexists. split; [done|]. intros d.
  rewrite (drop_S _ _ _ Hmove). cbn [take].
  rewrite elem_of_app, Hin, elem_of_cons.
  destruct ((pos_x move =? x) && (pos_y move =? y)) eqn:Heq.
  - assert (move = mkPosition x y) as ->.
    { apply andb_true_iff in Heq as [Hx%Z.eqb_eq Hy%Z.eqb_eq].
      destruct move. simpl in *. by subst. }
    rewrite list_elem_of_singleton. unfold highlight. naive_solver.
  - assert (mkPosition x y ≠ move) as Hne.
    { intros <-. simpl in Heq. by rewrite !Z.eqb_refl in Heq. }
    rewrite elem_of_nil. naive_solver.
Qed.

Lemma highlight_inj x y x' y' :
  highlight x y = highlight x' y' → x = x' ∧ y = y'.
Proof. unfold highlight, CELL_SIZE. intros [= ? ?]. lia. Qed.

Lemma draw_cell_spec gs x y :
  wf_state gs → in_bounds x y = true →
  ∃ ds, draw_cell gs y x = Some ds
    ∧ ∀ x' y', highlight x' y' ∈ ds
        ↔ x' = x ∧ y' = y ∧ pieceSelected gs = true
          ∧ mkPosition x y ∈ take 12 (candidates gs).
Proof.
  intros [Hwfb Hvm] Hin. unfold draw_cell.
  destruct (cell_is_Some _ _ _ Hwfb Hin) as [piece Hpiece].
  assert (take 12 (candidates gs)
          = take (Z.to_nat (Z.min (validMoveCount gs) MAX_VALID_MOVES))
              (drop 0 (validMoves gs))) as Hcand.
  { unfold candidates, MAX_VALID_MOVES. rewrite take_take. cbn [drop].
    f_equal. lia. }
  destruct (highlight_from_spec (validMoves gs) x y
              (Z.to_nat (Z.min (validMoveCount gs) MAX_VALID_MOVES)) 0)
    as (hl & Hhl & Hin_hl); [unfold MAX_VALID_MOVES; lia|].
  assert (∃ moves,
            (if pieceSelected gs then
               highlight_from (validMoves gs) 0
                 (Z.to_nat (Z.min (validMoveCount gs) MAX_VALID_MOVES)) x y
             else Some []) = Some moves
            ∧ ∀ d, d ∈ moves ↔ d = highlight x y ∧ pieceSelected gs = true
                     ∧ mkPosition x y ∈ take 12 (candidates gs))
    as (moves & -> & Hmoves).
  { destruct (pieceSelected gs).
    - exists hl. split; [done|]. intros d. rewrite Hin_hl, Hcand.
      naive_solver.
    - exists []. split; [done|]. intros d. rewrite elem_of_nil.
      naive_solver. }
  cbn [bind]. rewrite Hpiece. cbn [bind]. eexists. split; [done|].
  intros x' y'. rewrite !elem_of_app, Hmoves.
  split.
  - intros [Hd | [Hd | [(Heq & Hsel & Hc) | Hd]]].
    + apply list_elem_of_singleton in Hd. unfold highlight in Hd.
      by destruct ((x + y) `rem` 2 =? 0).
    + destruct (pieceSelected gs && (selectedX gs =? x)
                && (selectedY gs =? y)).
      * by apply list_elem_of_singleton in Hd.
      * by apply elem_of_nil in Hd.
    + apply highlight_inj in Heq as [-> ->]. done.
    + destruct (negb (is_NONE (type piece))); [|by apply elem_of_nil in Hd].
      apply elem_of_cons in Hd as [Hd | Hd]; [done|].
      destruct (isKing piece); [|by apply elem_of_nil in Hd].
      by apply list_elem_of_singleton in Hd.
  - intros (-> & -> & Hsel & Hc). right. right. left. done.
Qed.

Lemma DrawBoard_spec gs :
  wf_state gs →
  ∃ cells, DrawBoard gs = Some (cells ++ draw_panel gs)
    ∧ ∀ x y, in_bounds x y = true →
        (highlight x y ∈ cells ++ draw_panel gs
         ↔ pieceSelected gs = true
           ∧ mkPosition x y ∈ take 12 (candidates gs)).
Proof.
  intros Hwf. unfold DrawBoard.
  assert (∀ y, y ∈ seqZ 0 ROWS →
            ∃ ds, draw_each (draw_cell gs y) (seqZ 0 COLS) = Some ds
              ∧ ∀ x' y', highlight x' y' ∈ ds
                  ↔ y' = y ∧ in_bounds x' y = true
                    ∧ pieceSelected gs = true
                    ∧ mkPosition x' y ∈ take 12 (candidates gs)) as Hrow.
  { intros y Hy%elem_of_seqZ.
    destruct (draw_each_spec (draw_cell gs y) (seqZ 0 COLS))
      as (ds & Hds & Hin).
    { intros x Hx%elem_of_seqZ.
      destruct (draw_cell_spec gs x y Hwf) as (da & Hda & _); [|eauto].
      apply in_bounds_spec. unfold COLS, ROWS in *. lia. }
    exists ds. split; [done|]. intros x' y'. rewrite Hin. split.
    - intros (x & da & Hx%elem_of_seqZ & Hda & Hd).
      assert (in_bounds x y = true) as Hxy
        by (apply in_bounds_spec; unfold COLS, ROWS in *; lia).
      destruct (draw_cell_spec gs x y Hwf Hxy) as (da' & Hda' & Hc).
      rewrite Hda in Hda'. injection Hda' as <-.
      apply Hc in Hd as (-> & -> & ? & ?). done.
    - intros (-> & Hxy & Hsel & Hc).
      destruct (draw_cell_spec gs x' y Hwf Hxy) as (da & Hda & Hc').
      exists x', da. split; [|split; [done|]].
      + apply elem_of_seqZ. apply in_bounds_spec in Hxy.
        unfold COLS. lia.
      + by apply Hc'. }
  destruct (draw_each_spec
              (λ y, draw_each (draw_cell gs y) (seqZ 0 COLS)) (seqZ 0 ROWS))
    as (cells & Hcells & Hin).
  { intros y Hy. destruct (Hrow y Hy) as (ds & Hds & _). eauto. }
  rewrite Hcells. cbn [bind]. eexists. split; [done|].
  intros x y Hxy. rewrite elem_of_app, Hin. split.
  - intros [(y' & ds & Hy' & Hds & Hd) | Hd].
    + destruct (Hrow y' Hy') as (ds' & Hds' & Hc).
      rewrite Hds in Hds'. injection Hds' as <-.
      apply Hc in Hd as (-> & _ & ? & ?). done.
    + unfold draw_panel, highlight, lightSquareColor, darkSquareColor in Hd.
      cbv zeta in Hd.
      destruct (same_player (currentPlayer gs) PLAYER1);
        repeat (apply elem_of_cons in Hd as [Hd | Hd]; [by inversion Hd|]);
        by apply elem_of_nil in Hd.
  - intros [Hsel Hc]. left.
    assert (y ∈ seqZ 0 ROWS) as Hy.
    { apply elem_of_seqZ. apply in_bounds_spec in Hxy. unfold ROWS. lia. }
    destruct (Hrow y Hy) as (ds & Hds & Hc').
    exists y, ds. split; [done|]. split; [done|]. by apply Hc'.
Qed.

(** X20: [DrawBoard] has a result for every 8 by 8 board and every count of
    candidates, as its loop over the candidates stops at the end of the array;
    and it puts a yellow square on a cell of the board exactly when a piece is
    selected and the cell is among the candidates - the first [validMoveCount]
    entries of the array, 12 at most. *)
Theorem highlights_are_candidates (gs : GameState) :
  wf_state gs →
  ∃ ds, DrawBoard gs = Some ds
    ∧ ∀ x y, in_bounds x y = true →
        (highlight x y ∈ ds
         ↔ pieceSelected gs = true
           ∧ mkPosition x y ∈ take 12 (candidates gs)).
Proof.
  intros Hwf. destruct (DrawBoard_spec gs Hwf) as (cells & Hrun & Hin).
  eauto.
Qed.

Lemma highlights_are_candidates_witness :
  ∃ ds, DrawBoard selected_state = Some ds
    ∧ ∀ x y, in_bounds x y = true →
        (highlight x y ∈ ds
         ↔ pieceSelected selected_state = true
           ∧ mkPosition x y ∈ take 12 (candidates selected_state)).
Proof. apply (highlights_are_candidates selected_state). solve_wf. Defined.

(** X21: in a game the yellow squares are the cells on which a click moves the
    selected piece: a cell of the board is drawn yellow exactly when a click
    on it takes the branch of [HandleInput] that moves the piece there. *)
Theorem yellow_cells_take_the_piece (gs0 : GameState)
    (clicks : list (Z * Z)) (g : GameState) :
  reached gs0 clicks g →
  ∃ ds, DrawBoard g = Some ds
    ∧ ∀ x y, in_bounds x y = true →
        (highlight x y ∈ ds ↔ applies_move g x y).
Proof.
  intros Hreach.
  destruct (reached_invariant _ _ _ Hreach) as (Hwf & _ & Hcons & _).
  destruct (DrawBoard_spec g Hwf) as (cells & Hrun & Hin).
  eexists. split; [done|]. intros x y Hxy. rewrite (Hin x y Hxy).
  split.
  - intros [Hsel Hc]. specialize (Hcons Hsel).
    destruct (consistent_facts g Hwf Hcons)
      as (p & Hp & _ & _ & Hok & Hcand).
    assert (mkPosition x y ∈ candidates g) as Hc'
      by (by apply subseteq_take in Hc).
    split; [done|]. split.
    + right. rewrite Hcand in Hc'. apply subseteq_take in Hc'.
      destruct (candidate_reach _ _ _ _ _ _ Hp Hc')
        as (dx & dy & k & _ & _ & _ & Heq & (c & Hc0 & Htc) & _).
      injection Heq as Hx Hy. rewrite <- Hx, <- Hy in Hc0.
      unfold own_piece_at. rewrite Hc0. simpl. by rewrite Htc.
    + rewrite (IsValidMove_spec _ _ _ _ _ Hok). f_equal.
      by apply bool_decide_eq_true.
  - intros Happ. pose proof (proj1 Happ) as Hsel. split; [done|].
    specialize (Hcons Hsel).
    destruct (consistent_facts g Hwf Hcons) as (_ & _ & _ & _ & Hok & _).
    pose proof (applies_move_candidate g x y Hok Happ) as Hc.
    rewrite take_ge; [done|].
    unfold candidates. rewrite length_take. destruct Hok. lia.
Qed.

Lemma yellow_cells_take_the_piece_witness :
  ∃ ds, DrawBoard selected_state = Some ds
    ∧ ∀ x y, in_bounds x y = true →
        (highlight x y ∈ ds ↔ applies_move selected_state x y).
Proof.
  apply (yellow_cells_take_the_piece empty_state [(1, 2)] selected_state).
  split; [solve_wf | vm_compute; reflexivity].
Defined.

(** The squares of that witness, computed: with the man at (1,2) selected
    the cells (0,3) and (2,3) are drawn yellow, each once, and no other. *)
Example yellow_cells_of_a_man :
  List.filter is_yellow <$> DrawBoard selected_state
  = Some [highlight 0 3; highlight 2 3].
Proof. vm_compute. reflexivity. Qed.

(** X22: in a game the panel shows, for each side, the score and the pieces
    left, and what it shows adds up: the pieces shown for a side are the 12 of
    the start less the score shown for the other side. *)
Theorem panel_shows_pieces_left (gs0 : GameState) (clicks : list (Z * Z))
    (g : GameState) :
  reached gs0 clicks g →
  ∃ ds, DrawBoard g = Some ds
    ∧ DrawText ("Pieces: " +:+ pretty (12 - player2Score g))
        (BOARD_WIDTH + 15) 110 22 (RGBA 0 100 0 255) ∈ ds
    ∧ DrawText ("Pieces: " +:+ pretty (12 - player1Score g))
        (BOARD_WIDTH + 15) 210 22 (RGBA 0 100 0 255) ∈ ds.
Proof.
  intros Hreach.
  destruct (reached_invariant _ _ _ Hreach) as (Hwf & _).
  destruct (DrawBoard_spec g Hwf) as (cells & Hrun & _).
  assert (∀ p, score_of p g + count_pieces (other p) (board g) = 12) as Hsum
    by (intros p; by apply (reached_balance _ _ _ Hreach)).
  exists (cells ++ draw_panel g). split; [done|].
  pose proof (Hsum PLAYER1) as H1. pose proof (Hsum PLAYER2) as H2.
  simpl in H1, H2.
  replace (12 - player2Score g) with (count_pieces PLAYER1 (board g)) by lia.
  replace (12 - player1Score g) with (count_pieces PLAYER2 (board g)) by lia.
  split; apply elem_of_app; right; unfold draw_panel; cbv zeta;
    repeat (try (by left); right).
Qed.

Lemma panel_shows_pieces_left_witness :
  ∃ ds, DrawBoard opening_state = Some ds
    ∧ DrawText ("Pieces: " +:+ pretty (12 - player2Score opening_state))
        (BOARD_WIDTH + 15) 110 22 (RGBA 0 100 0 255) ∈ ds
    ∧ DrawText ("Pieces: " +:+ pretty (12 - player1Score opening_state))
        (BOARD_WIDTH + 15) 210 22 (RGBA 0 100 0 255) ∈ ds.
Proof.
  apply (panel_shows_pieces_left empty_state opening opening_state).
  split; [solve_wf | vm_compute; reflexivity].
Defined.

(** * Turns *)

(** X7: the side to move changes with a click exactly when the click moves the
    selected piece and the chain does not go on; then the other side is to
    move, nothing is selected and the chain flag is off. With any other click
    the same side stays to move; after a move that is because the chain goes
    on with the piece on the cell clicked. *)
Theorem turn_passes_when_move_ends (gs0 : GameState)
    (clicks : list (Z * Z)) (g : GameState) (x y : Z) (g' : GameState) :
  reached gs0 clicks g → HandleInput g x y = Some g' →
  (currentPlayer g' = currentPlayer g
   ∧ (applies_move g x y →
      pieceSelected g' = true ∧ isCapturing g' = true
      ∧ selectedX g' = x ∧ selectedY g' = y))
  ∨ (currentPlayer g' = other (currentPlayer g)
     ∧ applies_move g x y
     ∧ pieceSelected g' = false ∧ isCapturing g' = false
     ∧ validMoveCount g' = 0).
Proof.
  intros Hreach Hrun.
  pose proof (reached_invariant _ _ _ Hreach) as Hinv.
  pose proof (invariant_score g Hinv) as Hscore.
  destruct Hinv as (Hwf & _ & Hcons & _).
  destruct (decide (applies_move g x y)) as [Happ | Hno].
  - specialize (Hcons (proj1 Happ)).
    destruct (consistent_facts g Hwf Hcons) as (_ & _ & _ & _ & Hok & _).
    pose proof (applies_move_candidate g x y Hok Happ) as Hcand.
    rewrite (HandleInput_move _ _ _ Happ) in Hrun.
    destruct (consistent_move g x y Hwf Hcons Hcand Hscore)
      as (g1 & p & dx & dy & k & Hg1 & _ & _ & _ & _ & _ & _ & _ & _ & _ & _
          & _ & Hcase).
    rewrite Hrun in Hg1. injection Hg1 as <-.
    destruct Hcase as [(_ & _ & _ & _ & Hpass)
                      | (_ & _ & _ & _ & [(Hcap & Hchain & _) | Hpass])].
    + right. destruct Hpass as (? & ? & ? & ?). done.
    + left. destruct Hchain as (? & ? & ? & _ & ?). done.
    + right. destruct Hpass as (? & ? & ? & ?). done.
  - left. destruct (HandleInput_cases g x y g' Hwf Hrun)
      as [(_ & Hcur & _) | [Happ _]]; [done|done].
Qed.

Lemma turn_passes_when_move_ends_witness :
  (currentPlayer stepped_state = currentPlayer selected_state
   ∧ (applies_move selected_state 2 3 →
      pieceSelected stepped_state = true ∧ isCapturing stepped_state = true
      ∧ selectedX stepped_state = 2 ∧ selectedY stepped_state = 3))
  ∨ (currentPlayer stepped_state = other (currentPlayer selected_state)
     ∧ applies_move selected_state 2 3
     ∧ pieceSelected stepped_state = false
     ∧ isCapturing stepped_state = false
     ∧ validMoveCount stepped_state = 0).
Proof.
  apply (turn_passes_when_move_ends empty_state [(1, 2)] selected_state 2 3
           stepped_state).
  - split; [solve_wf | vm_compute; reflexivity].
  - vm_compute. reflexivity.
Defined.

(** * IsValidMove *)

Lemma valid_move_from_over vm ex ey :
  ∀ n i, (length vm < i + n)%nat → (i ≤ length vm)%nat →
  valid_move_from vm i n ex ey
  = if bool_decide (mkPosition ex ey ∈ drop i vm) then Some true else None.
Proof.
  induction n as [|n IH]; intros i Hover Hi; [lia|].
  cbn [valid_move_from].
  destruct (vm !! i) as [move|] eqn:Hmove.
  - rewrite (drop_S _ _ _ Hmove). cbn [bind].
    destruct ((pos_x move =? ex) && (pos_y move =? ey)) eqn:Heq.
    + assert (move = mkPosition ex ey) as ->.
      { apply andb_true_iff in Heq as [Hx%Z.eqb_eq Hy%Z.eqb_eq].
        destruct move. simpl in *. by subst. }
      rewrite bool_decide_eq_true_2; [done|by left].
    + assert (mkPosition ex ey ≠ move) as Hne.
      { intros <-. simpl in Heq. by rewrite !Z.eqb_refl in Heq. }
      apply lookup_lt_Some in Hmove.
      rewrite IH by lia.
      apply (f_equal (λ b : bool, if b then Some true else None)).
      apply bool_decide_ext. rewrite elem_of_cons. naive_solver.
  - apply lookup_ge_None in Hmove. cbn [bind].
    rewrite drop_ge by done.
    rewrite bool_decide_eq_false_2; [done|]. by intros ?%elem_of_nil.
Qed.

(** X14: [IsValidMove] looks for the cell among the first [validMoveCount]
    entries of the candidate array and at nothing else; the start cell it is
    given plays no part. Unlike [DrawBoard] it does not stop at the end of the
    array: with a count above 12 and the cell not among the 12 entries it
    reads [validMoves[12]], which has no defined result. *)
Theorem IsValidMove_reads_count_entries (gs : GameState) (sx sy x y : Z) :
  wf_state gs →
  IsValidMove gs sx sy x y
  = if bool_decide (mkPosition x y ∈ take 12 (candidates gs)) then Some true
    else if bool_decide (validMoveCount gs ≤ MAX_VALID_MOVES) then Some false
    else None.
Proof.
  intros [_ Hlen]. unfold IsValidMove, candidates, MAX_VALID_MOVES.
  rewrite take_take.
  destruct (decide (validMoveCount gs ≤ 12)) as [Hle | Hgt].
  - rewrite valid_move_from_spec by lia. cbn [drop].
    replace (12 `min` Z.to_nat (validMoveCount gs))%nat
      with (Z.to_nat (validMoveCount gs)) by lia.
    rewrite (bool_decide_eq_true_2 (validMoveCount gs ≤ 12)) by done.
    by destruct (bool_decide (mkPosition x y ∈ _)).
  - rewrite valid_move_from_over by (simpl; lia). cbn [drop].
    replace (12 `min` Z.to_nat (validMoveCount gs))%nat with 12%nat by lia.
    rewrite take_ge by lia.
    rewrite (bool_decide_eq_false_2 (validMoveCount gs ≤ 12)) by done.
    done.
Qed.

Lemma IsValidMove_reads_count_entries_witness :
  IsValidMove overcounted_state 1 2 2 3
  = if bool_decide (mkPosition 2 3 ∈ take 12 (candidates overcounted_state))
    then Some true
    else if bool_decide (validMoveCount overcounted_state ≤ MAX_VALID_MOVES)
         then Some false
         else None.
Proof.
  apply (IsValidMove_reads_count_entries overcounted_state 1 2 2 3).
  solve_wf.
Defined.

(** The call of that witness, computed, and the drawing of the same state:
    [IsValidMove] runs off the array, [DrawBoard] does not. *)
Example count_beyond_the_array :
  IsValidMove overcounted_state 1 2 2 3 = None
  ∧ is_Some (DrawBoard overcounted_state).
Proof. split; [vm_compute; reflexivity|]. by eexists; vm_compute. Qed.

(** * What a click never does *)

(** X5: no click in a game puts a piece on the board that was not there, makes
    a piece change sides or takes the crown off a king: every piece on the
    board after a click was on the board before it, on the same cell or - if
    it stands on the cell clicked - on the cell that was selected, with the
    same owner, and a king before is a king after. *)
Theorem pieces_keep_side_and_crown (gs0 : GameState)
    (clicks : list (Z * Z)) (g : GameState) (x y : Z) (g' : GameState) :
  reached gs0 clicks g → HandleInput g x y = Some g' →
  ∀ cx cy c', cell (board g') cx cy = Some c' → type c' ≠ NONE →
    ∃ c, (cell (board g) cx cy = Some c
          ∨ ((cx, cy) = (x, y)
             ∧ cell (board g) (selectedX g) (selectedY g) = Some c))
      ∧ type c ≠ NONE ∧ player c' = player c
      ∧ (isKing c = true → isKing c' = true).
Proof.
  intros Hreach Hrun cx cy c' Hc' Hty.
  pose proof (reached_invariant _ _ _ Hreach) as Hinv.
  destruct (HandleInput_cases g x y g' (proj1 Hinv) Hrun)
    as [(Hb & _) | [Happ Hmove]].
  { exists c'. rewrite Hb in Hc'. auto. }
  destruct (invariant_move g x y g' Hinv Happ Hmove)
    as (p & dx & dy & k & Hp & Htp & _ & _ & _ & _ & _ & _ & Hdest & _).
  pose proof (move_selected_cleared g x y g' (proj1 Hinv) Hmove) as Hcl.
  destruct (decide ((cx, cy) = (x, y))) as [Heq | Hne].
  - exists p. injection Heq as -> ->. split; [by right|]. split; [done|].
    rewrite Hc' in Hdest. by destruct Hdest as [[= ->] | [= ->]].
  - exists c'. split; [left; by eapply cleared_outside_piece|]. auto.
Qed.

Lemma pieces_keep_side_and_crown_witness :
  cell (board stepped_state) 2 3 = Some man1
  ∧ ∃ c, (cell (board selected_state) 2 3 = Some c
          ∨ ((2, 3) = (2, 3)
             ∧ cell (board selected_state) (selectedX selected_state)
                 (selectedY selected_state) = Some c))
      ∧ type c ≠ NONE ∧ player man1 = player c
      ∧ (isKing c = true → isKing man1 = true).
Proof.
  split; [vm_compute; reflexivity|].
  refine (pieces_keep_side_and_crown empty_state [(1, 2)] selected_state 2 3
            stepped_state _ _ 2 3 man1 _ _).
  - split; [solve_wf | vm_compute; reflexivity].
  - vm_compute. reflexivity.
  - vm_compute. reflexivity.
  - discriminate.
Defined.
